(** * A map game with caches of coins: board, transfers, mementos, session

    Shallow embedding of [src/main.ts].  JavaScript numbers are IEEE 754
    binary64 values; they are modelled with the executable specification of
    the Standard Library ([SpecFloat], precision 53, maximal exponent 1024).
    Numbers that the program only ever uses as integers (cell indices, coin
    serials, loop counters) are modelled as [Z].  Objects that the program
    compares by identity (coins, caches, board cells) live in heaps and are
    named by their address. *)

From Stdlib Require Import ZArith QArith Lia Ascii String Floats.SpecFloat.
From stdpp Require Import base option list strings gmap pretty.

Local Open Scope Z_scope.

(** ** JavaScript numbers *)

Module Num.

Abbreviation number := spec_float.

Definition prec : Z := 53.
Definition emax : Z := 1024.

(** The number nearest to an integer (exact below [2^53]). *)
Definition of_Z (n : Z) : number := binary_normalize prec emax n 0 false.

(** The number a decimal literal [m * 10^e10] denotes: the binary64 value
    nearest to it, ties to even. *)
Definition decimal (m e10 : Z) : number :=
  if 0 <=? e10 then of_Z (m * 10 ^ e10)
  else
    let den := S754_finite false (Z.to_pos (10 ^ (- e10))) 0 in
    match m with
    | Z0 => S754_zero false
    | Zpos p => SFdiv prec emax (S754_finite false p 0) den
    | Zneg p => SFdiv prec emax (S754_finite true p 0) den
    end.

Definition mul : number → number → number := SFmul prec emax.
Definition div : number → number → number := SFdiv prec emax.
Definition ltb : number → number → bool := SFltb.

(** The signed mantissa of a finite number. *)
Definition mantissa (s : bool) (m : positive) : Z := cond_Zopp s (Zpos m).

(** [Math.floor] of a finite number, as an integer.  On [NaN] and the
    infinities JavaScript returns the argument, which is no integer. *)
Definition floor (x : number) : option Z :=
  match x with
  | S754_zero _ => Some 0
  | S754_finite s m e => Some (Z.shiftl (mantissa s m) e)
  | S754_infinity _ | S754_nan => None
  end.

(** The rational a finite number stands for. *)
Definition to_Q (x : number) : Q :=
  match x with
  | S754_finite s m e =>
      if 0 <=? e then inject_Z (mantissa s m * 2 ^ e)
      else Qmake (mantissa s m) (Z.to_pos (2 ^ (- e)))
  | _ => 0%Q
  end.

Definition is_finite (x : number) : bool :=
  match x with
  | S754_zero _ | S754_finite _ _ _ => true
  | _ => false
  end.

(** The integer a number is, when it is one. *)
Definition to_Z (x : number) : option Z :=
  match x with
  | S754_zero _ => Some 0
  | S754_finite s m e =>
      if 0 <=? e then Some (mantissa s m * 2 ^ e)
      else if (Zpos m) mod 2 ^ (- e) =? 0
           then Some (mantissa s m / 2 ^ (- e)) else None
  | _ => None
  end.

End Num.
Import Num.

(** A number of the interval [[0, 1)], as [luck] returns them. *)
Definition unit_interval (x : number) : Prop :=
  valid_binary prec emax x = true ∧
  SFleb (S754_zero false) x = true ∧
  ltb x (of_Z 1) = true.

(** ** Constants of the program *)

Definition TILE_DEGREES : number := decimal 1 (-4).
Definition NEIGHBORHOOD_SIZE : Z := 8.
Definition CACHE_SPAWN_PROBABILITY : number := decimal 1 (-1).
Definition HISTORY_UPDATE_DISTANCE : number := of_Z 20.

(** ** Interfaces *)

Module Cell.
Record t := { i : Z; j : Z }.
End Cell.

Record latlng := { lat : number; lng : number }.

Module Coin.
Record t := { cell : Cell.t; serial : Z }.
End Coin.

(** A cache holds its coins by reference: [coins] lists addresses of [Coin]
    objects.  [toString] is what the method of that name returns. *)
Module Cache.
Record t := { cell : Cell.t; coins : list nat; toString : string }.
End Cache.

(** [[i, j].toString()]: the elements in decimal, joined by a comma. *)
Definition Array_toString (i j : Z) : string :=
  pretty i +:+ "," +:+ pretty j.

(** ** The board *)

(** A board cell is an object; [known_cells] maps a key to the address of
    the cell in [cell_objs], the cells the board has allocated so far. *)
Record Board := {
  tile_width : number;
  tile_visible_radius : Z;
  known_cells : gmap string nat;
  cell_objs : list Cell.t;
}.

Definition createBoard : Board :=
  {| tile_width := TILE_DEGREES;
     tile_visible_radius := NEIGHBORHOOD_SIZE;
     known_cells := ∅;
     cell_objs := [] |}.

Definition getCell (i j : Z) (b : Board) : nat * Board :=
  let key := Array_toString i j in
  match known_cells b !! key with
  | Some c => (c, b)
  | None =>
      let c := length (cell_objs b) in
      (c, {| tile_width := tile_width b;
             tile_visible_radius := tile_visible_radius b;
             known_cells := <[key := c]> (known_cells b);
             cell_objs := cell_objs b ++ [{| Cell.i := i; Cell.j := j |}] |})
  end.

(** [None] when a quotient is [NaN] or infinite: then the index is no
    integer, which this model of the board leaves out. *)
Definition getCellFromPoint (point : latlng) (b : Board) : option (nat * Board) :=
  i ← floor (div (lat point) (tile_width b));
  j ← floor (div (lng point) (tile_width b));
  Some (getCell i j b).

(** The loop [for (k = lo; k < hi; k++)] over integers: its values of [k]. *)
Definition range (lo hi : Z) : list Z := seqZ lo (hi - lo).

(** The calls of [getCell] in sequence, collecting what they return. *)
Fixpoint getCells (ijs : list (Z * Z)) (b : Board) : list nat * Board :=
  match ijs with
  | [] => ([], b)
  | (i, j) :: rest =>
      let '(c, b1) := getCell i j b in
      let '(cs, b2) := getCells rest b1 in
      (c :: cs, b2)
  end.

(** The offsets of the two nested loops of [getCellsNearPoint], in the
    order the loops visit them. *)
Definition offsets (r : Z) : list (Z * Z) :=
  i ← range (- r) r; j ← range (- r) r; [(i, j)].

Definition getCellsNearPoint (point : latlng) (b : Board) : option (list nat * Board) :=
  '(origin, b1) ← getCellFromPoint point b;
  o ← cell_objs b1 !! origin;
  Some (getCells
          (map (λ '(di, dj), (di + Cell.i o, dj + Cell.j o))
             (offsets (tile_visible_radius b1)))
          b1).

(** The position of the marker of a cache ([addCache]): the corner of its
    tile, [cell.i * TILE_DEGREES] and [cell.j * TILE_DEGREES]. *)
Definition marker_position (c : Cell.t) : latlng :=
  {| lat := mul (of_Z (Cell.i c)) TILE_DEGREES;
     lng := mul (of_Z (Cell.j c)) TILE_DEGREES |}.

(** ** JSON

    [JSON.stringify] and [JSON.parse] on the values this program stores:
    arrays, objects, strings and numbers.  An integer stands for itself; any
    other number is a binary64 value, whose decimal text JavaScript chooses
    (the shortest that reads back), taken here as the parameter
    [real_toString] of [stringify]. *)

#[local] Set Warnings "-register-all".
Inductive json :=
| JNull
| JBool (b : bool)
| JNum (n : Z)
| JReal (x : number)
| JStr (s : string)
| JArr (vs : list json)
| JObj (kvs : list (string * json)).

Module JSON.

Definition dquote : ascii := "034"%char.
Definition bslash : ascii := "092"%char.

Definition hex_char (n : N) : ascii :=
  ascii_of_N (if (n <? 10)%N then 48 + n else 87 + n).

(** [QuoteJSONString], one character at a time. *)
Definition escape_char (c : ascii) : string :=
  let n := N_of_ascii c in
  if Ascii.eqb c dquote then String bslash (String dquote EmptyString)
  else if Ascii.eqb c bslash then String bslash (String bslash EmptyString)
  else if (n =? 8)%N then String bslash "b"
  else if (n =? 9)%N then String bslash "t"
  else if (n =? 10)%N then String bslash "n"
  else if (n =? 12)%N then String bslash "f"
  else if (n =? 13)%N then String bslash "r"
  else if (n <? 32)%N then
    String bslash ("u00" +:+ String (hex_char (n / 16)) (String (hex_char (n mod 16)) EmptyString))
  else String c EmptyString.

Fixpoint escape (s : string) : string :=
  match s with
  | EmptyString => EmptyString
  | String c r => escape_char c +:+ escape r
  end.

Definition quote (s : string) : string :=
  String dquote (escape s +:+ String dquote EmptyString).

Section Stringify.
Variable real_toString : number → string.

Fixpoint stringify (v : json) : string :=
  match v with
  | JNull => "null"
  | JBool true => "true"
  | JBool false => "false"
  | JNum n => pretty n
  | JReal x => if is_finite x then real_toString x else "null"
  | JStr s => quote s
  | JArr vs => "[" +:+ String.concat "," (map stringify vs) +:+ "]"
  | JObj kvs =>
      "{" +:+ String.concat ","
                (map (λ kv, quote (fst kv) +:+ ":" +:+ stringify (snd kv)) kvs)
          +:+ "}"
  end.

End Stringify.

(** *** Reading *)

Definition is_digit (c : ascii) : bool :=
  let n := N_of_ascii c in ((48 <=? n) && (n <=? 57))%N.

Definition digit_of (c : ascii) : option N :=
  if is_digit c then Some (N_of_ascii c - 48)%N else None.

Definition hex_of (c : ascii) : option N :=
  let n := N_of_ascii c in
  if ((48 <=? n) && (n <=? 57))%N then Some (n - 48)%N
  else if ((97 <=? n) && (n <=? 102))%N then Some (n - 87)%N
  else if ((65 <=? n) && (n <=? 70))%N then Some (n - 55)%N
  else None.

(** Reads the digits a string starts with: their value after [acc], their
    number after [cnt], and the rest of the string. *)
Fixpoint read_digits (acc : N) (cnt : nat) (s : string) : N * nat * string :=
  match s with
  | String c r =>
      match digit_of c with
      | Some d => read_digits (acc * 10 + d) (S cnt) r
      | None => (acc, cnt, s)
      end
  | EmptyString => (acc, cnt, s)
  end.

Definition starts_with_digit (s : string) : bool :=
  match s with
  | String c _ => is_digit c
  | EmptyString => false
  end.

(** A [0] followed by a digit: no JSON number starts so. *)
Definition leading_zero (s : string) : bool :=
  match s with
  | String c r => Ascii.eqb c "0" && starts_with_digit r
  | EmptyString => false
  end.

(** The fraction of a number, if it has one: value and number of digits. *)
Definition read_frac (s : string) : option (option (N * nat) * string) :=
  match s with
  | String c r =>
      if Ascii.eqb c "." then
        if starts_with_digit r
        then let '(f, k, r') := read_digits 0 0 r in Some (Some (f, k), r')
        else None
      else Some (None, s)
  | EmptyString => Some (None, s)
  end.

Definition read_exp_digits (neg : bool) (r : string) : option (option Z * string) :=
  if starts_with_digit r
  then let '(e, _, r') := read_digits 0 0 r in
       Some (Some (if neg then - Z.of_N e else Z.of_N e), r')
  else None.

(** The exponent of a number, if it has one. *)
Definition read_exp (s : string) : option (option Z * string) :=
  match s with
  | String c r =>
      if Ascii.eqb c "e" || Ascii.eqb c "E" then
        match r with
        | String "+" r' => read_exp_digits false r'
        | String "-" r' => read_exp_digits true r'
        | _ => read_exp_digits false r
        end
      else Some (None, s)
  | EmptyString => Some (None, s)
  end.

(** A number read from text: an integer when it is one. *)
Definition num_to_json (x : number) : json :=
  match to_Z x with
  | Some n => JNum n
  | None => JReal x
  end.

(** A number after its sign. *)
Definition parse_unsigned (neg : bool) (s : string) : option (json * string) :=
  if negb (starts_with_digit s) || leading_zero s then None
  else
    let '(n, _, r1) := read_digits 0 0 s in
    let sgn (z : Z) := if neg then - z else z in
    '(frac, r2) ← read_frac r1;
    '(ex, r3) ← read_exp r2;
    match frac, ex with
    | None, None => Some (JNum (sgn (Z.of_N n)), r3)
    | _, _ =>
        let '(f, k) := default (0%N, 0%nat) frac in
        let e := default 0 ex in
        Some (num_to_json
                (decimal (sgn (Z.of_N n * 10 ^ Z.of_nat k + Z.of_N f)) (e - Z.of_nat k)),
              r3)
    end.

Definition parse_number (s : string) : option (json * string) :=
  match s with
  | String c r => if Ascii.eqb c "-" then parse_unsigned true r else parse_unsigned false s
  | EmptyString => None
  end.

(** The character an escape stands for; [\u] is read apart. *)
Definition unescape (c : ascii) : option ascii :=
  if Ascii.eqb c dquote then Some dquote
  else if Ascii.eqb c bslash then Some bslash
  else if Ascii.eqb c "/" then Some "/"%char
  else if Ascii.eqb c "b" then Some (ascii_of_N 8)
  else if Ascii.eqb c "t" then Some (ascii_of_N 9)
  else if Ascii.eqb c "n" then Some (ascii_of_N 10)
  else if Ascii.eqb c "f" then Some (ascii_of_N 12)
  else if Ascii.eqb c "r" then Some (ascii_of_N 13)
  else None.

(** The code unit of [\uXXXX], when it is a single byte below 128. *)
Definition unicode_escape (h1 h2 h3 h4 : ascii) : option ascii :=
  a ← hex_of h1; b ← hex_of h2; c ← hex_of h3; d ← hex_of h4;
  if ((a =? 0) && (b =? 0) && (c <? 8))%N then Some (ascii_of_N (c * 16 + d)) else None.

(** A string after its opening quote, up to its closing quote. *)
Fixpoint parse_string (s : string) : option (string * string) :=
  match s with
  | EmptyString => None
  | String c r =>
      if Ascii.eqb c dquote then Some (EmptyString, r)
      else if Ascii.eqb c bslash then
        match r with
        | String "u" (String h1 (String h2 (String h3 (String h4 r')))) =>
            ch ← unicode_escape h1 h2 h3 h4;
            '(str, rest) ← parse_string r';
            Some (String ch str, rest)
        | String e r' =>
            ch ← unescape e;
            '(str, rest) ← parse_string r';
            Some (String ch str, rest)
        | EmptyString => None
        end
      else if (N_of_ascii c <? 32)%N then None
      else '(str, rest) ← parse_string r; Some (String c str, rest)
  end.

Section Elements.
Variable parse_value : string → option (json * string).

(** The elements of an array that is not empty; [n] bounds their number. *)
Fixpoint parse_elements (n : nat) (s : string) : option (list json * string) :=
  match n with
  | O => None
  | S n =>
      '(v, r) ← parse_value s;
      match r with
      | String c r' =>
          if Ascii.eqb c "," then
            '(vs, rest) ← parse_elements n r'; Some (v :: vs, rest)
          else if Ascii.eqb c "]" then Some ([v], r')
          else None
      | EmptyString => None
      end
  end.

Definition parse_member (s : string) : option (string * json * string) :=
  match s with
  | String c r =>
      if Ascii.eqb c dquote then
        '(k, r1) ← parse_string r;
        match r1 with
        | String c1 r2 =>
            if Ascii.eqb c1 ":" then '(v, r3) ← parse_value r2; Some (k, v, r3)
            else None
        | EmptyString => None
        end
      else None
  | EmptyString => None
  end.

(** The members of an object that is not empty. *)
Fixpoint parse_members (n : nat) (s : string) : option (list (string * json) * string) :=
  match n with
  | O => None
  | S n =>
      '(k, v, r) ← parse_member s;
      match r with
      | String c r' =>
          if Ascii.eqb c "," then
            '(kvs, rest) ← parse_members n r'; Some ((k, v) :: kvs, rest)
          else if Ascii.eqb c "}" then Some ([(k, v)], r')
          else None
      | EmptyString => None
      end
  end.

End Elements.

Definition is_num_start (c : ascii) : bool := Ascii.eqb c "-" || is_digit c.

(** The rest of [s] after the prefix [p]. *)
Fixpoint strip_prefix (p s : string) : option string :=
  match p, s with
  | EmptyString, _ => Some s
  | String a p', String b s' => if Ascii.eqb a b then strip_prefix p' s' else None
  | String _ _, EmptyString => None
  end.

Definition starts_with (c : ascii) (s : string) : bool :=
  match s with
  | String c' _ => Ascii.eqb c' c
  | EmptyString => false
  end.

Definition tail (s : string) : string :=
  match s with
  | String _ r => r
  | EmptyString => EmptyString
  end.

(** A value at the head of a string, and the rest; [fuel] bounds nesting. *)
Fixpoint parse_value (fuel : nat) (s : string) : option (json * string) :=
  match fuel with
  | O => None
  | S fuel =>
      match s with
      | EmptyString => None
      | String c r =>
          if is_num_start c then parse_number s
          else if Ascii.eqb c dquote then
            '(str, rest) ← parse_string r; Some (JStr str, rest)
          else if Ascii.eqb c "[" then
            if starts_with "]" r then Some (JArr [], tail r)
            else '(vs, rest) ← parse_elements (parse_value fuel) (String.length r) r;
                 Some (JArr vs, rest)
          else if Ascii.eqb c "{" then
            if starts_with "}" r then Some (JObj [], tail r)
            else '(kvs, rest) ← parse_members (parse_value fuel) (String.length r) r;
                 Some (JObj kvs, rest)
          else if Ascii.eqb c "n" then rest ← strip_prefix "ull" r; Some (JNull, rest)
          else if Ascii.eqb c "t" then rest ← strip_prefix "rue" r; Some (JBool true, rest)
          else if Ascii.eqb c "f" then rest ← strip_prefix "alse" r; Some (JBool false, rest)
          else None
      end
  end.

(** [JSON.parse]: [None] where it throws, and on text that holds blanks
    between its tokens or escapes of code units above 127, which this reader
    does not take. *)
Definition parse (s : string) : option json :=
  match parse_value (S (String.length s)) s with
  | Some (v, EmptyString) => Some v
  | _ => None
  end.

(** The nesting of a value, and the values with no number but integers:
    those whose text does not depend on [real_toString]. *)
Fixpoint depth (v : json) : nat :=
  match v with
  | JArr vs => S (foldr (λ v d, max (depth v) d) 0%nat vs)
  | JObj kvs => S (foldr (λ kv d, max (depth (snd kv)) d) 0%nat kvs)
  | _ => 1%nat
  end.

Fixpoint plain (v : json) : bool :=
  match v with
  | JReal _ => false
  | JArr vs => forallb plain vs
  | JObj kvs => forallb (λ kv, plain (snd kv)) kvs
  | _ => true
  end.

End JSON.

(** ** The state of a session *)

Definition OAKES_CLASSROOM : latlng :=
  {| lat := decimal 3698949379578401 (-14);
     lng := decimal (-12206277128548504) (-14) |}.

(** The variables of the module, the two heaps of objects and the storage
    of the browser.  [momentos] is a [Map]: its entries keep the order in
    which their keys were first set. *)
Record State := {
  coin_objs : list Coin.t;
  cache_objs : list Cache.t;
  momentos : list (string * string);
  locHistory : list (list latlng);
  origin : latlng;
  board : Board;
  markers : list nat;
  localStorage : gmap string string;
}.

(** The inventory is the first cache the module creates. *)
Definition inventory : nat := 0%nat.

Definition set_coin_objs (v : list Coin.t) (σ : State) : State :=
  {| coin_objs := v; cache_objs := cache_objs σ; momentos := momentos σ;
     locHistory := locHistory σ; origin := origin σ; board := board σ;
     markers := markers σ; localStorage := localStorage σ |}.

Definition set_cache_objs (v : list Cache.t) (σ : State) : State :=
  {| coin_objs := coin_objs σ; cache_objs := v; momentos := momentos σ;
     locHistory := locHistory σ; origin := origin σ; board := board σ;
     markers := markers σ; localStorage := localStorage σ |}.

Definition set_momentos (v : list (string * string)) (σ : State) : State :=
  {| coin_objs := coin_objs σ; cache_objs := cache_objs σ; momentos := v;
     locHistory := locHistory σ; origin := origin σ; board := board σ;
     markers := markers σ; localStorage := localStorage σ |}.

Definition set_locHistory (v : list (list latlng)) (σ : State) : State :=
  {| coin_objs := coin_objs σ; cache_objs := cache_objs σ; momentos := momentos σ;
     locHistory := v; origin := origin σ; board := board σ;
     markers := markers σ; localStorage := localStorage σ |}.

Definition set_origin (v : latlng) (σ : State) : State :=
  {| coin_objs := coin_objs σ; cache_objs := cache_objs σ; momentos := momentos σ;
     locHistory := locHistory σ; origin := v; board := board σ;
     markers := markers σ; localStorage := localStorage σ |}.

Definition set_board (v : Board) (σ : State) : State :=
  {| coin_objs := coin_objs σ; cache_objs := cache_objs σ; momentos := momentos σ;
     locHistory := locHistory σ; origin := origin σ; board := v;
     markers := markers σ; localStorage := localStorage σ |}.

Definition set_markers (v : list nat) (σ : State) : State :=
  {| coin_objs := coin_objs σ; cache_objs := cache_objs σ; momentos := momentos σ;
     locHistory := locHistory σ; origin := origin σ; board := board σ;
     markers := v; localStorage := localStorage σ |}.

Definition set_localStorage (v : gmap string string) (σ : State) : State :=
  {| coin_objs := coin_objs σ; cache_objs := cache_objs σ; momentos := momentos σ;
     locHistory := locHistory σ; origin := origin σ; board := board σ;
     markers := markers σ; localStorage := v |}.

Definition with_coins (cs : list nat) (c : Cache.t) : Cache.t :=
  {| Cache.cell := Cache.cell c; Cache.coins := cs;
     Cache.toString := Cache.toString c |}.

(** [a.coins = cs] *)
Definition set_coins (a : nat) (cs : list nat) (σ : State) : State :=
  set_cache_objs (alter (with_coins cs) a (cache_objs σ)) σ.

(** The coin objects at these addresses exist. *)
Definition allocated (σ : State) (cs : list nat) : Prop :=
  Forall (λ r, is_Some (coin_objs σ !! r)) cs.

(** *** Methods of [Map] and [Array] *)

Fixpoint Map_set (k v : string) (m : list (string * string)) : list (string * string) :=
  match m with
  | [] => [(k, v)]
  | (k', v') :: rest =>
      if decide (k = k') then (k, v) :: rest else (k', v') :: Map_set k v rest
  end.

Fixpoint Map_get (k : string) (m : list (string * string)) : option string :=
  match m with
  | [] => None
  | (k', v') :: rest => if decide (k = k') then Some v' else Map_get k rest
  end.

Definition Map_has (k : string) (m : list (string * string)) : bool :=
  bool_decide (is_Some (Map_get k m)).

(** [indexOf] on an array of objects compares addresses; [None] is [-1]. *)
Fixpoint indexOf (x : nat) (l : list nat) : option nat :=
  match l with
  | [] => None
  | y :: rest => if decide (x = y) then Some 0%nat else S <$> indexOf x rest
  end.

(** A truthy string: one that is not empty. *)
Definition truthy (s : string) : bool :=
  match s with
  | EmptyString => false
  | _ => true
  end.

(** [forEach] with a callback that may throw. *)
Fixpoint forEach {A} (f : A → State → option State) (l : list A) (σ : State) : option State :=
  match l with
  | [] => Some σ
  | x :: rest => σ1 ← f x σ; forEach f rest σ1
  end.

(** ** Coins as JSON *)

Definition coin_to_json (c : Coin.t) : json :=
  JObj [("cell", JObj [("i", JNum (Cell.i (Coin.cell c))); ("j", JNum (Cell.j (Coin.cell c)))]);
        ("serial", JNum (Coin.serial c))].

(** The coin a parsed object is; [None] on a value that is no [Coin]. *)
Definition coin_of_json (v : json) : option Coin.t :=
  match v with
  | JObj [(k1, JObj [(k2, JNum i); (k3, JNum j)]); (k4, JNum s)] =>
      if decide (k1 = "cell" ∧ k2 = "i" ∧ k3 = "j" ∧ k4 = "serial")
      then Some {| Coin.cell := {| Cell.i := i; Cell.j := j |}; Coin.serial := s |}
      else None
  | _ => None
  end.

Definition number_to_json (x : number) : json :=
  match to_Z x with
  | Some n => JNum n
  | None => JReal x
  end.

Definition number_of_json (v : json) : option number :=
  match v with
  | JNum n => Some (of_Z n)
  | JReal x => Some x
  | _ => None
  end.

Definition latlng_to_json (p : latlng) : json :=
  JObj [("lat", number_to_json (lat p)); ("lng", number_to_json (lng p))].

Definition latlng_of_json (v : json) : option latlng :=
  match v with
  | JObj [(k1, a); (k2, b)] =>
      if decide (k1 = "lat" ∧ k2 = "lng")
      then x ← number_of_json a; y ← number_of_json b; Some {| lat := x; lng := y |}
      else None
  | _ => None
  end.

Definition json_array (v : json) : option (list json) :=
  match v with
  | JArr vs => Some vs
  | _ => None
  end.

Definition json_string (v : json) : option string :=
  match v with
  | JStr s => Some s
  | _ => None
  end.

(** ** The program *)

Section Game.

(** [luck] is imported from [luck.ts]; [calculateDistance] is the distance
    of the map service; [real_toString] is the decimal text of a number
    that is no integer. *)
Variable luck : string → number.
Variable calculateDistance : latlng → latlng → number.
Variable real_toString : number → string.

Definition JSON_stringify : json → string := JSON.stringify real_toString.
Definition JSON_parse : string → option json := JSON.parse.

(** [createCache(i, j, num_coins)]: a new cache object and [num_coins] new
    coin objects, pushed in the order of their serials. *)
Definition createCache (i j num_coins : Z) (σ : State) : nat * State :=
  let cell := {| Cell.i := i; Cell.j := j |} in
  let new_coins :=
    map (λ k, {| Coin.cell := cell; Coin.serial := k |}) (range 0 num_coins) in
  let cache :=
    {| Cache.cell := cell;
       Cache.coins := seq (length (coin_objs σ)) (length new_coins);
       Cache.toString := Array_toString i j |} in
  (length (cache_objs σ),
   set_cache_objs (cache_objs σ ++ [cache])
     (set_coin_objs (coin_objs σ ++ new_coins) σ)).

(** The coin objects a cache holds. *)
Definition coins_of (a : nat) (σ : State) : option (list Coin.t) :=
  c ← cache_objs σ !! a;
  mapM (λ r, coin_objs σ !! r) (Cache.coins c).

(** [a.toMomento()] *)
Definition toMomento (a : nat) (σ : State) : option string :=
  cs ← coins_of a σ;
  Some (JSON_stringify (JArr (map coin_to_json cs))).

(** [a.fromMomento(momento)]: the parsed coins are new objects.  [None]
    where [JSON.parse] throws or gives a value that is no array of coins. *)
Definition fromMomento (a : nat) (momento : string) (σ : State) : option State :=
  v ← JSON_parse momento;
  vs ← json_array v;
  cs ← mapM coin_of_json vs;
  _ ← cache_objs σ !! a;
  Some (set_coins a (seq (length (coin_objs σ)) (length cs))
          (set_coin_objs (coin_objs σ ++ cs) σ)).

(** [a.toString()] *)
Definition cache_toString (a : nat) (σ : State) : option string :=
  Cache.toString <$> cache_objs σ !! a.

(** Transfer a coin from cache a to cache b *)
Definition transfer (a b coin : nat) (σ : State) : option State :=
  ca ← cache_objs σ !! a;
  match indexOf coin (Cache.coins ca) with
  | None => Some σ
  | Some index =>
      let σ1 := set_coins a (delete index (Cache.coins ca)) σ in
      cb ← cache_objs σ1 !! b;
      let σ2 := set_coins b (Cache.coins cb ++ [coin]) σ1 in
      ka ← cache_toString a σ2;
      ma ← toMomento a σ2;
      let σ3 := set_momentos (Map_set ka ma (momentos σ2)) σ2 in
      kb ← cache_toString b σ3;
      mb ← toMomento b σ3;
      Some (set_momentos (Map_set kb mb (momentos σ3)) σ3)
  end.

(** [mapService.addCache(cache)], as far as the state goes: the cache is
    on the map.  Its popup offers the two actions below. *)
Definition addCache (cache : nat) (σ : State) : State :=
  set_markers (markers σ ++ [cache]) σ.

(** The button [collect] of coin number [k] in the popup of a cache. *)
Definition collect (cache : nat) (k : nat) (σ : State) : option State :=
  c ← cache_objs σ !! cache;
  match Cache.coins c !! k with
  | Some coin => transfer cache inventory coin σ
  | None => Some σ
  end.

(** The button [deposit] in the popup of a cache. *)
Definition deposit (cache : nat) (σ : State) : option State :=
  inv ← cache_objs σ !! inventory;
  match last (Cache.coins inv) with
  | Some coin => transfer inventory cache coin σ
  | None => Some σ
  end.

(** The callback of [cells.forEach] in [showNearbyCaches]. *)
Definition showCache (cell : nat) (σ : State) : option State :=
  c ← cell_objs (board σ) !! cell;
  let key := Array_toString (Cell.i c) (Cell.j c) in
  let chance := luck key in
  if ltb chance CACHE_SPAWN_PROBABILITY then
    if negb (Map_has key (momentos σ)) then
      n ← floor (mul chance (of_Z 30));
      let '(cache, σ1) := createCache (Cell.i c) (Cell.j c) (n + 1) σ in
      Some (addCache cache σ1)
    else
      momento ← Map_get key (momentos σ);
      let '(cache, σ1) := createCache (Cell.i c) (Cell.j c) 0 σ in
      σ2 ← fromMomento cache momento σ1;
      Some (addCache cache σ2)
  else Some σ.

Definition showNearbyCaches (coord : latlng) (σ : State) : option State :=
  '(cells, b) ← getCellsNearPoint coord (board σ);
  forEach showCache cells (set_board b σ).

Definition updateLocationHistory (σ : State) : option State :=
  match last (locHistory σ) with
  | None => Some (set_locHistory (locHistory σ ++ [[origin σ]]) σ)
  | Some lastPos =>
      p ← last lastPos;
      if ltb (calculateDistance (origin σ) p) HISTORY_UPDATE_DISTANCE
      then Some (set_locHistory
                   (<[pred (length (locHistory σ)) := lastPos ++ [origin σ]]> (locHistory σ)) σ)
      else Some (set_locHistory (locHistory σ ++ [[origin σ]]) σ)
  end.

Definition refreshMap (σ : State) : option State :=
  σ1 ← showNearbyCaches (origin σ) (set_markers [] σ);
  updateLocationHistory σ1.

Definition saveData (σ : State) : State :=
  let data :=
    JSON_stringify (JArr (map (λ kv, JArr [JStr (fst kv); JStr (snd kv)]) (momentos σ))) in
  let loc :=
    JSON_stringify (JArr [number_to_json (lat (origin σ)); number_to_json (lng (origin σ))]) in
  let hist :=
    JSON_stringify (JArr (map (λ line, JArr (map latlng_to_json line)) (locHistory σ))) in
  set_localStorage
    (<["hist" := hist]> (<["loc" := loc]> (<["data" := data]> (localStorage σ)))) σ.

(** An entry [[key, value]] of the stored table. *)
Definition entry_of_json (v : json) : option (string * string) :=
  match v with
  | JArr (k :: v :: _) => k ← json_string k; v ← json_string v; Some (k, v)
  | _ => None
  end.

(** [localStorage.getItem(key)] when it is truthy. *)
Definition getItem_truthy (key : string) (σ : State) : option string :=
  match localStorage σ !! key with
  | Some s => if truthy s then Some s else None
  | None => None
  end.

(** [None] where [loadData] throws or reads a value of another type than
    the one it expects. *)
Definition loadData (σ : State) : option State :=
  match getItem_truthy "data" σ with
  | None => Some σ
  | Some data_string =>
      data ← JSON_parse data_string;
      data_array ← json_array data ≫= mapM entry_of_json;
      let σ1 :=
        set_momentos
          (foldl (λ m kv, Map_set (fst kv) (snd kv) m) (momentos σ) data_array) σ in
      σ2 ← match Map_get "inventory" (momentos σ1) with
           | Some inv => if truthy inv then fromMomento inventory inv σ1 else Some σ1
           | None => Some σ1
           end;
      σ3 ← match getItem_truthy "loc" σ2 with
           | Some loc_string =>
               loc ← JSON_parse loc_string;
               match loc with
               | JArr (a :: b :: _) =>
                   x ← number_of_json a; y ← number_of_json b;
                   Some (set_origin {| lat := x; lng := y |} σ2)
               | _ => None
               end
           | None => Some σ2
           end;
      match getItem_truthy "hist" σ3 with
      | Some hist_string =>
          temp ← JSON_parse hist_string;
          lines ← json_array temp ≫= mapM (λ l, json_array l ≫= mapM latlng_of_json);
          Some (set_locHistory (locHistory σ3 ++ lines) σ3)
      | None => Some σ3
      end
  end.

(** The state the module starts from, over the storage it finds. *)
Definition initial (storage : gmap string string) : State :=
  {| coin_objs := [];
     cache_objs := [{| Cache.cell := {| Cell.i := 0; Cell.j := 0 |};
                       Cache.coins := [];
                       Cache.toString := "inventory" |}];
     momentos := [];
     locHistory := [];
     origin := OAKES_CLASSROOM;
     board := createBoard;
     markers := [];
     localStorage := storage |}.

(** The module from top to bottom: load, then show the map. *)
Definition main (storage : gmap string string) : option State :=
  loadData (initial storage) ≫= refreshMap.

End Game.

(** ** States to try the program on *)

(** No number of these states needs a decimal text. *)
Definition sample_real_toString (x : number) : string := "0".

(** The first session after the cache of cell (0, 0) is shown with two
    coins: the inventory is cache 0, the cache of the cell is cache 1. *)
Definition sample_shown : State :=
  addCache 1%nat (createCache 0 0 2 (initial ∅)).2.

(** The same after the coin of serial 0 went to the inventory. *)
Definition sample_collected : State :=
  set_coins inventory [0%nat] (set_coins 1%nat [1%nat] sample_shown).

(** A [luck] that is 0.05 on every key, and a first session whose board
    knows the cell (0, 0). *)
Definition sample_luck (key : string) : number := decimal 5 (-2).

Definition sample_start : State :=
  set_board (getCell 0 0 createBoard).2 (initial ∅).

(** A trail of one polyline of one point, the player at that point. *)
Definition sample_trail : State :=
  set_locHistory [[OAKES_CLASSROOM]] (initial ∅).

(** A distance that is the threshold, whatever the points. *)
Definition sample_distance_20 (a b : latlng) : number := of_Z 20.

(** A storage that holds a position and a trail and no table. *)
Definition sample_point : latlng := {| lat := of_Z 10; lng := of_Z 20 |}.

Definition sample_storage : gmap string string :=
  <["hist" := JSON.stringify sample_real_toString
                (JArr [JArr [latlng_to_json sample_point]])]>
    (<["loc" := "[10,20]"]> ∅).

(** ** Notions the properties are stated with *)

(** The cell [getCellFromPoint] returns, read from the board it leaves. *)
Definition cellFromPoint (point : latlng) (b : Board) : option Cell.t :=
  '(c, b1) ← getCellFromPoint point b; cell_objs b1 !! c.

(** What may follow a value inside a text: nothing, a comma, or the end of
    an array or of an object. *)
Definition ends_value (s : string) : bool :=
  match s with
  | EmptyString => true
  | String c _ => Ascii.eqb c "," || Ascii.eqb c "]" || Ascii.eqb c "}"
  end.

(** The text of a member of an object. *)
Definition member_text (real_toString : number → string) (kv : string * json) : string :=
  JSON.quote (fst kv) +:+ ":" +:+ JSON.stringify real_toString (snd kv).

Definition cell00 : Cell.t := {| Cell.i := 0; Cell.j := 0 |}.
Definition coin00 (k : Z) : Coin.t := {| Coin.cell := cell00; Coin.serial := k |}.

Global Instance Cell_eq_dec : EqDecision Cell.t.
Proof. solve_decision. Defined.

(** [σ'] is [σ] with more coins and more caches, the new caches on the
    map, each on a cell that satisfies [P]. *)
Definition extends (P : Cell.t → Prop) (σ σ' : State) : Prop :=
  ∃ new_coins new_caches,
    coin_objs σ' = coin_objs σ ++ new_coins ∧
    cache_objs σ' = cache_objs σ ++ new_caches ∧
    Forall (λ c, P (Cache.cell c)) new_caches ∧
    markers σ' = markers σ ++ seq (length (cache_objs σ)) (length new_caches) ∧
    momentos σ' = momentos σ ∧ board σ' = board σ ∧
    locHistory σ' = locHistory σ ∧ origin σ' = origin σ ∧
    localStorage σ' = localStorage σ.

(** A cell of the board that has no memento and is not the cell (0, 0). *)
Definition other_cell (b : Board) (m : list (string * string)) (cell : nat) : bool :=
  match cell_objs b !! cell with
  | Some c =>
      negb (Map_has (Array_toString (Cell.i c) (Cell.j c)) m)
      && negb (bool_decide (c = cell00))
  | None => false
  end.

(** [σ'] is [σ] after [showCache] put the cache of cell (0, 0) on the map,
    with new coins [cs]. *)
Definition shown00 (σ σ' : State) (cs : list Coin.t) : Prop :=
  coin_objs σ' = coin_objs σ ++ cs ∧
  cache_objs σ' = cache_objs σ ++
    [{| Cache.cell := cell00;
        Cache.coins := seq (length (coin_objs σ)) (length cs);
        Cache.toString := "0,0" |}] ∧
  markers σ' = markers σ ++ [length (cache_objs σ)] ∧
  momentos σ' = momentos σ ∧ board σ' = board σ ∧
  locHistory σ' = locHistory σ ∧ origin σ' = origin σ ∧
  localStorage σ' = localStorage σ.

(** The player at latitude 0 and longitude 0, and a storage that puts a
    session there. *)
Definition zero_point : latlng := {| lat := of_Z 0; lng := of_Z 0 |}.

Definition first_storage : gmap string string :=
  <["loc" := "[0,0]"]> (<["data" := "[]"]> ∅).

(** The board once it gave the cells around that point. *)
Definition near_board : Board :=
  default createBoard (snd <$> getCellsNearPoint zero_point createBoard).

(** The inventory with the coins [refs]. *)
Definition inventory_obj (refs : list nat) : Cache.t :=
  {| Cache.cell := cell00; Cache.coins := refs; Cache.toString := "inventory" |}.

(** The cache of cell (0, 0) with the coins [refs]. *)
Definition cache00 (refs : list nat) : Cache.t :=
  {| Cache.cell := cell00; Cache.coins := refs; Cache.toString := "0,0" |}.

(** The memento of a collection of coins. *)
Definition momento_of (cs : list Coin.t) : string :=
  JSON.stringify sample_real_toString (JArr (map coin_to_json cs)).

(** What the first session stores once the coin of serial 0 of the cache
    of cell (0, 0) is in the inventory: the table holds the cache with the
    coin of serial 1 and the inventory with the coin of serial 0. *)
Definition second_momentos : list (string * string) :=
  Map_set "inventory" (momento_of [coin00 0])
    (Map_set "0,0" (momento_of [coin00 1]) []).

Definition second_storage : gmap string string :=
  localStorage
    (saveData sample_real_toString
       (set_momentos second_momentos
          (set_locHistory [[zero_point]]
             (set_origin zero_point (initial first_storage))))).

(** The second session once [loadData] has run. *)
Definition second_loaded : State :=
  default (initial second_storage) (loadData (initial second_storage)).

(** A text with no comma. *)
Fixpoint comma_free (s : string) : bool :=
  match s with
  | EmptyString => true
  | String c r => negb (Ascii.eqb c ",") && comma_free r
  end.

(** The cells a board knows are allocated, each under the key of its own
    coordinates; width and radius are those of [createBoard]. *)
Definition board_ok (b : Board) : Prop :=
  tile_width b = TILE_DEGREES ∧ tile_visible_radius b = NEIGHBORHOOD_SIZE ∧
  ∀ k c, known_cells b !! k = Some c →
    ∃ cell, cell_objs b !! c = Some cell ∧
            k = Array_toString (Cell.i cell) (Cell.j cell).

(** The cell of a pair of coordinates. *)
Definition cell_at (ij : Z * Z) : Cell.t := {| Cell.i := ij.1; Cell.j := ij.2 |}.

(** The key of a cell, [[i, j].toString()]. *)
Definition cell_key (c : Cell.t) : string := Array_toString (Cell.i c) (Cell.j c).

(** The coins a memento holds, as [fromMomento] reads them. *)
Definition momento_coins (m : string) : option (list Coin.t) :=
  v ← JSON.parse m; vs ← json_array v; mapM coin_of_json vs.

(** The coins the loop of [createCache] makes. *)
Definition new_coins (c : Cell.t) (num_coins : Z) : list Coin.t :=
  map (λ k, {| Coin.cell := c; Coin.serial := k |}) (range 0 num_coins).

(** A cell whose luck is below the spawn probability. *)
Definition lucky (luck : string → number) (c : Cell.t) : bool :=
  ltb (luck (cell_key c)) CACHE_SPAWN_PROBABILITY.

(** The coins the cache of a cell is shown with: those of the memento of
    the cell when the table has one, [floor(luck * 30) + 1] new ones
    otherwise. *)
Definition shown_coins (luck : string → number) (m : list (string * string))
    (c : Cell.t) : option (list Coin.t) :=
  match Map_get (cell_key c) m with
  | Some momento => momento_coins momento
  | None =>
      n ← floor (mul (luck (cell_key c)) (of_Z 30)); Some (new_coins c (n + 1))
  end.

(** The state with one more cache on the map: a new cache object of the
    cell [c] that holds new coin objects [cs]. *)
Definition with_cache (c : Cell.t) (cs : list Coin.t) (σ : State) : State :=
  set_markers (markers σ ++ [length (cache_objs σ)])
    (set_cache_objs
       (cache_objs σ ++
          [{| Cache.cell := c;
              Cache.coins := seq (length (coin_objs σ)) (length cs);
              Cache.toString := cell_key c |}])
       (set_coin_objs (coin_objs σ ++ cs) σ)).

Definition with_caches (l : list (Cell.t * list Coin.t)) (σ : State) : State :=
  foldl (λ σ p, with_cache p.1 p.2 σ) σ l.

(** The cells around the cell [(i0, j0)], in the order in which the two
    loops of [getCellsNearPoint] push them. *)
Definition near_cells (i0 j0 : Z) : list Cell.t :=
  map (λ '(di, dj), cell_at (di + i0, dj + j0)) (offsets NEIGHBORHOOD_SIZE).

(** The caches the map shows for a list of cells: one for each lucky cell,
    with the coins [shown_coins] gives it. *)
Definition shown_caches (luck : string → number) (m : list (string * string))
    (cells : list Cell.t) : option (list (Cell.t * list Coin.t)) :=
  mapM (λ c, coins ← shown_coins luck m c; Some (c, coins))
    (List.filter (lucky luck) cells).

(** A trail with no empty polyline. *)
Definition trail_ok (h : list (list latlng)) : Prop := Forall (λ line, line ≠ []) h.

(** ** A session

    The events the page handles once it is loaded: a click on the button
    [collect] of coin number [k], or on the button [deposit], in the popup
    of a cache that is on the map, and [player-moved], which the movement
    buttons and the geolocation dispatch after they have set [origin]. *)
Inductive event :=
| collect_click (cache k : nat)
| deposit_click (cache : nat)
| player_moved (p : latlng).

Definition handle (luck : string → number)
    (calculateDistance : latlng → latlng → number)
    (real_toString : number → string) (e : event) (σ : State) : option State :=
  match e with
  | collect_click cache k =>
      if decide (cache ∈ markers σ) then collect real_toString cache k σ else Some σ
  | deposit_click cache =>
      if decide (cache ∈ markers σ) then deposit real_toString cache σ else Some σ
  | player_moved p => refreshMap luck calculateDistance (set_origin p σ)
  end.

(** A position whose two quotients by the tile width are finite: the
    positions [getCellFromPoint] is modelled on. *)
Definition on_board (p : latlng) : bool :=
  is_finite (div (lat p) TILE_DEGREES) && is_finite (div (lng p) TILE_DEGREES).

Definition possible (e : event) : Prop :=
  match e with
  | player_moved p => on_board p = true
  | _ => True
  end.

(** Every cache holds coin objects that exist. *)
Definition heap_ok (σ : State) : Prop :=
  ∀ a cache, cache_objs σ !! a = Some cache → allocated σ (Cache.coins cache).

(** Every memento of the table reads as a collection of coins. *)
Definition table_ok (m : list (string * string)) : Prop :=
  Forall (λ kv, is_Some (momento_coins kv.2)) m.

(** The inventory holds the coins of its memento, none without one. *)
Definition inventory_ok (σ : State) : Prop :=
  ∃ inv,
    cache_objs σ !! inventory = Some inv ∧ Cache.toString inv = "inventory" ∧
    is_Some (coins_of inventory σ) ∧
    coins_of inventory σ
    = match Map_get "inventory" (momentos σ) with
      | Some momento => momento_coins momento
      | None => Some []
      end.

Definition stored_ok (σ : State) : Prop :=
  board_ok (board σ) ∧ heap_ok σ ∧ trail_ok (locHistory σ) ∧
  table_ok (momentos σ) ∧ inventory_ok σ.

(** The caches on the map are those of the lucky cells around the player,
    in order, each under the key of its cell and with the coins that
    showing its cell gives. *)
Definition map_ok (luck : string → number) (σ : State) : Prop :=
  (∃ i0 j0,
     floor (div (lat (origin σ)) TILE_DEGREES) = Some i0 ∧
     floor (div (lng (origin σ)) TILE_DEGREES) = Some j0 ∧
     mapM (λ m, Cache.cell <$> cache_objs σ !! m) (markers σ)
     = Some (List.filter (lucky luck) (near_cells i0 j0))) ∧
  ∀ m, m ∈ markers σ →
    m ≠ inventory ∧
    ∃ cache,
      cache_objs σ !! m = Some cache ∧
      Cache.toString cache = cell_key (Cache.cell cache) ∧
      is_Some (coins_of m σ) ∧
      coins_of m σ = shown_coins luck (momentos σ) (Cache.cell cache).

(** The collections of a session, as the program builds them: a cache
    holds coin objects that exist, each once, and no coin object is in two
    caches; the inventory is there under the key [inventory], every other
    cache is under the key of its cell, and the inventory is not on the
    map. *)
Definition collections_ok (σ : State) : Prop :=
  (∀ a cache, cache_objs σ !! a = Some cache →
     allocated σ (Cache.coins cache) ∧ NoDup (Cache.coins cache)) ∧
  (∀ a b ca cb, a ≠ b →
     cache_objs σ !! a = Some ca → cache_objs σ !! b = Some cb →
     ∀ r, r ∈ Cache.coins ca → r ∉ Cache.coins cb) ∧
  (∃ inv, cache_objs σ !! inventory = Some inv ∧ Cache.toString inv = "inventory") ∧
  (∀ a cache, a ≠ inventory → cache_objs σ !! a = Some cache →
     Cache.toString cache = cell_key (Cache.cell cache)) ∧
  inventory ∉ markers σ.

(** A distance that is the threshold between two positions that differ,
    and 0 from a position to itself. *)
Definition sample_distance_apart (a b : latlng) : number :=
  if SFeqb (lat a) (lat b) && SFeqb (lng a) (lng b) then of_Z 0 else of_Z 20.

(** The player at another position than the one the trail ends with. *)
Definition sample_walk : State := set_origin sample_point sample_trail.

(** A session that has a memento for the cell (0, 0): the coin of serial 1
    alone. *)
Definition sample_kept : State :=
  set_momentos [("0,0", momento_of [coin00 1])] sample_start.

(** Clicks and a move, to try a session on. *)
Definition sample_events : list event :=
  [collect_click 1 0; player_moved sample_point; deposit_click 257;
   collect_click 300 5].

(** [v'] is what [JSON.parse] reads where the text of [v] stands, at the
    end of a text or before a comma or a closing bracket. *)
Definition reads_as (real_toString : number → string) (v v' : json) : Prop :=
  ∀ fuel rest, (JSON.depth v ≤ fuel)%nat → ends_value rest = true →
    JSON.parse_value fuel (JSON.stringify real_toString v +:+ rest) = Some (v', rest).

(** A number that [JSON.parse] reads back from its own text. *)
Definition number_survives (real_toString : number → string) (x : number) : Prop :=
  JSON.parse (JSON.stringify real_toString (number_to_json x)) ≫= number_of_json
  = Some x.

Definition latlng_survives (real_toString : number → string) (p : latlng) : Prop :=
  number_survives real_toString (lat p) ∧ number_survives real_toString (lng p).

(** A text for the two coordinates of [OAKES_CLASSROOM], as JavaScript
    writes them. *)
Definition sample_number_text (x : number) : string :=
  if SFeqb x (lat OAKES_CLASSROOM) then "36.98949379578401" else "-122.06277128548504".




(** * Properties *)

(** ** Numbers *)

Lemma floor_spec (x : number) (n : Z) :
  floor x = Some n → (inject_Z n <= to_Q x)%Q ∧ (to_Q x < inject_Z (n + 1))%Q.
Proof.
  destruct x as [s| | |s m e]; simpl; try discriminate.
  - intros [= <-]. split; [apply Qle_refl | reflexivity].
  - intros [= <-]. destruct (Z.leb_spec 0 e) as [He|He].
    + rewrite Z.shiftl_mul_pow2 by done.
      split; [apply Qle_refl|]. rewrite <- Zlt_Qlt. lia.
    + rewrite Z.shiftl_div_pow2 by lia.
      assert (Hp : 0 < 2 ^ (- e)) by (apply Z.pow_pos_nonneg; lia).
      unfold Qle, Qlt; simpl. rewrite !Z2Pos.id by done.
      generalize dependent (2 ^ (- e)). generalize (mantissa s m).
      intros a d Hd.
      pose proof (Z.div_mod a d ltac:(lia)).
      pose proof (Z.mod_pos_bound a d Hd).
      nia.
Qed.

Lemma floor_integer (x : number) (n k : Z) :
  floor x = Some n → (to_Q x == inject_Z k)%Q → n = k.
Proof.
  intros Hf Hk. apply floor_spec in Hf as [H1 H2].
  rewrite Hk in H1, H2. rewrite <- Zle_Qle in H1. rewrite <- Zlt_Qlt in H2. lia.
Qed.

Lemma floor_finite (x : number) : is_finite x = true → is_Some (floor x).
Proof. destruct x; simpl; eauto; discriminate. Qed.

(** ** The board *)

Lemma getCell_known (i j : Z) (b : Board) (k : string) (c : nat) :
  known_cells b !! k = Some c → known_cells (getCell i j b).2 !! k = Some c.
Proof.
  intros Hk. unfold getCell.
  destruct (known_cells b !! Array_toString i j) eqn:Hi; simpl; [done|].
  rewrite lookup_insert_ne; [done | congruence].
Qed.

Lemma getCell_returns_known (i j : Z) (b : Board) :
  known_cells (getCell i j b).2 !! Array_toString i j = Some (getCell i j b).1.
Proof.
  unfold getCell.
  destruct (known_cells b !! Array_toString i j) eqn:Hi; simpl; [done|].
  apply lookup_insert_eq.
Qed.

Lemma getCell_of_known (i j : Z) (b : Board) (c : nat) :
  known_cells b !! Array_toString i j = Some c → getCell i j b = (c, b).
Proof. intros Hk. unfold getCell. by rewrite Hk. Qed.

Lemma getCells_known (calls : list (Z * Z)) (b : Board) (k : string) (c : nat) :
  known_cells b !! k = Some c → known_cells (getCells calls b).2 !! k = Some c.
Proof.
  revert b. induction calls as [|[i j] calls IH]; intros b Hk; simpl; [done|].
  pose proof (getCell_known i j b k c Hk) as H1.
  destruct (getCell i j b) as [c1 b1]. simpl in H1.
  specialize (IH b1 H1). destruct (getCells calls b1) as [cs b2]. done.
Qed.

Lemma getCellFromPoint_eq (point : latlng) (b : Board) (i j : Z) :
  floor (div (lat point) (tile_width b)) = Some i →
  floor (div (lng point) (tile_width b)) = Some j →
  getCellFromPoint point b = Some (getCell i j b).
Proof. intros Hi Hj. unfold getCellFromPoint. rewrite Hi, Hj. done. Qed.


(** C7, as the code has it: each index is the floor, toward minus infinity,
    of the binary64 quotient of the coordinate by the tile width, and a
    quotient that is an integer is its own index.  Latitude -0.00005 over
    the tile width 1e-4 is the quotient -1/2, so the point is in the cells
    of index -1; the corners of the tiles (0, 0), (1, 1) and (-1, -1) are in
    their tiles. *)
Theorem getCellFromPoint_floor (point : latlng) (b : Board) :
  let qi := div (lat point) (tile_width b) in
  let qj := div (lng point) (tile_width b) in
  is_finite qi = true → is_finite qj = true →
  (∃ i j,
     getCellFromPoint point b = Some (getCell i j b) ∧
     ((inject_Z i <= to_Q qi)%Q ∧ (to_Q qi < inject_Z (i + 1))%Q) ∧
     ((inject_Z j <= to_Q qj)%Q ∧ (to_Q qj < inject_Z (j + 1))%Q) ∧
     (∀ k, (to_Q qi == inject_Z k)%Q → i = k) ∧
     (∀ k, (to_Q qj == inject_Z k)%Q → j = k)) ∧
  (to_Q (div (decimal (-5) (-5)) TILE_DEGREES) == -1 # 2)%Q ∧
  cellFromPoint {| lat := decimal (-5) (-5); lng := of_Z 0 |} createBoard
    = Some {| Cell.i := -1; Cell.j := 0 |} ∧
  cellFromPoint (marker_position {| Cell.i := 0; Cell.j := 0 |}) createBoard
    = Some {| Cell.i := 0; Cell.j := 0 |} ∧
  cellFromPoint (marker_position {| Cell.i := 1; Cell.j := 1 |}) createBoard
    = Some {| Cell.i := 1; Cell.j := 1 |} ∧
  cellFromPoint (marker_position {| Cell.i := -1; Cell.j := -1 |}) createBoard
    = Some {| Cell.i := -1; Cell.j := -1 |}.
Proof.
  intros qi qj Hi Hj. split.
  - destruct (floor_finite _ Hi) as [i Hfi], (floor_finite _ Hj) as [j Hfj].
    exists i, j. split; [by apply getCellFromPoint_eq|].
    split; [by apply floor_spec|]. split; [by apply floor_spec|].
    split; intros k Hk; eapply floor_integer; eauto.
  - split; [reflexivity|]. repeat split; vm_compute; reflexivity.
Qed.

Lemma getCellFromPoint_floor_witness :
  ∃ i j,
    getCellFromPoint {| lat := decimal (-5) (-5); lng := of_Z 0 |} createBoard
      = Some (getCell i j createBoard) ∧ j = 0.
Proof.
  destruct (getCellFromPoint_floor
              {| lat := decimal (-5) (-5); lng := of_Z 0 |} createBoard
              eq_refl eq_refl) as [(i & j & Heq & _ & _ & _ & Hj) _].
  exists i, j. split; [exact Heq|]. apply Hj. reflexivity.
Defined.

(** C7, where the claim fails: the corner of tile 49, [49 * TILE_DEGREES]
    (the number 0.0049), divided by the tile width gives a quotient just
    below 49, so the point on the lower bound of tile 49 is put in tile 48. *)
Lemma getCellFromPoint_corner_49 :
  lat (marker_position {| Cell.i := 49; Cell.j := 0 |}) = decimal 49 (-4) ∧
  cellFromPoint (marker_position {| Cell.i := 49; Cell.j := 0 |}) createBoard
    = Some {| Cell.i := 48; Cell.j := 0 |} ∧
  {| Cell.i := 48; Cell.j := 0 |} ≠ {| Cell.i := 49; Cell.j := 0 |}.
Proof. repeat split; try (vm_compute; reflexivity). discriminate. Qed.

(** ** Arrays and maps *)

Lemma indexOf_None (x : nat) (l : list nat) : indexOf x l = None ↔ x ∉ l.
Proof.
  induction l as [|y l IH]; simpl.
  - split; [intros _; apply not_elem_of_nil | done].
  - rewrite not_elem_of_cons. destruct (decide (x = y)) as [->|Hne].
    + split; [discriminate | intros [? _]; done].
    + destruct (indexOf x l); simpl.
      * split; [discriminate|]. intros [_ Hl]. by apply IH in Hl.
      * split; [|done]. intros _. split; [done|]. by apply IH.
Qed.

Lemma indexOf_Some (x : nat) (l : list nat) (k : nat) :
  indexOf x l = Some k → l !! k = Some x.
Proof.
  revert k. induction l as [|y l IH]; intros k; simpl; [discriminate|].
  destruct (decide (x = y)) as [->|Hne].
  - by intros [= <-].
  - destruct (indexOf x l) as [k'|]; simpl; [|discriminate].
    intros [= <-]. simpl. by apply IH.
Qed.

Lemma indexOf_elem_of (x : nat) (l : list nat) :
  x ∈ l → ∃ k, indexOf x l = Some k.
Proof.
  intros Hx. destruct (indexOf x l) as [k|] eqn:Hk; [eauto|].
  by apply indexOf_None in Hk.
Qed.

Lemma Map_get_set_eq (k v : string) (m : list (string * string)) :
  Map_get k (Map_set k v m) = Some v.
Proof.
  induction m as [|[k' v'] m IH]; simpl.
  - by rewrite decide_True.
  - destruct (decide (k = k')) as [->|Hne]; simpl.
    + by rewrite decide_True.
    + by rewrite decide_False.
Qed.

Lemma Map_get_set_ne (k k' v : string) (m : list (string * string)) :
  k ≠ k' → Map_get k' (Map_set k v m) = Map_get k' m.
Proof.
  intros Hne. induction m as [|[k1 v1] m IH]; simpl.
  - by rewrite decide_False.
  - destruct (decide (k = k1)) as [->|Hne1]; simpl.
    + by rewrite !decide_False.
    + destruct (decide (k' = k1)); done.
Qed.

(** ** Transfers *)

Section Transfer.
Variable real_toString : number → string.

Lemma lookup_set_coins_eq (a : nat) (cs : list nat) (σ : State) :
  cache_objs (set_coins a cs σ) !! a = with_coins cs <$> cache_objs σ !! a.
Proof. unfold set_coins; simpl. apply list_lookup_alter_eq. Qed.

Lemma lookup_set_coins_ne (a c : nat) (cs : list nat) (σ : State) :
  a ≠ c → cache_objs (set_coins a cs σ) !! c = cache_objs σ !! c.
Proof. intros Hne. unfold set_coins; simpl. by apply list_lookup_alter_ne. Qed.

Lemma coins_of_Some (a : nat) (c : Cache.t) (σ : State) :
  cache_objs σ !! a = Some c → allocated σ (Cache.coins c) →
  ∃ cs, coins_of a σ = Some cs.
Proof.
  intros Ha Hall. unfold coins_of. rewrite Ha; simpl.
  apply mapM_is_Some. exact Hall.
Qed.

Lemma toMomento_Some (a : nat) (c : Cache.t) (σ : State) :
  cache_objs σ !! a = Some c → allocated σ (Cache.coins c) →
  ∃ m, toMomento real_toString a σ = Some m.
Proof.
  intros Ha Hall. destruct (coins_of_Some a c σ Ha Hall) as [cs Hcs].
  unfold toMomento. rewrite Hcs. simpl. eauto.
Qed.

(** The memento of a cache is read from the two heaps alone. *)
Lemma toMomento_ext (a : nat) (σ σ' : State) :
  cache_objs σ' = cache_objs σ → coin_objs σ' = coin_objs σ →
  toMomento real_toString a σ' = toMomento real_toString a σ.
Proof. intros H1 H2. unfold toMomento, coins_of. by rewrite H1, H2. Qed.

(** What a transfer of a coin that is in [a] does, for two caches [a] and
    [b] that are not the same object. *)
Lemma transfer_present (σ : State) (a b coin index : nat) (ca cb : Cache.t) :
  a ≠ b →
  cache_objs σ !! a = Some ca → cache_objs σ !! b = Some cb →
  indexOf coin (Cache.coins ca) = Some index →
  allocated σ (Cache.coins ca) → allocated σ (Cache.coins cb) →
  ∃ σ' ma mb,
    transfer real_toString a b coin σ = Some σ' ∧
    cache_objs σ' !! a = Some (with_coins (delete index (Cache.coins ca)) ca) ∧
    cache_objs σ' !! b = Some (with_coins (Cache.coins cb ++ [coin]) cb) ∧
    (∀ c, c ≠ a → c ≠ b → cache_objs σ' !! c = cache_objs σ !! c) ∧
    coin_objs σ' = coin_objs σ ∧
    toMomento real_toString a σ' = Some ma ∧
    toMomento real_toString b σ' = Some mb ∧
    momentos σ' =
      Map_set (Cache.toString cb) mb (Map_set (Cache.toString ca) ma (momentos σ)) ∧
    locHistory σ' = locHistory σ ∧ origin σ' = origin σ ∧ board σ' = board σ ∧
    markers σ' = markers σ ∧ localStorage σ' = localStorage σ.
Proof.
  intros Hab Ha Hb Hidx Halla Hallb.
  pose proof (indexOf_Some _ _ _ Hidx) as Hlook.
  set (σ1 := set_coins a (delete index (Cache.coins ca)) σ).
  set (σ2 := set_coins b (Cache.coins cb ++ [coin]) σ1).
  assert (H1b : cache_objs σ1 !! b = Some cb).
  { unfold σ1. by rewrite lookup_set_coins_ne. }
  assert (H2a : cache_objs σ2 !! a = Some (with_coins (delete index (Cache.coins ca)) ca)).
  { unfold σ2. rewrite lookup_set_coins_ne by done.
    unfold σ1. by rewrite lookup_set_coins_eq, Ha. }
  assert (H2b : cache_objs σ2 !! b = Some (with_coins (Cache.coins cb ++ [coin]) cb)).
  { unfold σ2. by rewrite lookup_set_coins_eq, H1b. }
  assert (Hcoin : is_Some (coin_objs σ !! coin)).
  { eapply (proj1 (Forall_forall _ _) Halla). eapply list_elem_of_lookup_2. exact Hlook. }
  assert (Hothers : ∀ c, c ≠ a → c ≠ b → cache_objs σ2 !! c = cache_objs σ !! c).
  { intros c Hca Hcb. unfold σ2. rewrite lookup_set_coins_ne by done.
    unfold σ1. by rewrite lookup_set_coins_ne. }
  assert (Hheap : coin_objs σ2 = coin_objs σ) by done.
  assert (Hmom : momentos σ2 = momentos σ) by done.
  destruct (toMomento_Some a _ σ2 H2a) as [ma Hma].
  { simpl. by apply Forall_delete. }
  destruct (toMomento_Some b _ σ2 H2b) as [mb Hmb].
  { simpl. apply Forall_app. split; [exact Hallb|]. by apply Forall_singleton. }
  exists (set_momentos
            (Map_set (Cache.toString cb) mb
               (Map_set (Cache.toString ca) ma (momentos σ))) σ2), ma, mb.
  split.
  { unfold transfer. rewrite Ha. cbn [mbind option_bind]. rewrite Hidx.
    cbv zeta. fold σ1. rewrite H1b. cbn [mbind option_bind]. fold σ2.
    clearbody σ2. clear σ1 H1b.
    unfold cache_toString. rewrite H2a.
    cbn [mbind option_bind fmap option_fmap option_map]. rewrite Hma.
    cbn [mbind option_bind fmap option_fmap option_map].
    change (cache_objs (set_momentos ?m σ2)) with (cache_objs σ2).
    rewrite H2b. cbn [mbind option_bind fmap option_fmap option_map].
    rewrite (toMomento_ext b σ2) by done. rewrite Hmb.
    cbn [mbind option_bind]. by rewrite Hmom. }
  split; [exact H2a|]. split; [exact H2b|]. split; [exact Hothers|].
  split; [exact Hheap|].
  split; [by rewrite (toMomento_ext a σ2)|].
  split; [by rewrite (toMomento_ext b σ2)|].
  split; [by rewrite <- Hmom|]. done.
Qed.

Lemma transfer_not_found (σ : State) (a b coin : nat) (ca : Cache.t) :
  cache_objs σ !! a = Some ca → indexOf coin (Cache.coins ca) = None →
  transfer real_toString a b coin σ = Some σ.
Proof. intros Ha Hnot. unfold transfer. rewrite Ha; simpl. by rewrite Hnot. Qed.

(** C4: a transfer of a coin that is not in [a] returns and changes nothing
    at all: neither cache, nor the table of mementos, nor anything else. *)
Theorem transfer_absent (σ : State) (a b coin : nat) (ca : Cache.t) :
  cache_objs σ !! a = Some ca → coin ∉ Cache.coins ca →
  transfer real_toString a b coin σ = Some σ.
Proof.
  intros Ha Hnot. apply indexOf_None in Hnot.
  by apply transfer_not_found with ca.
Qed.

(** C10: a transfer between two caches neither makes nor loses a coin: the
    coins of [a] and [b] together are the same before and after, the other
    caches keep theirs, and the coin objects are untouched, so the coin that
    moved is the same object with the same cell and serial. *)
Theorem transfer_conserves (σ : State) (a b coin : nat) (ca cb : Cache.t) :
  a ≠ b →
  cache_objs σ !! a = Some ca → cache_objs σ !! b = Some cb →
  allocated σ (Cache.coins ca) → allocated σ (Cache.coins cb) →
  ∃ σ' ca' cb',
    transfer real_toString a b coin σ = Some σ' ∧
    cache_objs σ' !! a = Some ca' ∧ cache_objs σ' !! b = Some cb' ∧
    Cache.coins ca' ++ Cache.coins cb' ≡ₚ Cache.coins ca ++ Cache.coins cb ∧
    (∀ c, c ≠ a → c ≠ b → cache_objs σ' !! c = cache_objs σ !! c) ∧
    coin_objs σ' = coin_objs σ ∧
    (coin ∈ Cache.coins ca →
       coin ∈ Cache.coins cb' ∧ coin_objs σ' !! coin = coin_objs σ !! coin).
Proof.
  intros Hab Ha Hb Halla Hallb.
  destruct (indexOf coin (Cache.coins ca)) as [index|] eqn:Hidx.
  - destruct (transfer_present σ a b coin index ca cb Hab Ha Hb Hidx Halla Hallb)
      as (σ' & ma & mb & Ht & Ha' & Hb' & Hothers & Hheap & _).
    exists σ', (with_coins (delete index (Cache.coins ca)) ca),
      (with_coins (Cache.coins cb ++ [coin]) cb).
    split; [exact Ht|]. split; [exact Ha'|]. split; [exact Hb'|]. split.
    { simpl. apply indexOf_Some in Hidx.
      rewrite (delete_Permutation _ _ _ Hidx) at 2.
      rewrite (Permutation_app_comm (Cache.coins cb) [coin]). simpl.
      by rewrite Permutation_middle. }
    split; [exact Hothers|]. split; [exact Hheap|].
    intros _. simpl. split; [set_solver | by rewrite Hheap].
  - pose proof Hidx as Hidx'. apply indexOf_None in Hidx.
    exists σ, ca, cb. rewrite (transfer_not_found σ a b coin ca Ha Hidx').
    repeat split; done.
Qed.

End Transfer.

Lemma transfer_absent_witness :
  transfer sample_real_toString 1%nat inventory 0%nat sample_collected
  = Some sample_collected.
Proof.
  apply (transfer_absent sample_real_toString sample_collected 1%nat inventory 0%nat
           {| Cache.cell := {| Cell.i := 0; Cell.j := 0 |};
              Cache.coins := [1%nat]; Cache.toString := "0,0" |}).
  - reflexivity.
  - vm_compute. intros H. apply list_elem_of_In in H. simpl in H. intuition lia.
Defined.

Lemma sample_shown_allocated (cs : list nat) :
  cs ⊆ [0%nat; 1%nat] → allocated sample_shown cs.
Proof.
  intros Hcs. apply Forall_forall. intros r Hr. apply Hcs in Hr.
  apply list_elem_of_In in Hr. simpl in Hr.
  destruct Hr as [<-|[<-|[]]]; eexists; reflexivity.
Qed.

Lemma transfer_conserves_witness :
  ∃ σ', transfer sample_real_toString 1%nat inventory 0%nat sample_shown = Some σ' ∧
        coin_objs σ' = coin_objs sample_shown.
Proof.
  destruct (transfer_conserves sample_real_toString sample_shown 1%nat inventory 0%nat
              {| Cache.cell := {| Cell.i := 0; Cell.j := 0 |};
                 Cache.coins := [0%nat; 1%nat]; Cache.toString := "0,0" |}
              {| Cache.cell := {| Cell.i := 0; Cell.j := 0 |};
                 Cache.coins := []; Cache.toString := "inventory" |})
    as (σ' & ca' & cb' & Ht & _ & _ & _ & _ & Hheap & _).
  - discriminate.
  - reflexivity.
  - reflexivity.
  - apply sample_shown_allocated. set_solver.
  - apply sample_shown_allocated. set_solver.
  - exists σ'. split; [exact Ht | exact Hheap].
Defined.

(** ** The trail *)

Section Trail.
Variable calculateDistance : latlng → latlng → number.

(** The two branches of [updateLocationHistory]: on an empty trail the
    position starts a first polyline of one point; otherwise it is appended
    to the last polyline when its distance from the last recorded position
    is below the threshold, and starts a new polyline in every other
    case. *)
Lemma updateLocationHistory_segments (σ : State) :
  (locHistory σ = [] →
     updateLocationHistory calculateDistance σ
     = Some (set_locHistory [[origin σ]] σ)) ∧
  (∀ lines lastPos p,
     locHistory σ = lines ++ [lastPos ++ [p]] →
     (ltb (calculateDistance (origin σ) p) HISTORY_UPDATE_DISTANCE = true →
        updateLocationHistory calculateDistance σ
        = Some (set_locHistory (lines ++ [lastPos ++ [p] ++ [origin σ]]) σ)) ∧
     (ltb (calculateDistance (origin σ) p) HISTORY_UPDATE_DISTANCE = false →
        updateLocationHistory calculateDistance σ
        = Some (set_locHistory (lines ++ [lastPos ++ [p]; [origin σ]]) σ))).
Proof.
  split.
  - intros Hnil. unfold updateLocationHistory. by rewrite Hnil.
  - intros lines lastPos p Hhist. unfold updateLocationHistory.
    rewrite Hhist, last_snoc. cbn [mbind option_bind]. rewrite last_snoc.
    cbn [mbind option_bind]. split; intros ->.
    + f_equal. f_equal. rewrite length_app; simpl.
      replace (pred (length lines + 1)) with (length lines + 0)%nat by lia.
      rewrite insert_app_r. simpl. by rewrite <- (assoc_L (++)).
    + f_equal. f_equal. by rewrite <- (assoc_L (++)).
Qed.

End Trail.

Section Threshold.
Variable calculateDistance : latlng → latlng → number.

(** C9, where the code departs from the comment above its test: at a
    distance that is the threshold itself, which does not exceed it,
    [updateLocationHistory] does not append the position to the last
    polyline: it starts a new one. *)
Theorem updateLocationHistory_at_threshold (σ : State)
    (lines : list (list latlng)) (lastPos : list latlng) (p : latlng) :
  locHistory σ = lines ++ [lastPos ++ [p]] →
  calculateDistance (origin σ) p = HISTORY_UPDATE_DISTANCE →
  SFltb HISTORY_UPDATE_DISTANCE (calculateDistance (origin σ) p) = false ∧
  updateLocationHistory calculateDistance σ
  = Some (set_locHistory (lines ++ [lastPos ++ [p]; [origin σ]]) σ).
Proof.
  intros Hhist Hd. rewrite Hd. split; [reflexivity|].
  unfold updateLocationHistory. rewrite Hhist, last_snoc.
  cbn [mbind option_bind]. rewrite last_snoc. cbn [mbind option_bind].
  rewrite Hd. change (ltb HISTORY_UPDATE_DISTANCE HISTORY_UPDATE_DISTANCE) with false.
  cbv iota. by rewrite <- (assoc_L (++)).
Qed.

End Threshold.

Lemma updateLocationHistory_at_threshold_witness :
  origin sample_walk = sample_point ∧
  locHistory sample_walk = [[OAKES_CLASSROOM]] ∧
  locHistory <$> updateLocationHistory sample_distance_apart sample_walk
  = Some [[OAKES_CLASSROOM]; [sample_point]].
Proof.
  destruct (updateLocationHistory_at_threshold sample_distance_apart sample_walk
              [] [] OAKES_CLASSROOM eq_refl eq_refl) as [_ Hnew].
  split; [reflexivity|]. split; [reflexivity|]. by rewrite Hnew.
Defined.

(** ** Loading a session *)

Lemma loadData_without_data (σ : State) :
  getItem_truthy "data" σ = None → loadData σ = Some σ.
Proof. intros Hdata. unfold loadData. by rewrite Hdata. Qed.

(** C6, on the failing input: the storage holds a position and a trail and
    no table.  [loadData] returns at once: the position stays the default
    one and the trail stays empty, although both are stored.  Once a table
    is stored too, even an empty one, the same position and trail are read
    back, and each of the two is read back without the other. *)
Theorem loadData_returns_early :
  sample_storage !! "data" = None ∧
  is_Some (sample_storage !! "loc") ∧ is_Some (sample_storage !! "hist") ∧
  loadData (initial sample_storage) = Some (initial sample_storage) ∧
  origin (initial sample_storage) = OAKES_CLASSROOM ∧
  locHistory (initial sample_storage) = [] ∧
  (let σ := loadData (initial (<["data" := "[]"]> sample_storage)) in
   origin <$> σ = Some sample_point ∧ locHistory <$> σ = Some [[sample_point]]) ∧
  (let σ := loadData (initial (delete "loc" (<["data" := "[]"]> sample_storage))) in
   origin <$> σ = Some OAKES_CLASSROOM ∧ locHistory <$> σ = Some [[sample_point]]) ∧
  (let σ := loadData (initial (delete "hist" (<["data" := "[]"]> sample_storage))) in
   origin <$> σ = Some sample_point ∧ locHistory <$> σ = Some []).
Proof. repeat split; vm_compute; eauto. Qed.

(** ** JSON: reading back what was written *)

#[local] Arguments String.append !s1 s2 : simpl nomatch.

Lemma append_assoc (s1 s2 s3 : string) : (s1 +:+ s2) +:+ s3 = s1 +:+ (s2 +:+ s3).
Proof. induction s1 as [|c s1 IH]; simpl; congruence. Qed.

Lemma append_nil_r (s : string) : s +:+ EmptyString = s.
Proof. induction s as [|c s IH]; simpl; congruence. Qed.

Lemma length_append (s1 s2 : string) :
  String.length (s1 +:+ s2) = (String.length s1 + String.length s2)%nat.
Proof. induction s1 as [|c s1 IH]; simpl; congruence. Qed.


Lemma ends_value_cases (s : string) :
  ends_value s = true →
  s = EmptyString ∨ ∃ r, s = String "," r ∨ s = String "]" r ∨ s = String "}" r.
Proof.
  destruct s as [|c r]; [by left|]. simpl. intros H. right. exists r.
  destruct (Ascii.eqb_spec c ","); [subst; by left|].
  destruct (Ascii.eqb_spec c "]"); [subst; right; by left|].
  destruct (Ascii.eqb_spec c "}"); [subst; right; by right|]. done.
Qed.

Ltac ends_value_cases H :=
  apply ends_value_cases in H as [->|[? [->|[->| ->]]]].

Lemma read_digits_stop (acc : N) (cnt : nat) (s : string) :
  ends_value s = true → JSON.read_digits acc cnt s = (acc, cnt, s).
Proof. intros H. ends_value_cases H; reflexivity. Qed.

Lemma starts_with_digit_stop (s : string) :
  ends_value s = true → JSON.starts_with_digit s = false.
Proof. intros H. ends_value_cases H; reflexivity. Qed.

Lemma read_frac_stop (s : string) :
  ends_value s = true → JSON.read_frac s = Some (None, s).
Proof. intros H. ends_value_cases H; reflexivity. Qed.

Lemma read_exp_stop (s : string) :
  ends_value s = true → JSON.read_exp s = Some (None, s).
Proof. intros H. ends_value_cases H; reflexivity. Qed.

Lemma pretty_N_char_digit (d : N) :
  (d < 10)%N →
  JSON.digit_of (pretty_N_char d) = Some d ∧
  JSON.is_digit (pretty_N_char d) = true ∧
  Ascii.eqb (pretty_N_char d) "0" = (d =? 0)%N ∧
  Ascii.eqb (pretty_N_char d) "-" = false.
Proof.
  intros Hd.
  assert (d = 0 ∨ d = 1 ∨ d = 2 ∨ d = 3 ∨ d = 4 ∨ d = 5 ∨ d = 6 ∨ d = 7
          ∨ d = 8 ∨ d = 9)%N as Hcases by lia.
  repeat (destruct Hcases as [->|Hcases]; [done|]). by subst.
Qed.

Lemma pretty_N_go_app (x : N) (s r : string) :
  pretty_N_go x s +:+ r = pretty_N_go x (s +:+ r).
Proof.
  revert s. induction (N.lt_wf_0 x) as [x _ IH]; intros s.
  assert (x = 0 ∨ 0 < x)%N as [->|Hx] by lia.
  - by rewrite !pretty_N_go_0.
  - rewrite (pretty_N_go_step x s), (pretty_N_go_step x (s +:+ r)) by done.
    rewrite IH by (by apply N.div_lt). reflexivity.
Qed.

(** Reading the digits that [pretty] wrote gives the number back. *)
Lemma read_digits_pretty (x : N) :
  ∃ p d, ∀ acc cnt s,
    JSON.read_digits acc cnt (pretty_N_go x s)
    = JSON.read_digits (acc * p + x) (cnt + d) s.
Proof.
  induction (N.lt_wf_0 x) as [x _ IH].
  assert (x = 0 ∨ 0 < x)%N as [->|Hx] by lia.
  - exists 1%N, 0%nat. intros acc cnt s. rewrite pretty_N_go_0.
    f_equal; [lia | lia].
  - destruct (IH (x `div` 10)%N) as (p & d & Hread); [by apply N.div_lt|].
    exists (p * 10)%N, (S d). intros acc cnt s.
    rewrite pretty_N_go_step by done. rewrite Hread. simpl.
    destruct (pretty_N_char_digit (x `mod` 10)) as (-> & _); [by apply N.mod_lt|].
    f_equal; [|lia].
    pose proof (N.div_mod x 10 ltac:(lia)). lia.
Qed.

Lemma pretty_N_go_head (x : N) (s : string) :
  (0 < x)%N →
  ∃ c r, pretty_N_go x s = String c r ∧ JSON.is_digit c = true ∧
         Ascii.eqb c "0" = false ∧ Ascii.eqb c "-" = false.
Proof.
  revert s. induction (N.lt_wf_0 x) as [x _ IH]; intros s Hx.
  rewrite pretty_N_go_step by done.
  destruct (N.eq_0_gt_0_cases (x `div` 10)) as [Hdiv|Hdiv].
  - rewrite Hdiv, pretty_N_go_0.
    destruct (pretty_N_char_digit (x `mod` 10)) as (_ & Hdig & Hzero & Hminus);
      [by apply N.mod_lt|].
    eexists _, _. split; [done|]. split; [done|]. split; [|done].
    rewrite Hzero. apply N.eqb_neq. pose proof (N.div_mod x 10 ltac:(lia)). lia.
  - apply IH; [by apply N.div_lt | done].
Qed.

Lemma parse_unsigned_pretty (x : N) (neg : bool) (rest : string) :
  (0 < x)%N → ends_value rest = true →
  JSON.parse_unsigned neg (pretty_N_go x rest)
  = Some (JNum (if neg then - Z.of_N x else Z.of_N x), rest).
Proof.
  intros Hx Hrest. unfold JSON.parse_unsigned.
  destruct (pretty_N_go_head x rest Hx) as (c & r & Heq & Hdig & Hzero & _).
  assert (Hs : JSON.starts_with_digit (pretty_N_go x rest) = true)
    by (by rewrite Heq).
  assert (Hl : JSON.leading_zero (pretty_N_go x rest) = false)
    by (rewrite Heq; simpl; by rewrite Hzero).
  rewrite Hs, Hl. simpl.
  destruct (read_digits_pretty x) as (p & d & ->).
  rewrite read_digits_stop by done.
  rewrite read_frac_stop by done. simpl.
  rewrite read_exp_stop by done. simpl.
  by rewrite N.mul_0_l, N.add_0_l.
Qed.

Lemma parse_number_pretty (n : Z) (rest : string) :
  ends_value rest = true →
  JSON.parse_number (pretty n +:+ rest) = Some (JNum n, rest).
Proof.
  intros Hrest. destruct n as [|p|p].
  - change (pretty 0) with "0". simpl.
    unfold JSON.parse_unsigned. simpl.
    rewrite starts_with_digit_stop by done. simpl.
    rewrite read_digits_stop by done.
    rewrite read_frac_stop by done. simpl.
    rewrite read_exp_stop by done. done.
  - change (pretty (Z.pos p)) with (pretty_N_go (N.pos p) EmptyString).
    rewrite pretty_N_go_app. simpl.
    destruct (pretty_N_go_head (N.pos p) rest) as (c & r & Heq & _ & _ & Hminus);
      [done|].
    unfold JSON.parse_number. rewrite Heq at 1. rewrite Hminus.
    by rewrite parse_unsigned_pretty.
  - change (pretty (Z.neg p)) with ("-" +:+ pretty_N_go (N.pos p) EmptyString).
    simpl. rewrite pretty_N_go_app. simpl.
    by rewrite parse_unsigned_pretty.
Qed.

Lemma pretty_Z_head (n : Z) :
  ∃ c r, pretty n = String c r ∧ JSON.is_num_start c = true.
Proof.
  destruct n as [|p|p].
  - by eexists _, _.
  - change (pretty (Z.pos p)) with (pretty_N_go (N.pos p) EmptyString).
    destruct (pretty_N_go_head (N.pos p) EmptyString) as (c & r & Heq & Hd & _);
      [done|].
    exists c, r. split; [done|]. unfold JSON.is_num_start. rewrite Hd.
    apply orb_true_r.
  - by eexists _, _.
Qed.

Lemma parse_string_escape_char (c : ascii) (rest : string) :
  JSON.parse_string (JSON.escape_char c +:+ rest)
  = '(str, r) ← JSON.parse_string rest; Some (String c str, r).
Proof. destruct c as [[] [] [] [] [] [] [] []]; reflexivity. Qed.

Lemma parse_string_escape (s rest : string) :
  JSON.parse_string (JSON.escape s +:+ String JSON.dquote rest) = Some (s, rest).
Proof.
  induction s as [|c s IH]; [reflexivity|].
  simpl JSON.escape. rewrite append_assoc, parse_string_escape_char, IH.
  reflexivity.
Qed.

Lemma num_start_not_close (c : ascii) :
  JSON.is_num_start c = true → Ascii.eqb c "]" = false.
Proof. intros H. destruct (Ascii.eqb_spec c "]") as [->|]; [discriminate | done]. Qed.

Lemma parse_value_number (f : nat) (c : ascii) (s : string) :
  JSON.is_num_start c = true →
  JSON.parse_value (S f) (String c s) = JSON.parse_number (String c s).
Proof. intros H. simpl. by rewrite H. Qed.

Lemma length_concat (sep : string) (l : list string) :
  Forall (λ s, (1 ≤ String.length s)%nat) l →
  (length l ≤ String.length (String.concat sep l))%nat.
Proof.
  induction 1 as [|s l Hs Hl IH]; [done|].
  destruct l as [|s' l]; [simpl; lia|].
  change (String.concat sep (s :: s' :: l))
    with (s +:+ sep +:+ String.concat sep (s' :: l)).
  rewrite !length_append. simpl in *. lia.
Qed.

Lemma forallb_elem {A} (f : A → bool) (l : list A) (x : A) :
  forallb f l = true → x ∈ l → f x = true.
Proof.
  intros Hall Hx. apply list_elem_of_In in Hx.
  by apply (proj1 (forallb_forall f l) Hall).
Qed.

(** Induction on a value with the elements and members at hand. *)
Lemma json_induction (P : json → Prop) :
  P JNull → (∀ b, P (JBool b)) → (∀ n, P (JNum n)) → (∀ x, P (JReal x)) →
  (∀ s, P (JStr s)) →
  (∀ vs, Forall P vs → P (JArr vs)) →
  (∀ kvs, Forall (λ kv, P (snd kv)) kvs → P (JObj kvs)) →
  ∀ v, P v.
Proof.
  intros HNull HBool HNum HReal HStr HArr HObj.
  fix IH 1.
  intros [|b|n|x|s|vs|kvs];
    [apply HNull | apply HBool | apply HNum | apply HReal | apply HStr | | ].
  - apply HArr. induction vs as [|v vs IHvs]; constructor; [apply IH | exact IHvs].
  - apply HObj. induction kvs as [|kv kvs IHkvs]; constructor; [apply IH | exact IHkvs].
Qed.

Section ReadBack.
Variable real_toString : number → string.


Lemma stringify_array (vs : list json) (rest : string) :
  (JSON.stringify real_toString) (JArr vs) +:+ rest
  = String "[" (String.concat "," (map (JSON.stringify real_toString) vs) +:+ String "]" rest).
Proof.
  change ((JSON.stringify real_toString) (JArr vs))
    with ("[" +:+ String.concat "," (map (JSON.stringify real_toString) vs) +:+ "]").
  simpl. by rewrite append_assoc.
Qed.

Lemma stringify_object (kvs : list (string * json)) (rest : string) :
  (JSON.stringify real_toString) (JObj kvs) +:+ rest
  = String "{" (String.concat "," (map (member_text real_toString) kvs) +:+ String "}" rest).
Proof.
  change ((JSON.stringify real_toString) (JObj kvs))
    with ("{" +:+ String.concat "," (map (member_text real_toString) kvs) +:+ "}").
  simpl. by rewrite append_assoc.
Qed.

Lemma member_text_app (k : string) (v : json) (rest : string) :
  (member_text real_toString) (k, v) +:+ rest
  = String JSON.dquote
      (JSON.escape k +:+ String JSON.dquote (String ":" ((JSON.stringify real_toString) v +:+ rest))).
Proof.
  unfold member_text, JSON.quote. simpl. by rewrite !append_assoc.
Qed.

(** The first character of the text of a value. *)
Lemma stringify_head (v : json) :
  JSON.plain v = true →
  ∃ c r, (JSON.stringify real_toString) v = String c r ∧ Ascii.eqb c "]" = false.
Proof.
  destruct v as [|[]|n|x|s|vs|kvs]; intros Hplain; try discriminate;
    try (by eexists _, _).
  destruct (pretty_Z_head n) as (c & r & Heq & Hc).
  exists c, r. split; [done|]. by apply num_start_not_close.
Qed.

Lemma parse_elements_stringify (f : nat) (vs : list json) (rest : string) (n : nat) :
  vs ≠ [] →
  Forall (λ v, ∀ rest', ends_value rest' = true →
               JSON.parse_value f ((JSON.stringify real_toString) v +:+ rest') = Some (v, rest')) vs →
  (length vs ≤ n)%nat →
  JSON.parse_elements (JSON.parse_value f) n
    (String.concat "," (map (JSON.stringify real_toString) vs) +:+ String "]" rest)
  = Some (vs, rest).
Proof.
  intros Hne Hall. revert n. induction Hall as [|v vs Hv Hvs IH]; [done|].
  intros [|n] Hn; [simpl in Hn; lia|].
  destruct vs as [|v2 vs].
  - simpl. rewrite Hv by done. reflexivity.
  - change (String.concat "," (map (JSON.stringify real_toString) (v :: v2 :: vs)))
      with ((JSON.stringify real_toString) v +:+ "," +:+ String.concat "," (map (JSON.stringify real_toString) (v2 :: vs))).
    rewrite !append_assoc. simpl. rewrite Hv by done. simpl.
    rewrite IH; [done | done | simpl in *; lia].
Qed.

Lemma parse_members_stringify (f : nat) (kvs : list (string * json)) (rest : string)
    (n : nat) :
  kvs ≠ [] →
  Forall (λ kv, ∀ rest', ends_value rest' = true →
                JSON.parse_value f ((JSON.stringify real_toString) (snd kv) +:+ rest')
                = Some (snd kv, rest')) kvs →
  (length kvs ≤ n)%nat →
  JSON.parse_members (JSON.parse_value f) n
    (String.concat "," (map (member_text real_toString) kvs) +:+ String "}" rest)
  = Some (kvs, rest).
Proof.
  intros Hne Hall. revert n. induction Hall as [|[k v] kvs Hv Hkvs IH]; [done|].
  intros [|n] Hn; [simpl in Hn; lia|].
  destruct kvs as [|kv2 kvs].
  - simpl String.concat. rewrite member_text_app.
    simpl. rewrite parse_string_escape. simpl. rewrite Hv by done. reflexivity.
  - change (String.concat "," (map (member_text real_toString) ((k, v) :: kv2 :: kvs)))
      with ((member_text real_toString) (k, v) +:+ "," +:+ String.concat "," (map (member_text real_toString) (kv2 :: kvs))).
    rewrite append_assoc, member_text_app. simpl.
    rewrite parse_string_escape. simpl. rewrite append_assoc. simpl.
    rewrite Hv by done. simpl.
    rewrite IH; [done | done | simpl in *; lia].
Qed.

Lemma depth_element (v : json) (vs : list json) :
  v ∈ vs → (JSON.depth v ≤ foldr (λ v d, max (JSON.depth v) d) 0 vs)%nat.
Proof.
  induction 1 as [v vs|v v' vs Hin IH]; simpl; lia.
Qed.

Lemma depth_member (kv : string * json) (kvs : list (string * json)) :
  kv ∈ kvs →
  (JSON.depth (snd kv) ≤ foldr (λ kv d, max (JSON.depth (snd kv)) d) 0 kvs)%nat.
Proof.
  induction 1 as [kv kvs|kv kv' kvs Hin IH]; simpl; lia.
Qed.

(** Parsing the text of a value gives the value back, when the fuel covers
    its nesting. *)
Lemma parse_value_stringify (v : json) :
  JSON.plain v = true →
  ∀ fuel rest, (JSON.depth v ≤ fuel)%nat → ends_value rest = true →
    JSON.parse_value fuel ((JSON.stringify real_toString) v +:+ rest) = Some (v, rest).
Proof.
  induction v as [|b|n|x|s|vs IH|kvs IH] using json_induction;
    intros Hplain [|f] rest Hfuel Hrest; try (simpl in Hfuel; lia);
    try discriminate.
  - reflexivity.
  - destruct b; reflexivity.
  - destruct (pretty_Z_head n) as (c & r & Heq & Hc).
    change ((JSON.stringify real_toString) (JNum n)) with (pretty n).
    assert (Heq' : pretty n +:+ rest = String c (r +:+ rest)) by (by rewrite Heq).
    rewrite Heq' at 1. rewrite parse_value_number by done.
    rewrite <- Heq'. by apply parse_number_pretty.
  - change ((JSON.stringify real_toString) (JStr s)) with (JSON.quote s). unfold JSON.quote.
    simpl. rewrite append_assoc. simpl. by rewrite parse_string_escape.
  - rewrite stringify_array. simpl in Hfuel, Hplain.
    destruct vs as [|v vs]; [reflexivity|].
    assert (Hall : Forall (λ v, ∀ rest', ends_value rest' = true →
               JSON.parse_value f ((JSON.stringify real_toString) v +:+ rest') = Some (v, rest')) (v :: vs)).
    { apply Forall_forall. intros w Hw rest' Hrest'.
      apply (proj1 (Forall_forall _ _) IH w Hw).
      - by apply (forallb_elem _ _ _ Hplain Hw).
      - pose proof (depth_element w (v :: vs) Hw). simpl in *. lia.
      - done. }
    set (text := String.concat "," (map (JSON.stringify real_toString) (v :: vs)) +:+ String "]" rest).
    assert (Hhead : JSON.starts_with "]" text = false).
    { destruct (stringify_head v) as (c & r & Heq & Hc).
      { simpl in Hplain. by apply andb_true_iff in Hplain as [? _]. }
      unfold text. destruct vs; simpl String.concat; rewrite Heq; simpl; done. }
    assert (Hlen : (length (v :: vs) ≤ String.length text)%nat).
    { unfold text. rewrite length_append.
      etrans; [|apply Nat.le_add_r].
      rewrite <- (length_map (JSON.stringify real_toString)). apply length_concat.
      apply Forall_map, Forall_forall. intros w Hw.
      destruct (stringify_head w) as (c & r & -> & _); [|simpl; lia].
      by apply (forallb_elem _ _ _ Hplain). }
    change (JSON.parse_value (S f) (String "[" text))
      with (if JSON.starts_with "]" text then Some (JArr [], JSON.tail text)
            else '(vs, rest) ← JSON.parse_elements (JSON.parse_value f)
                                  (String.length text) text;
                 Some (JArr vs, rest)).
    rewrite Hhead. unfold text at 2.
    rewrite parse_elements_stringify; done.
  - rewrite stringify_object. simpl in Hfuel, Hplain.
    destruct kvs as [|[k v] kvs]; [reflexivity|].
    assert (Hall : Forall (λ kv, ∀ rest', ends_value rest' = true →
               JSON.parse_value f ((JSON.stringify real_toString) (snd kv) +:+ rest')
               = Some (snd kv, rest')) ((k, v) :: kvs)).
    { apply Forall_forall. intros w Hw rest' Hrest'.
      apply (proj1 (Forall_forall _ _) IH w Hw).
      - by apply (forallb_elem _ _ _ Hplain Hw).
      - pose proof (depth_member w ((k, v) :: kvs) Hw). simpl in *. lia.
      - done. }
    set (text := String.concat "," (map (member_text real_toString) ((k, v) :: kvs)) +:+ String "}" rest).
    assert (Hhead : JSON.starts_with "}" text = false).
    { unfold text. destruct kvs; reflexivity. }
    assert (Hlen : (length ((k, v) :: kvs) ≤ String.length text)%nat).
    { unfold text. rewrite length_append.
      etrans; [|apply Nat.le_add_r].
      rewrite <- (length_map (member_text real_toString)). apply length_concat.
      apply Forall_map, Forall_forall. intros [k' v'] _.
      unfold member_text, JSON.quote. simpl. lia. }
    change (JSON.parse_value (S f) (String "{" text))
      with (if JSON.starts_with "}" text then Some (JObj [], JSON.tail text)
            else '(kvs, rest) ← JSON.parse_members (JSON.parse_value f)
                                   (String.length text) text;
                 Some (JObj kvs, rest)).
    rewrite Hhead. unfold text at 2.
    rewrite parse_members_stringify; done.
Qed.

Lemma length_concat_elements (vs : list json) :
  Forall (λ v, JSON.plain v = true → (JSON.depth v ≤ String.length ((JSON.stringify real_toString) v))%nat) vs →
  forallb JSON.plain vs = true →
  (foldr (λ v d, max (JSON.depth v) d) 0%nat vs
   ≤ String.length (String.concat "," (map (JSON.stringify real_toString) vs)))%nat.
Proof.
  induction 1 as [|v vs Hv Hvs IH]; [done|]. simpl forallb.
  intros [Hp Hps]%andb_true_iff. specialize (Hv Hp). specialize (IH Hps).
  destruct vs as [|v2 vs]; [simpl in *; lia|].
  change (String.concat "," (map (JSON.stringify real_toString) (v :: v2 :: vs)))
    with ((JSON.stringify real_toString) v +:+ "," +:+ String.concat "," (map (JSON.stringify real_toString) (v2 :: vs))).
  rewrite !length_append.
  change (foldr (λ v d, max (JSON.depth v) d) 0%nat (v :: v2 :: vs))
    with (max (JSON.depth v) (foldr (λ v d, max (JSON.depth v) d) 0%nat (v2 :: vs))).
  lia.
Qed.

Lemma length_member_text (kv : string * json) :
  (String.length ((JSON.stringify real_toString) (snd kv)) ≤ String.length (member_text real_toString kv))%nat.
Proof. unfold member_text. rewrite !length_append. lia. Qed.

Lemma length_concat_members (kvs : list (string * json)) :
  Forall (λ kv, JSON.plain (snd kv) = true →
                (JSON.depth (snd kv) ≤ String.length ((JSON.stringify real_toString) (snd kv)))%nat) kvs →
  forallb (λ kv, JSON.plain (snd kv)) kvs = true →
  (foldr (λ kv d, max (JSON.depth (snd kv)) d) 0%nat kvs
   ≤ String.length (String.concat "," (map (member_text real_toString) kvs)))%nat.
Proof.
  induction 1 as [|kv kvs Hv Hvs IH]; [done|]. simpl forallb.
  intros [Hp Hps]%andb_true_iff. specialize (Hv Hp). specialize (IH Hps).
  pose proof (length_member_text kv).
  destruct kvs as [|kv2 kvs]; [simpl in *; lia|].
  change (String.concat "," (map (member_text real_toString) (kv :: kv2 :: kvs)))
    with ((member_text real_toString) kv +:+ "," +:+ String.concat "," (map (member_text real_toString) (kv2 :: kvs))).
  rewrite !length_append.
  change (foldr (λ kv d, max (JSON.depth (snd kv)) d) 0%nat (kv :: kv2 :: kvs))
    with (max (JSON.depth (snd kv))
            (foldr (λ kv d, max (JSON.depth (snd kv)) d) 0%nat (kv2 :: kvs))).
  lia.
Qed.

(** The text of a value is at least as long as the value is deep. *)
Lemma depth_le_length (v : json) :
  JSON.plain v = true → (JSON.depth v ≤ String.length ((JSON.stringify real_toString) v))%nat.
Proof.
  induction v as [|b|n|x|s|vs IH|kvs IH] using json_induction; intros Hplain;
    try discriminate.
  - simpl. lia.
  - destruct b; simpl; lia.
  - destruct (pretty_Z_head n) as (c & r & Heq & _).
    change ((JSON.stringify real_toString) (JNum n)) with (pretty n). rewrite Heq. simpl. lia.
  - simpl. lia.
  - pose proof (length_concat_elements vs IH Hplain) as Hlen.
    pose proof (stringify_array vs EmptyString) as Htext.
    rewrite append_nil_r in Htext. rewrite Htext.
    change (JSON.depth (JArr vs))
      with (S (foldr (λ v d, max (JSON.depth v) d) 0%nat vs)).
    simpl String.length. rewrite length_append. lia.
  - pose proof (length_concat_members kvs IH Hplain) as Hlen.
    pose proof (stringify_object kvs EmptyString) as Htext.
    rewrite append_nil_r in Htext. rewrite Htext.
    change (JSON.depth (JObj kvs))
      with (S (foldr (λ kv d, max (JSON.depth (snd kv)) d) 0%nat kvs)).
    simpl String.length. rewrite length_append. lia.
Qed.

(** [JSON.parse(JSON.stringify(v))] is [v], for a value of arrays, objects,
    strings, integers, booleans and [null]. *)
Lemma JSON_parse_stringify (v : json) :
  JSON.plain v = true → JSON.parse ((JSON.stringify real_toString) v) = Some v.
Proof.
  intros Hplain. unfold JSON.parse.
  pose proof (parse_value_stringify v Hplain
                (S (String.length ((JSON.stringify real_toString) v))) EmptyString) as Hparse.
  rewrite append_nil_r in Hparse. rewrite Hparse; [done| |done].
  pose proof (depth_le_length v Hplain). lia.
Qed.

End ReadBack.

(** ** Mementos *)

Lemma coin_of_to_json (c : Coin.t) : coin_of_json (coin_to_json c) = Some c.
Proof. destruct c as [[ci cj] cs]. reflexivity. Qed.

Lemma coin_to_json_plain (cs : list Coin.t) :
  JSON.plain (JArr (map coin_to_json cs)) = true.
Proof. induction cs as [|c cs IH]; [done|]. simpl in *. exact IH. Qed.

(** New objects at the end of the heap are those that were appended. *)
Lemma lookup_new_objects {A} (heap new : list A) :
  mapM (λ r, (heap ++ new) !! r) (seq (length heap) (length new)) = Some new.
Proof.
  revert heap. induction new as [|x new IH]; intros heap; [done|].
  simpl. rewrite lookup_app_r, Nat.sub_diag by done. simpl.
  specialize (IH (heap ++ [x])).
  rewrite <- (assoc_L (++)), length_app, Nat.add_1_r in IH. simpl in IH.
  rewrite IH. done.
Qed.

Section Momento.
Variable real_toString : number → string.

Lemma fromMomento_coins (σ : State) (b : nat) (cs : list Coin.t) :
  is_Some (cache_objs σ !! b) →
  ∃ σ',
    fromMomento b (JSON_stringify real_toString (JArr (map coin_to_json cs))) σ
    = Some σ' ∧
    coins_of b σ' = Some cs ∧
    coin_objs σ' = coin_objs σ ++ cs ∧
    cache_objs σ' = alter (with_coins (seq (length (coin_objs σ)) (length cs))) b
                      (cache_objs σ) ∧
    momentos σ' = momentos σ ∧ markers σ' = markers σ ∧ board σ' = board σ ∧
    locHistory σ' = locHistory σ ∧ origin σ' = origin σ ∧
    localStorage σ' = localStorage σ.
Proof.
  intros [cb Hb]. eexists. split.
  { unfold fromMomento, JSON_parse, JSON_stringify.
    rewrite JSON_parse_stringify by apply coin_to_json_plain. simpl.
    rewrite mapM_fmap_Some by apply coin_of_to_json. simpl.
    rewrite Hb. simpl. reflexivity. }
  split; [|done].
  unfold coins_of. rewrite lookup_set_coins_eq. simpl. rewrite Hb. simpl.
  apply lookup_new_objects.
Qed.

(** C2: the memento of a cache, restored into any cache of any state, gives
    that cache a collection of coins with the same cells and serials, in
    the same order, as the collection that was saved, whatever the cache
    held before and however many coins the collection has. *)
Theorem momento_round_trip (σ : State) (a : nat) (cs : list Coin.t) :
  coins_of a σ = Some cs →
  ∃ m,
    toMomento real_toString a σ = Some m ∧
    ∀ (σ1 : State) (b : nat),
      is_Some (cache_objs σ1 !! b) →
      ∃ σ2,
        fromMomento b m σ1 = Some σ2 ∧
        coins_of b σ2 = Some cs ∧
        (∀ cs', coins_of b σ2 = Some cs' → cs' ≡ₚ cs).
Proof.
  intros Hcs. eexists. split.
  { unfold toMomento. rewrite Hcs. reflexivity. }
  intros σ1 b Hb.
  destruct (fromMomento_coins σ1 b cs Hb) as (σ2 & Hfrom & Hcoins & _).
  exists σ2. split; [exact Hfrom|]. split; [exact Hcoins|].
  intros cs' Hcs'. rewrite Hcoins in Hcs'. by injection Hcs' as <-.
Qed.

End Momento.

Lemma momento_round_trip_witness :
  ∃ m, toMomento sample_real_toString 1%nat sample_shown = Some m ∧
       ∃ σ2, fromMomento inventory m sample_collected = Some σ2 ∧
             coins_of inventory σ2
             = Some [ {| Coin.cell := {| Cell.i := 0; Cell.j := 0 |}; Coin.serial := 0 |};
                      {| Coin.cell := {| Cell.i := 0; Cell.j := 0 |}; Coin.serial := 1 |} ].
Proof.
  destruct (momento_round_trip sample_real_toString sample_shown 1%nat
              [ {| Coin.cell := {| Cell.i := 0; Cell.j := 0 |}; Coin.serial := 0 |};
                {| Coin.cell := {| Cell.i := 0; Cell.j := 0 |}; Coin.serial := 1 |} ]
              eq_refl) as (m & Hm & Hback).
  exists m. split; [exact Hm|].
  destruct (Hback sample_collected inventory) as (σ2 & Hfrom & Hcoins & _).
  - eexists. reflexivity.
  - exists σ2. split; [exact Hfrom | exact Hcoins].
Defined.

(** ** Rounding: a product of small numbers is finite *)

Lemma Zdigits2_log2 (a : Z) : 0 < a → Zdigits2 a = Z.log2 a + 1.
Proof.
  destruct a as [|p|p]; try lia. intros _. simpl.
  assert (Hsize : ∀ q, digits2_pos q = Pos.size q).
  { induction q as [q IH|q IH|]; simpl; by rewrite ?IH. }
  rewrite Hsize. destruct p; simpl; lia.
Qed.

Lemma Zdigits2_mono (a b : Z) : 0 ≤ a ≤ b → Zdigits2 a ≤ Zdigits2 b.
Proof.
  intros [Ha Hab]. destruct (decide (a = 0)) as [->|Hne].
  - destruct b; simpl; lia.
  - rewrite !Zdigits2_log2 by lia.
    pose proof (Z.log2_le_mono a b Hab). lia.
Qed.

Lemma Zdigits2_succ (a : Z) : 0 ≤ a → Zdigits2 (a + 1) ≤ Zdigits2 a + 1.
Proof.
  intros Ha. destruct (decide (a = 0)) as [->|Hne]; [simpl; lia|].
  rewrite !Zdigits2_log2 by lia.
  pose proof (Z.log2_le_mono (a + 1) (2 * a) ltac:(lia)).
  rewrite Z.log2_double in H by lia. lia.
Qed.

Lemma Zdigits2_mul (a b : Z) :
  0 < a → 0 < b → Zdigits2 (a * b) ≤ Zdigits2 a + Zdigits2 b.
Proof.
  intros Ha Hb. rewrite !Zdigits2_log2 by lia.
  pose proof (Z.log2_mul_above a b ltac:(lia) ltac:(lia)). lia.
Qed.

Lemma shr_1_bounds (mrs : shr_record) :
  0 ≤ shr_m mrs → 0 ≤ shr_m (shr_1 mrs) ≤ shr_m mrs.
Proof. destruct mrs as [[|[p|p|]|p] r s]; simpl; lia. Qed.

Lemma iter_shr_1_bounds (p : positive) (mrs : shr_record) :
  0 ≤ shr_m mrs → 0 ≤ shr_m (SpecFloat.iter_pos shr_1 p mrs) ≤ shr_m mrs.
Proof.
  revert mrs. induction p as [p IH|p IH|]; intros mrs Hm; simpl.
  - pose proof (shr_1_bounds mrs Hm) as H1.
    pose proof (IH (shr_1 mrs) ltac:(lia)) as H2.
    pose proof (IH (SpecFloat.iter_pos shr_1 p (shr_1 mrs)) ltac:(lia)). lia.
  - pose proof (IH mrs Hm) as H1.
    pose proof (IH (SpecFloat.iter_pos shr_1 p mrs) ltac:(lia)). lia.
  - by apply shr_1_bounds.
Qed.

Lemma shr_fexp_bounds (m e : Z) (l : location) :
  0 ≤ m →
  0 ≤ shr_m (shr_fexp prec emax m e l).1 ≤ m ∧
  (shr_fexp prec emax m e l).2 = Z.max e (fexp prec emax (Zdigits2 m + e)).
Proof.
  intros Hm. unfold shr_fexp, shr.
  assert (Hrec : shr_m (shr_record_of_loc m l) = m)
    by (by destruct l as [|[]]).
  destruct (fexp prec emax (Zdigits2 m + e) - e) as [|p|p] eqn:Hn; simpl.
  - rewrite Hrec. lia.
  - pose proof (iter_shr_1_bounds p (shr_record_of_loc m l)) as H.
    rewrite Hrec in H. lia.
  - rewrite Hrec. lia.
Qed.

Lemma round_nearest_even_bounds (m : Z) (l : location) :
  0 ≤ m → m ≤ round_nearest_even m l ≤ m + 1.
Proof. intros Hm. destruct l as [|[]]; simpl; try lia. destruct (Z.even m); lia. Qed.

(** No overflow: a mantissa of at most 1023 bits whose value is below
    [2^53] rounds to zero or to a finite number of the same sign. *)
Lemma binary_round_aux_finite (sx : bool) (mx ex : Z) (lx : location) :
  0 ≤ mx → ex ≤ 0 → Zdigits2 mx ≤ 1023 → Zdigits2 mx + ex ≤ 53 →
  binary_round_aux prec emax sx mx ex lx = S754_zero sx ∨
  ∃ m e, binary_round_aux prec emax sx mx ex lx = S754_finite sx m e.
Proof.
  intros Hmx Hex Hdig Hval. unfold binary_round_aux.
  pose proof (shr_fexp_bounds mx ex lx Hmx) as [Hm1 He1].
  destruct (shr_fexp prec emax mx ex lx) as [mrs1 e1]. simpl in Hm1, He1.
  pose proof (round_nearest_even_bounds (shr_m mrs1) (loc_of_shr_record mrs1)
                ltac:(lia)) as Hr.
  set (m2 := round_nearest_even (shr_m mrs1) (loc_of_shr_record mrs1)) in *.
  pose proof (shr_fexp_bounds m2 e1 loc_Exact ltac:(lia)) as [Hm3 He3].
  destruct (shr_fexp prec emax m2 e1 loc_Exact) as [mrs3 e3]. simpl in Hm3, He3.
  destruct (shr_m mrs3) as [|m|m] eqn:Hm; [by left | | lia].
  right. exists m, e3.
  assert (Hd1 : Zdigits2 (shr_m mrs1) ≤ Zdigits2 mx) by (apply Zdigits2_mono; lia).
  assert (Hd2 : Zdigits2 m2 ≤ Zdigits2 mx + 1).
  { etrans; [apply Zdigits2_mono with (b := shr_m mrs1 + 1); lia|].
    etrans; [apply Zdigits2_succ; lia|]. lia. }
  assert (0 ≤ Zdigits2 mx) by (destruct mx; simpl; lia).
  assert (0 ≤ Zdigits2 m2) by (destruct m2; simpl; lia).
  unfold fexp, emin, prec, emax in *.
  rewrite (proj2 (Z.leb_le e3 _)); [done | lia].
Qed.

Lemma mul_30_floor (x : number) :
  unit_interval x → ∃ n, floor (mul x (of_Z 30)) = Some n ∧ 0 ≤ n.
Proof.
  intros (Hvalid & Hpos & Hlt).
  change (of_Z 30) with (S754_finite false 8444249301319680 (-48)).
  change (of_Z 1) with (S754_finite false 4503599627370496 (-52)) in Hlt.
  destruct x as [s|s| |s m e]; try discriminate.
  - exists 0. done.
  - destruct s; discriminate.
  - destruct s; [discriminate|].
    assert (He : e ≤ -52).
    { unfold ltb, SFltb, SFcompare in Hlt.
      destruct (Z.compare_spec e (-52)); [lia | lia | discriminate]. }
    assert (Hd : Z.pos (digits2_pos m) ≤ 53).
    { unfold valid_binary, bounded, canonical_mantissa in Hvalid.
      apply andb_true_iff in Hvalid as [Hc _]. apply Z.eqb_eq in Hc.
      unfold fexp, emin, prec, emax in Hc. lia. }
    unfold mul, SFmul. cbn [xorb].
    destruct (binary_round_aux_finite false
                (Z.pos (m * 8444249301319680)) (e + -48) loc_Exact)
      as [->|(m' & e' & ->)].
    + lia.
    + lia.
    + rewrite Pos2Z.inj_mul.
      etrans; [apply Zdigits2_mul; lia|].
      change (Zdigits2 8444249301319680) with 53.
      change (Zdigits2 (Z.pos m)) with (Z.pos (digits2_pos m)). lia.
    + rewrite Pos2Z.inj_mul.
      pose proof (Zdigits2_mul (Z.pos m) 8444249301319680 ltac:(lia) ltac:(lia)) as H.
      change (Zdigits2 8444249301319680) with 53 in H.
      change (Zdigits2 (Z.pos m)) with (Z.pos (digits2_pos m)) in H. lia.
    + exists 0. done.
    + eexists. split; [reflexivity|]. unfold mantissa, cond_Zopp.
      apply Z.shiftl_nonneg. lia.
Qed.

(** ** Showing the caches *)

Section Show.
Variable luck : string → number.

Lemma createCache_coins (i j n : Z) (σ : State) :
  coins_of (length (cache_objs σ)) (createCache i j n σ).2
  = Some (map (λ k, {| Coin.cell := {| Cell.i := i; Cell.j := j |};
                       Coin.serial := k |}) (seqZ 0 n)).
Proof.
  unfold coins_of, createCache. simpl.
  rewrite lookup_app_r, Nat.sub_diag by done. simpl.
  unfold range. rewrite Z.sub_0_r. apply lookup_new_objects.
Qed.

(** C3: for a cell with no memento, [showCache] makes a cache exactly when
    the luck of the key of the cell is below 0.1; the cache then holds
    [floor(luck * 30) + 1] coins of the cell, with the serials from 0 on
    in order.  Count and serials are read from the cell and its luck alone,
    so making the cache again gives the same ones. *)
Theorem showCache_generates (σ : State) (cell : nat) (c : Cell.t) :
  let key := Array_toString (Cell.i c) (Cell.j c) in
  cell_objs (board σ) !! cell = Some c →
  unit_interval (luck key) →
  Map_has key (momentos σ) = false →
  (ltb (luck key) CACHE_SPAWN_PROBABILITY = false →
     showCache luck cell σ = Some σ) ∧
  (ltb (luck key) CACHE_SPAWN_PROBABILITY = true →
     ∃ n σ',
       floor (mul (luck key) (of_Z 30)) = Some n ∧ 0 ≤ n ∧
       showCache luck cell σ = Some σ' ∧
       markers σ' = markers σ ++ [length (cache_objs σ)] ∧
       Cache.cell <$> cache_objs σ' !! length (cache_objs σ) = Some c ∧
       coins_of (length (cache_objs σ)) σ'
       = Some (map (λ k, {| Coin.cell := c; Coin.serial := k |}) (seqZ 0 (n + 1))) ∧
       momentos σ' = momentos σ).
Proof.
  intros key Hcell Hluck Hmem. unfold showCache. rewrite Hcell.
  cbn [mbind option_bind]. fold key.
  split; intros Hchance; rewrite Hchance; [done|].
  rewrite Hmem. cbn [negb].
  destruct (mul_30_floor _ Hluck) as (n & Hn & Hpos).
  rewrite Hn. cbn [mbind option_bind]. exists n. eexists.
  split; [done|]. split; [done|]. split; [reflexivity|].
  split; [done|]. split.
  { simpl. rewrite lookup_app_r, Nat.sub_diag by done. simpl. by destruct c. }
  split; [|done].
  pose proof (createCache_coins (Cell.i c) (Cell.j c) (n + 1) σ) as Hcoins.
  destruct c as [ci cj]. exact Hcoins.
Qed.

End Show.

Lemma showCache_generates_witness :
  ∃ σ', showCache sample_luck 0%nat sample_start = Some σ' ∧
        coins_of 1%nat σ'
        = Some (map (λ k, {| Coin.cell := {| Cell.i := 0; Cell.j := 0 |};
                             Coin.serial := k |}) [0; 1]).
Proof.
  destruct (showCache_generates sample_luck sample_start 0%nat
              {| Cell.i := 0; Cell.j := 0 |})
    as [_ Hgen].
  - reflexivity.
  - repeat split.
  - reflexivity.
  - destruct Hgen as (n & σ' & Hn & _ & Hshow & _ & _ & Hcoins & _);
      [reflexivity|].
    exists σ'. split; [exact Hshow|].
    assert (n = 1) as -> by (vm_compute in Hn; congruence).
    exact Hcoins.
Defined.

(** ** A whole session *)

Lemma near_cells_fst :
  fst <$> getCellsNearPoint zero_point createBoard
  = Some (seq 1 136 ++ 0%nat :: seq 137 119).
Proof. vm_compute. reflexivity. Qed.

Lemma near_cells_eq :
  getCellsNearPoint zero_point createBoard
  = Some (seq 1 136 ++ 0%nat :: seq 137 119, near_board).
Proof.
  pose proof near_cells_fst as H. unfold near_board.
  destruct (getCellsNearPoint zero_point createBoard) as [[cs b]|];
    simpl in *; congruence.
Qed.

Lemma near_board_00 : cell_objs near_board !! 0%nat = Some cell00.
Proof. vm_compute. reflexivity. Qed.

#[local] Opaque near_board.

Lemma extends_refl (P : Cell.t → Prop) (σ : State) : extends P σ σ.
Proof.
  exists [], []. rewrite !app_nil_r. repeat split; try done.
Qed.

Lemma extends_trans (P : Cell.t → Prop) (σ1 σ2 σ3 : State) :
  extends P σ1 σ2 → extends P σ2 σ3 → extends P σ1 σ3.
Proof.
  intros (k1 & n1 & Hk1 & Hn1 & HP1 & Hm1 & ? & ? & ? & ? & ?)
         (k2 & n2 & Hk2 & Hn2 & HP2 & Hm2 & ? & ? & ? & ? & ?).
  exists (k1 ++ k2), (n1 ++ n2).
  split; [by rewrite Hk2, Hk1, (assoc_L (++))|].
  split; [by rewrite Hn2, Hn1, (assoc_L (++))|].
  split; [by apply Forall_app|].
  split.
  { rewrite Hm2, Hm1, Hn1, !length_app, <- (assoc_L (++)). f_equal.
    by rewrite seq_app. }
  repeat split; congruence.
Qed.

Section Session.
Variable luck : string → number.
Variable calculateDistance : latlng → latlng → number.
Variable real_toString : number → string.
Hypothesis luck_unit : ∀ key, unit_interval (luck key).

Lemma showCache_other (P : Cell.t → Prop) (σ : State) (cell : nat) (c : Cell.t) :
  cell_objs (board σ) !! cell = Some c →
  Map_has (Array_toString (Cell.i c) (Cell.j c)) (momentos σ) = false →
  P c →
  ∃ σ', showCache luck cell σ = Some σ' ∧ extends P σ σ'.
Proof.
  intros Hcell Hmem HP. unfold showCache. rewrite Hcell.
  cbn [mbind option_bind].
  destruct (ltb _ _); [|exists σ; split; [done | apply extends_refl]].
  rewrite Hmem. cbn [negb].
  destruct (mul_30_floor _ (luck_unit (Array_toString (Cell.i c) (Cell.j c))))
    as (n & -> & _).
  cbn [mbind option_bind]. eexists. split; [reflexivity|].
  eexists _, [_]. simpl. repeat split; try done.
  apply Forall_singleton. simpl. by destruct c.
Qed.

Lemma forEach_others (P : Cell.t → Prop) (cells : list nat) (σ : State) :
  Forall (λ cell, ∃ c, cell_objs (board σ) !! cell = Some c ∧
            Map_has (Array_toString (Cell.i c) (Cell.j c)) (momentos σ) = false ∧
            P c) cells →
  ∃ σ', forEach (showCache luck) cells σ = Some σ' ∧ extends P σ σ'.
Proof.
  revert σ. induction cells as [|cell cells IH]; intros σ Hall.
  - exists σ. split; [done | apply extends_refl].
  - apply Forall_cons in Hall as [(c & Hcell & Hmem & HP) Hall].
    destruct (showCache_other P σ cell c Hcell Hmem HP) as (σ1 & Hshow & Hext).
    destruct (IH σ1) as (σ2 & Hrest & Hext2).
    { pose proof Hext as (_ & _ & _ & _ & _ & _ & Hmom & Hboard & _).
      by rewrite Hmom, Hboard. }
    exists σ2. split; [|by eapply extends_trans].
    simpl. rewrite Hshow. done.
Qed.

Lemma other_cells_spec (b : Board) (m : list (string * string)) (cells : list nat) :
  forallb (other_cell b m) cells = true →
  Forall (λ cell, ∃ c, cell_objs b !! cell = Some c ∧
            Map_has (Array_toString (Cell.i c) (Cell.j c)) m = false ∧
            c ≠ cell00) cells.
Proof.
  intros Hall. apply Forall_forall. intros cell Hcell.
  pose proof (forallb_elem _ _ _ Hall Hcell) as Hc. unfold other_cell in Hc.
  destruct (cell_objs b !! cell) as [c|]; [|done].
  apply andb_true_iff in Hc as [Hmem Hne]. exists c. split; [done|].
  split; [by apply negb_true_iff in Hmem|].
  apply negb_true_iff, bool_decide_eq_false in Hne. done.
Qed.

Lemma forEach_app {A} (f : A → State → option State) (l1 l2 : list A) (σ : State) :
  forEach f (l1 ++ l2) σ = forEach f l1 σ ≫= forEach f l2.
Proof.
  revert σ. induction l1 as [|x l1 IH]; intros σ; [done|].
  simpl. destruct (f x σ) as [σ1|]; simpl; [apply IH | done].
Qed.

Lemma extends_lookup (P : Cell.t → Prop) (σ σ' : State) (a : nat) (c : Cache.t) :
  extends P σ σ' → cache_objs σ !! a = Some c → cache_objs σ' !! a = Some c.
Proof.
  intros (k & n & _ & -> & _) Ha. by apply lookup_app_l_Some.
Qed.

Lemma mapM_lookup_app {A} (l l' : list A) (rs : list nat) (v : list A) :
  mapM (λ r, l !! r) rs = Some v → mapM (λ r, (l ++ l') !! r) rs = Some v.
Proof.
  rewrite !mapM_Some. intros H. eapply Forall2_impl; [exact H|].
  intros r x Hr. by apply lookup_app_l_Some.
Qed.

Lemma coins_of_prefix (σ σ' : State) (a : nat) (cs k : list Coin.t) (n : list Cache.t) :
  coin_objs σ' = coin_objs σ ++ k → cache_objs σ' = cache_objs σ ++ n →
  coins_of a σ = Some cs → coins_of a σ' = Some cs.
Proof.
  intros Hk Hn. unfold coins_of. rewrite Hk, Hn.
  destruct (cache_objs σ !! a) as [c|] eqn:Ha; [|done]. simpl.
  rewrite (lookup_app_l_Some _ _ _ _ Ha). simpl. apply mapM_lookup_app.
Qed.

Lemma extends_coins_of (P : Cell.t → Prop) (σ σ' : State) (a : nat) (cs : list Coin.t) :
  extends P σ σ' → coins_of a σ = Some cs → coins_of a σ' = Some cs.
Proof. intros (k & n & Hk & Hn & _). by apply coins_of_prefix with k n. Qed.

(** A marker that [extends] added is a cache on a cell that satisfies [P]. *)
Lemma extends_markers (P : Cell.t → Prop) (σ σ' : State) (a : nat) :
  extends P σ σ' → a ∈ markers σ' →
  a ∈ markers σ ∨ ∃ c, cache_objs σ' !! a = Some c ∧ P (Cache.cell c).
Proof.
  intros (k & n & _ & Hn & HP & Hm & _). rewrite Hm, elem_of_app.
  intros [Ha|Ha]; [by left|right].
  apply elem_of_seq in Ha as [Hlo Hhi].
  destruct (lookup_lt_is_Some_2 n (a - length (cache_objs σ))) as [c Hc]; [lia|].
  exists c. split.
  - rewrite Hn, lookup_app_r by done. done.
  - eapply (proj1 (Forall_forall _ _) HP). by eapply list_elem_of_lookup_2.
Qed.

Lemma shown00_coins_of (σ σ' : State) (cs : list Coin.t) :
  shown00 σ σ' cs →
  Cache.cell <$> cache_objs σ' !! length (cache_objs σ) = Some cell00 ∧
  coins_of (length (cache_objs σ)) σ' = Some cs.
Proof.
  intros (Hk & Hn & _). unfold coins_of. rewrite Hn, Hk.
  rewrite lookup_app_r, Nat.sub_diag by done. simpl. split; [done|].
  apply lookup_new_objects.
Qed.

Lemma showCache_new00 (σ : State) (cell : nat) :
  cell_objs (board σ) !! cell = Some cell00 →
  luck "0,0" = decimal 5 (-2) →
  Map_has "0,0" (momentos σ) = false →
  ∃ σ', showCache luck cell σ = Some σ' ∧ shown00 σ σ' [coin00 0; coin00 1].
Proof.
  intros Hcell Hluck Hmem. unfold showCache. rewrite Hcell.
  cbn [mbind option_bind].
  change (Array_toString (Cell.i cell00) (Cell.j cell00)) with "0,0".
  rewrite Hluck, Hmem.
  change (ltb (decimal 5 (-2)) CACHE_SPAWN_PROBABILITY) with true.
  change (floor (mul (decimal 5 (-2)) (of_Z 30))) with (Some 1).
  cbn [mbind option_bind negb]. eexists. split; [reflexivity|].
  repeat split.
Qed.

Lemma showCache_restored00 (σ : State) (cell : nat) (cs : list Coin.t) :
  cell_objs (board σ) !! cell = Some cell00 →
  luck "0,0" = decimal 5 (-2) →
  Map_get "0,0" (momentos σ)
  = Some (JSON_stringify real_toString (JArr (map coin_to_json cs))) →
  ∃ σ', showCache luck cell σ = Some σ' ∧ shown00 σ σ' cs.
Proof.
  intros Hcell Hluck Hmem. unfold showCache. rewrite Hcell.
  cbn [mbind option_bind].
  change (Array_toString (Cell.i cell00) (Cell.j cell00)) with "0,0".
  rewrite Hluck.
  change (ltb (decimal 5 (-2)) CACHE_SPAWN_PROBABILITY) with true.
  unfold Map_has. rewrite Hmem.
  rewrite bool_decide_eq_true_2 by eauto.
  cbn [mbind option_bind negb].
  destruct (fromMomento_coins real_toString
              (createCache (Cell.i cell00) (Cell.j cell00) 0 σ).2
              (length (cache_objs σ)) cs)
    as (σ2 & Hfrom & _ & Hk & Hn & Hmom & Hmark & Hboard & Hhist & Horig & Hstore).
  { simpl. rewrite lookup_app_r, Nat.sub_diag by done. by eexists. }
  change (createCache (Cell.i cell00) (Cell.j cell00) 0 σ)
    with (length (cache_objs σ), (createCache (Cell.i cell00) (Cell.j cell00) 0 σ).2).
  cbv iota beta. rewrite Hfrom. cbn [mbind option_bind].
  eexists. split; [reflexivity|].
  simpl in Hk, Hn, Hmom, Hmark, Hboard, Hhist, Horig, Hstore.
  rewrite app_nil_r in Hk, Hn.
  unfold shown00, addCache. simpl.
  rewrite Hk, Hn, Hmom, Hmark, Hboard, Hhist, Horig, Hstore.
  split; [done|]. split; [|done].
  replace (length (cache_objs σ)) with (length (cache_objs σ) + 0)%nat at 1 by lia.
  rewrite alter_app_r. done.
Qed.

(** The cells around the player, one of them the cell (0, 0) and the others
    without a memento: the cache of (0, 0) is on the map with the coins
    [cs], it is the only cache of that cell on the map, and what the caches
    held before is as it was. *)
Lemma forEach_around (σs : State) (pre post : list nat) (x : nat) (cs : list Coin.t) :
  markers σs = [] →
  forallb (other_cell (board σs) (momentos σs)) pre = true →
  forallb (other_cell (board σs) (momentos σs)) post = true →
  (∀ σa, momentos σa = momentos σs → board σa = board σs →
         ∃ σb, showCache luck x σa = Some σb ∧ shown00 σa σb cs) →
  ∃ σc cache,
    forEach (showCache luck) (pre ++ x :: post) σs = Some σc ∧
    (momentos σc = momentos σs ∧ locHistory σc = locHistory σs ∧
     origin σc = origin σs ∧ localStorage σc = localStorage σs) ∧
    (∀ a cs0, coins_of a σs = Some cs0 → coins_of a σc = Some cs0) ∧
    (∀ a c, cache_objs σs !! a = Some c → cache_objs σc !! a = Some c) ∧
    (length (cache_objs σs) ≤ cache)%nat ∧
    cache ∈ markers σc ∧
    (∃ refs, cache_objs σc !! cache
             = Some {| Cache.cell := cell00; Cache.coins := refs;
                       Cache.toString := "0,0" |}) ∧
    coins_of cache σc = Some cs ∧
    (∀ other, other ∈ markers σc →
       Cache.cell <$> cache_objs σc !! other = Some cell00 → other = cache).
Proof.
  intros Hmark Hpre Hpost Hmid.
  apply other_cells_spec in Hpre, Hpost.
  destruct (forEach_others (λ c, c ≠ cell00) pre σs Hpre) as (σa & Hrun1 & Hext1).
  pose proof Hext1 as (k1 & n1 & Hk1 & Hn1 & _ & Hm1 & Hmom1 & Hboard1 & Hh1 & Ho1 & Hs1).
  destruct (Hmid σa Hmom1 Hboard1) as (σb & Hshow & Hshown).
  pose proof (shown00_coins_of _ _ _ Hshown) as [Hcell Hcoins].
  pose proof Hshown as (Hkb & Hnb & Hmb & Hmomb & Hboardb & Hhb & Hob & Hsb).
  destruct (forEach_others (λ c, c ≠ cell00) post σb) as (σc & Hrun2 & Hext2).
  { by rewrite Hmomb, Hboardb, Hmom1, Hboard1. }
  pose proof Hext2 as (k2 & n2 & Hk2 & Hn2 & _ & Hm2 & Hmom2 & Hboard2 & Hh2 & Ho2 & Hs2).
  exists σc, (length (cache_objs σa)).
  split.
  { rewrite forEach_app, Hrun1. simpl. rewrite Hshow. simpl. exact Hrun2. }
  split; [repeat split; congruence|].
  split.
  { intros a cs0 Ha. eapply extends_coins_of; [exact Hext2|].
    eapply coins_of_prefix; [exact Hkb | exact Hnb |].
    by eapply extends_coins_of. }
  split.
  { intros a c Ha. eapply extends_lookup; [exact Hext2|].
    rewrite Hnb. apply lookup_app_l_Some. by eapply extends_lookup. }
  split; [rewrite Hn1, length_app; lia|].
  split.
  { rewrite Hm2, Hmb. set_solver. }
  assert (Hc00 : cache_objs σb !! length (cache_objs σa)
                 = Some {| Cache.cell := cell00;
                           Cache.coins := seq (length (coin_objs σa)) (length cs);
                           Cache.toString := "0,0" |}).
  { rewrite Hnb, lookup_app_r, Nat.sub_diag by done. done. }
  split; [eexists; by apply (extends_lookup _ _ _ _ _ Hext2 Hc00)|].
  split; [by eapply extends_coins_of|].
  intros other Hother Hcell'.
  destruct (extends_markers _ _ _ _ Hext2 Hother) as [Hin|(c & Hc & HP)].
  2:{ rewrite Hc in Hcell'. simpl in Hcell'. congruence. }
  rewrite Hmb, elem_of_app, list_elem_of_singleton in Hin.
  destruct Hin as [Hin|Hin]; [|done].
  destruct (extends_markers _ _ _ _ Hext1 Hin) as [Hin'|(c & Hc & HP)].
  { rewrite Hmark in Hin'. by apply elem_of_nil in Hin'. }
  assert (Hc' : cache_objs σc !! other = Some c).
  { eapply extends_lookup; [exact Hext2|]. rewrite Hnb. by apply lookup_app_l_Some. }
  rewrite Hc' in Hcell'. simpl in Hcell'. congruence.
Qed.

(** The state does not matter to [coins_of] beyond the two heaps. *)
Lemma coins_of_ext (a : nat) (σ σ' : State) :
  cache_objs σ' = cache_objs σ → coin_objs σ' = coin_objs σ →
  coins_of a σ' = coins_of a σ.
Proof. intros H1 H2. unfold coins_of. by rewrite H1, H2. Qed.

Lemma showNearbyCaches_around (σ : State) (cs : list Coin.t) :
  board σ = createBoard → markers σ = [] →
  forallb (other_cell near_board (momentos σ)) (seq 1 136) = true →
  forallb (other_cell near_board (momentos σ)) (seq 137 119) = true →
  luck "0,0" = decimal 5 (-2) →
  (Map_has "0,0" (momentos σ) = false ∧ cs = [coin00 0; coin00 1] ∨
   Map_get "0,0" (momentos σ)
   = Some (JSON_stringify real_toString (JArr (map coin_to_json cs)))) →
  ∃ σc cache,
    showNearbyCaches luck zero_point σ = Some σc ∧
    (momentos σc = momentos σ ∧ locHistory σc = locHistory σ ∧
     origin σc = origin σ ∧ localStorage σc = localStorage σ) ∧
    (∀ a cs0, coins_of a σ = Some cs0 → coins_of a σc = Some cs0) ∧
    (∀ a c, cache_objs σ !! a = Some c → cache_objs σc !! a = Some c) ∧
    (length (cache_objs σ) ≤ cache)%nat ∧
    cache ∈ markers σc ∧
    (∃ refs, cache_objs σc !! cache
             = Some {| Cache.cell := cell00; Cache.coins := refs;
                       Cache.toString := "0,0" |}) ∧
    coins_of cache σc = Some cs ∧
    (∀ other, other ∈ markers σc →
       Cache.cell <$> cache_objs σc !! other = Some cell00 → other = cache).
Proof.
  intros Hboard Hmark Hpre Hpost Hluck Hmem.
  unfold showNearbyCaches. rewrite Hboard, near_cells_eq.
  cbn [mbind option_bind].
  destruct (forEach_around (set_board near_board σ) (seq 1 136) (seq 137 119)
              0%nat cs Hmark Hpre Hpost) as (σc & cache & Hrun & Hrest).
  { intros σa Hmoma Hboarda.
    change (momentos (set_board near_board σ)) with (momentos σ) in Hmoma.
    change (board (set_board near_board σ)) with near_board in Hboarda.
    destruct Hmem as [[Hhas ->]|Hget].
    - apply showCache_new00;
        [rewrite Hboarda; apply near_board_00 | done | by rewrite Hmoma].
    - apply showCache_restored00;
        [rewrite Hboarda; apply near_board_00 | done | by rewrite Hmoma]. }
  exists σc, cache. split; [exact Hrun | exact Hrest].
Qed.

Lemma first_session :
  luck "0,0" = decimal 5 (-2) →
  ∃ σ1 cache refs,
    main luck calculateDistance first_storage = Some σ1 ∧
    momentos σ1 = [] ∧ locHistory σ1 = [[zero_point]] ∧ origin σ1 = zero_point ∧
    localStorage σ1 = first_storage ∧
    cache_objs σ1 !! inventory = Some (inventory_obj []) ∧
    (1 ≤ cache)%nat ∧ cache ∈ markers σ1 ∧
    cache_objs σ1 !! cache = Some (cache00 refs) ∧
    coins_of cache σ1 = Some [coin00 0; coin00 1] ∧
    (∀ other, other ∈ markers σ1 →
       Cache.cell <$> cache_objs σ1 !! other = Some cell00 → other = cache).
Proof.
  intros Hluck. unfold main.
  assert (Hload : loadData (initial first_storage)
                  = Some (set_origin zero_point (initial first_storage)))
    by (vm_compute; reflexivity).
  rewrite Hload. cbn [mbind option_bind]. unfold refreshMap.
  change (origin (set_origin zero_point (initial first_storage))) with zero_point.
  set (σ0 := set_markers [] (set_origin zero_point (initial first_storage))).
  destruct (showNearbyCaches_around σ0 [coin00 0; coin00 1])
    as (σc & cache & Hshow & (Hmom & Hhist & Horig & Hstore) & _ & Hlook & Hge
        & Hin & [refs Hcache] & Hcoins & Huniq).
  - reflexivity.
  - reflexivity.
  - vm_compute. reflexivity.
  - vm_compute. reflexivity.
  - exact Hluck.
  - left. split; reflexivity.
  - rewrite Hshow. cbn [mbind option_bind].
    unfold updateLocationHistory. rewrite Hhist, Horig.
    change (locHistory σ0) with (@nil (list latlng)).
    change (origin σ0) with zero_point. cbn [last app].
    exists (set_locHistory [[zero_point]] σc), cache, refs.
    split; [reflexivity|]. split; [exact Hmom|]. split; [reflexivity|].
    split; [exact Horig|]. split; [exact Hstore|].
    split; [by apply Hlook|]. split; [exact Hge|]. split; [exact Hin|].
    split; [exact Hcache|]. split; [exact Hcoins | exact Huniq].
Qed.

Lemma collect_first (σ1 : State) (cache : nat) (refs : list nat) :
  cache_objs σ1 !! inventory = Some (inventory_obj []) →
  (1 ≤ cache)%nat →
  cache_objs σ1 !! cache = Some (cache00 refs) →
  coins_of cache σ1 = Some [coin00 0; coin00 1] →
  ∃ σ2,
    collect real_toString cache 0 σ1 = Some σ2 ∧
    coins_of cache σ2 = Some [coin00 1] ∧
    coins_of inventory σ2 = Some [coin00 0] ∧
    momentos σ2 =
      Map_set "inventory" (JSON_stringify real_toString (JArr (map coin_to_json [coin00 0])))
        (Map_set "0,0" (JSON_stringify real_toString (JArr (map coin_to_json [coin00 1])))
           (momentos σ1)) ∧
    locHistory σ2 = locHistory σ1 ∧ origin σ2 = origin σ1 ∧
    localStorage σ2 = localStorage σ1.
Proof.
  intros Hinv Hge Hcache Hcoins.
  unfold coins_of in Hcoins. rewrite Hcache in Hcoins. simpl in Hcoins.
  apply mapM_Some in Hcoins.
  apply Forall2_cons_inv_r in Hcoins as (t0 & refs1 & Ht0 & Hcoins & ->).
  apply Forall2_cons_inv_r in Hcoins as (t1 & refs2 & Ht1 & Hcoins & ->).
  apply Forall2_nil_inv_r in Hcoins as ->.
  destruct (transfer_present real_toString σ1 cache inventory t0 0
              (cache00 [t0; t1]) (inventory_obj []))
    as (σ2 & ma & mb & Ht & Ha & Hb & _ & Hheap & Hma & Hmb & Hmom & Hh & Ho & _ & _ & Hs).
  - unfold inventory. lia.
  - exact Hcache.
  - exact Hinv.
  - simpl. by rewrite decide_True.
  - apply Forall_cons. split; [eauto|]. apply Forall_cons. split; [eauto|].
    apply List.Forall_nil.
  - apply List.Forall_nil.
  - assert (Hca : coins_of cache σ2 = Some [coin00 1]).
    { unfold coins_of. rewrite Ha. simpl. by rewrite Hheap, Ht1. }
    assert (Hcb : coins_of inventory σ2 = Some [coin00 0]).
    { unfold coins_of. rewrite Hb. simpl. by rewrite Hheap, Ht0. }
    unfold toMomento in Hma, Hmb. rewrite Hca in Hma. rewrite Hcb in Hmb.
    simpl in Hma, Hmb. injection Hma as <-. injection Hmb as <-.
    exists σ2. split.
    { unfold collect. rewrite Hcache. simpl. exact Ht. }
    split; [exact Hca|]. split; [exact Hcb|]. split; [exact Hmom|]. done.
Qed.

Lemma saved_storage (σ2 : State) :
  momentos σ2 =
    Map_set "inventory" (JSON_stringify real_toString (JArr (map coin_to_json [coin00 0])))
      (Map_set "0,0" (JSON_stringify real_toString (JArr (map coin_to_json [coin00 1])))
         []) →
  locHistory σ2 = [[zero_point]] → origin σ2 = zero_point →
  localStorage σ2 = first_storage →
  localStorage (saveData real_toString σ2) = second_storage.
Proof.
  intros Hmom Hhist Horig Hstore. unfold saveData, second_storage.
  cbn [localStorage set_localStorage].
  rewrite Hmom, Hhist, Horig, Hstore. vm_compute. reflexivity.
Qed.

Lemma second_loaded_eq : loadData (initial second_storage) = Some second_loaded.
Proof. vm_compute. reflexivity. Qed.

Lemma second_loaded_fields :
  momentos second_loaded = second_momentos ∧
  locHistory second_loaded = [[zero_point]] ∧
  origin second_loaded = zero_point ∧
  board second_loaded = createBoard ∧
  coins_of inventory second_loaded = Some [coin00 0].
Proof. repeat split; vm_compute; reflexivity. Qed.

Lemma second_session :
  luck "0,0" = decimal 5 (-2) →
  ∃ σ4 cache refs,
    main luck calculateDistance second_storage = Some σ4 ∧
    coins_of inventory σ4 = Some [coin00 0] ∧
    cache ∈ markers σ4 ∧
    cache_objs σ4 !! cache = Some (cache00 refs) ∧
    coins_of cache σ4 = Some [coin00 1] ∧
    (∀ other, other ∈ markers σ4 →
       Cache.cell <$> cache_objs σ4 !! other = Some cell00 → other = cache).
Proof.
  intros Hluck. unfold main. rewrite second_loaded_eq.
  destruct second_loaded_fields as (Hmom2 & Hhist2 & Horig2 & Hboard2 & Hinv2).
  cbn [mbind option_bind]. unfold refreshMap. rewrite Horig2.
  set (σ0 := set_markers [] second_loaded).
  destruct (showNearbyCaches_around σ0 [coin00 1])
    as (σc & cache & Hshow & (Hmom & Hhist & Horig & Hstore) & Hkeep & _ & _
        & Hin & [refs Hcache] & Hcoins & Huniq).
  - exact Hboard2.
  - reflexivity.
  - change (momentos σ0) with (momentos second_loaded). rewrite Hmom2.
    vm_compute. reflexivity.
  - change (momentos σ0) with (momentos second_loaded). rewrite Hmom2.
    vm_compute. reflexivity.
  - exact Hluck.
  - right. change (momentos σ0) with (momentos second_loaded). rewrite Hmom2.
    vm_compute. reflexivity.
  - rewrite Hshow. cbn [mbind option_bind].
    assert (Hinv : coins_of inventory σc = Some [coin00 0]) by (by apply Hkeep).
    unfold updateLocationHistory. rewrite Hhist.
    change (locHistory σ0) with (locHistory second_loaded). rewrite Hhist2.
    cbn [last mbind option_bind].
    destruct (ltb _ _); eexists _, cache, refs;
      (split; [reflexivity|]); repeat split; done.
Qed.

(** C5: a session starts from a storage that holds an empty table and the
    position of latitude 0 and longitude 0.  With [luck("0,0") = 0.05] the cell (0, 0) has
    one cache on the map, with two coins of serials 0 and 1.  The player
    collects the coin of serial 0; the session is saved; a new session
    starts from what was saved.  It shows one cache on cell (0, 0), which
    holds the coin of serial 1 alone, and its inventory holds the coin of
    serial 0. *)
Theorem end_to_end :
  luck "0,0" = decimal 5 (-2) →
  ∃ σ1 cache σ2 σ4 cache',
    main luck calculateDistance first_storage = Some σ1 ∧
    cache ∈ markers σ1 ∧
    Cache.cell <$> cache_objs σ1 !! cache = Some cell00 ∧
    coins_of cache σ1 = Some [coin00 0; coin00 1] ∧
    (∀ other, other ∈ markers σ1 →
       Cache.cell <$> cache_objs σ1 !! other = Some cell00 → other = cache) ∧
    collect real_toString cache 0 σ1 = Some σ2 ∧
    coins_of cache σ2 = Some [coin00 1] ∧
    coins_of inventory σ2 = Some [coin00 0] ∧
    main luck calculateDistance (localStorage (saveData real_toString σ2)) = Some σ4 ∧
    cache' ∈ markers σ4 ∧
    Cache.cell <$> cache_objs σ4 !! cache' = Some cell00 ∧
    (∀ other, other ∈ markers σ4 →
       Cache.cell <$> cache_objs σ4 !! other = Some cell00 → other = cache') ∧
    coins_of cache' σ4 = Some [coin00 1] ∧
    coins_of inventory σ4 = Some [coin00 0].
Proof.
  intros Hluck.
  destruct (first_session Hluck)
    as (σ1 & cache & refs & Hmain1 & Hmom1 & Hhist1 & Horig1 & Hstore1 & Hinv1
        & Hge & Hin1 & Hcache1 & Hcoins1 & Huniq1).
  destruct (collect_first σ1 cache refs Hinv1 Hge Hcache1 Hcoins1)
    as (σ2 & Hcollect & Hca2 & Hcb2 & Hmom2 & Hhist2 & Horig2 & Hstore2).
  destruct (second_session Hluck)
    as (σ4 & cache' & refs' & Hmain2 & Hinv4 & Hin4 & Hcache4 & Hcoins4 & Huniq4).
  exists σ1, cache, σ2, σ4, cache'.
  split; [exact Hmain1|]. split; [exact Hin1|].
  split; [by rewrite Hcache1|]. split; [exact Hcoins1|]. split; [exact Huniq1|].
  split; [exact Hcollect|]. split; [exact Hca2|]. split; [exact Hcb2|].
  split.
  { rewrite (saved_storage σ2); [exact Hmain2 | | congruence | congruence | congruence].
    by rewrite Hmom2, Hmom1. }
  split; [exact Hin4|]. split; [by rewrite Hcache4|]. split; [exact Huniq4|].
  split; [exact Hcoins4 | exact Hinv4].
Qed.

End Session.

Lemma end_to_end_witness :
  ∃ σ1 cache σ2 σ4,
    main sample_luck sample_distance_20 first_storage = Some σ1 ∧
    coins_of cache σ1 = Some [coin00 0; coin00 1] ∧
    collect sample_real_toString cache 0 σ1 = Some σ2 ∧
    main sample_luck sample_distance_20
      (localStorage (saveData sample_real_toString σ2)) = Some σ4 ∧
    coins_of inventory σ4 = Some [coin00 0].
Proof.
  destruct (end_to_end sample_luck sample_distance_20 sample_real_toString)
    as (σ1 & cache & σ2 & σ4 & cache' & H1 & _ & _ & H2 & _ & H3 & _ & _ & H4
        & _ & _ & _ & _ & H5).
  - intros key. repeat split.
  - reflexivity.
  - exists σ1, cache, σ2, σ4. repeat split; assumption.
Defined.

(** ** Keys *)

Lemma pretty_N_char_comma (d : N) :
  (d < 10)%N → Ascii.eqb (pretty_N_char d) "," = false.
Proof.
  intros Hd.
  assert (d = 0 ∨ d = 1 ∨ d = 2 ∨ d = 3 ∨ d = 4 ∨ d = 5 ∨ d = 6 ∨ d = 7
          ∨ d = 8 ∨ d = 9)%N as Hcases by lia.
  repeat (destruct Hcases as [->|Hcases]; [done|]). by subst.
Qed.

Lemma comma_free_pretty_N_go (x : N) (s : string) :
  comma_free s = true → comma_free (pretty_N_go x s) = true.
Proof.
  revert s. induction (N.lt_wf_0 x) as [x _ IH]; intros s Hs.
  assert (x = 0 ∨ 0 < x)%N as [->|Hx] by lia.
  - by rewrite pretty_N_go_0.
  - rewrite pretty_N_go_step by done. apply IH; [by apply N.div_lt|].
    simpl. rewrite Hs, andb_true_r.
    rewrite pretty_N_char_comma; [done | by apply N.mod_lt].
Qed.

Lemma comma_free_pretty_Z (n : Z) : comma_free (pretty n) = true.
Proof.
  destruct n as [|p|p]; [done| |].
  - by apply comma_free_pretty_N_go.
  - change (pretty (Z.neg p)) with (String "-" (pretty_N_go (N.pos p) EmptyString)).
    simpl. by apply comma_free_pretty_N_go.
Qed.

(** Two texts with a comma after a part that has none: the parts before the
    first comma are the same, and so are the rests. *)
Lemma append_comma_inj (a a' b b' : string) :
  comma_free a = true → comma_free a' = true →
  a +:+ String "," b = a' +:+ String "," b' → a = a' ∧ b = b'.
Proof.
  revert a'. induction a as [|c a IH]; intros [|c' a'] Ha Ha' Heq; simpl in *.
  - by injection Heq as ->.
  - injection Heq as <- _. done.
  - injection Heq as -> _. done.
  - injection Heq as -> Heq.
    apply andb_true_iff in Ha as [_ Ha]. apply andb_true_iff in Ha' as [_ Ha'].
    destruct (IH a' Ha Ha' Heq) as [-> ->]. done.
Qed.

Lemma Array_toString_inj (i j i' j' : Z) :
  Array_toString i j = Array_toString i' j' → i = i' ∧ j = j'.
Proof.
  unfold Array_toString. intros Heq.
  apply append_comma_inj in Heq as [Hi Hj]; try apply comma_free_pretty_Z.
  split; by apply (inj pretty).
Qed.

(** ** The board keeps its cells *)

Lemma board_ok_createBoard : board_ok createBoard.
Proof.
  split; [done|]. split; [done|]. intros k c Hk. simpl in Hk.
  by rewrite lookup_empty in Hk.
Qed.

Lemma getCell_ok (i j : Z) (b : Board) :
  board_ok b →
  board_ok (getCell i j b).2 ∧
  cell_objs (getCell i j b).2 !! (getCell i j b).1 = Some (cell_at (i, j)) ∧
  ∃ new, cell_objs (getCell i j b).2 = cell_objs b ++ new.
Proof.
  intros Hok. pose proof Hok as (Hw & Hr & Hcells). unfold getCell.
  destruct (known_cells b !! Array_toString i j) as [c|] eqn:Hk; simpl.
  - split; [done|]. split; [|exists []; by rewrite app_nil_r].
    destruct (Hcells _ _ Hk) as ([ci cj] & Hc & Hkey). simpl in Hkey.
    apply Array_toString_inj in Hkey as [-> ->]. done.
  - split; [|split; [|by eexists]].
    + split; [done|]. split; [done|]. simpl. intros k c Hkc.
      destruct (decide (k = Array_toString i j)) as [->|Hne].
      * rewrite lookup_insert_eq in Hkc. injection Hkc as <-.
        exists (cell_at (i, j)). split; [|done].
        by rewrite lookup_app_r, Nat.sub_diag.
      * rewrite lookup_insert_ne in Hkc by done.
        destruct (Hcells _ _ Hkc) as (cell & Hc & Hkey).
        exists cell. split; [|done]. by apply lookup_app_l_Some.
    + by rewrite lookup_app_r, Nat.sub_diag.
Qed.

Lemma getCells_ok (ijs : list (Z * Z)) (b : Board) :
  board_ok b →
  board_ok (getCells ijs b).2 ∧
  mapM (λ c, cell_objs (getCells ijs b).2 !! c) (getCells ijs b).1
  = Some (map cell_at ijs) ∧
  ∃ new, cell_objs (getCells ijs b).2 = cell_objs b ++ new.
Proof.
  revert b. induction ijs as [|[i j] ijs IH]; intros b Hok; simpl.
  - split; [done|]. split; [done|]. exists []. by rewrite app_nil_r.
  - destruct (getCell_ok i j b Hok) as (Hok1 & Hc & new1 & Hnew1).
    destruct (getCell i j b) as [c b1]. simpl in *.
    destruct (IH b1 Hok1) as (Hok2 & Hcs & new2 & Hnew2).
    destruct (getCells ijs b1) as [cs b2]. simpl in *.
    split; [done|]. split.
    + rewrite Hnew2. rewrite (lookup_app_l_Some _ _ _ _ Hc). simpl.
      rewrite <- Hnew2, Hcs. done.
    + exists (new1 ++ new2). by rewrite Hnew2, Hnew1, <- (assoc_L (++)).
Qed.

Lemma mapM_lookup_NoDup {A} (heap : list A) (refs : list nat) (vs : list A) :
  mapM (λ r, heap !! r) refs = Some vs → NoDup vs → NoDup refs.
Proof.
  revert vs. induction refs as [|r refs IH]; intros vs Hm Hnd; [constructor|].
  simpl in Hm. destruct (heap !! r) as [v|] eqn:Hr; [|done]. simpl in Hm.
  destruct (mapM (λ r, heap !! r) refs) as [vs'|] eqn:Hrest; [|done].
  injection Hm as <-. apply NoDup_cons in Hnd as [Hv Hnd].
  constructor; [|by apply (IH vs')].
  intros Hin. apply Hv. apply mapM_Some in Hrest.
  apply list_elem_of_lookup_1 in Hin as [n Hn].
  destruct (Forall2_lookup_l _ _ _ _ _ Hrest Hn) as (v' & Hv' & Hlook).
  rewrite Hr in Hlook. injection Hlook as ->. by apply list_elem_of_lookup_2 in Hv'.
Qed.

Lemma offsets_NoDup : NoDup (offsets NEIGHBORHOOD_SIZE).
Proof. apply (bool_decide_unpack _). vm_compute. reflexivity. Qed.

Lemma cell_at_add_inj (i0 j0 : Z) :
  Inj (=) (=) (λ '(di, dj), cell_at (di + i0, dj + j0)).
Proof. intros [a b] [a' b'] Heq. injection Heq as ? ?. f_equal; lia. Qed.

Lemma getCellsNearPoint_ok (point : latlng) (b : Board) (i0 j0 : Z) :
  board_ok b →
  floor (div (lat point) TILE_DEGREES) = Some i0 →
  floor (div (lng point) TILE_DEGREES) = Some j0 →
  ∃ cells b',
    getCellsNearPoint point b = Some (cells, b') ∧
    board_ok b' ∧
    mapM (λ c, cell_objs b' !! c) cells
    = Some (map (λ '(di, dj), cell_at (di + i0, dj + j0)) (offsets NEIGHBORHOOD_SIZE)) ∧
    NoDup cells ∧
    ∃ new, cell_objs b' = cell_objs b ++ new.
Proof.
  intros Hok Hi Hj. pose proof Hok as (Hw & Hr & _).
  unfold getCellsNearPoint, getCellFromPoint. rewrite Hw, Hi, Hj.
  cbn [mbind option_bind].
  destruct (getCell_ok i0 j0 b Hok) as (Hok1 & Hc & new1 & Hnew1).
  destruct (getCell i0 j0 b) as [c b1]. cbn [fst snd] in *. rewrite Hc.
  cbn [mbind option_bind Cell.i Cell.j cell_at fst snd].
  pose proof Hok1 as (_ & Hr1 & _). rewrite Hr1.
  set (ijs := map _ (offsets NEIGHBORHOOD_SIZE)).
  destruct (getCells_ok ijs b1 Hok1) as (Hok2 & Hcs & new2 & Hnew2).
  destruct (getCells ijs b1) as [cs b2] eqn:Hg. cbn [fst snd] in *.
  assert (Hmap : map cell_at ijs
                 = map (λ '(di, dj), cell_at (di + i0, dj + j0))
                     (offsets NEIGHBORHOOD_SIZE)).
  { unfold ijs. rewrite map_map. apply map_ext. by intros [di dj]. }
  exists cs, b2. split; [done|]. split; [done|]. split; [by rewrite Hcs, Hmap|].
  split.
  - apply (mapM_lookup_NoDup _ _ _ Hcs). rewrite Hmap.
    apply (NoDup_fmap_2 _ (Inj0 := cell_at_add_inj i0 j0)), offsets_NoDup.
  - exists (new1 ++ new2). by rewrite Hnew2, Hnew1, <- (assoc_L (++)).
Qed.

Lemma getCell_same (i j i' j' : Z) (b : Board) :
  board_ok b →
  (getCell i j b).1 = (getCell i' j' (getCell i j b).2).1 ↔ i = i' ∧ j = j'.
Proof.
  intros Hok.
  destruct (getCell_ok i j b Hok) as (Hok1 & Hc & new1 & Hnew1).
  destruct (getCell_ok i' j' _ Hok1) as (Hok2 & Hc' & new2 & Hnew2).
  split.
  - intros Heq. rewrite <- Heq in Hc'.
    rewrite Hnew2 in Hc'. rewrite (lookup_app_l_Some _ _ _ _ Hc) in Hc'.
    by injection Hc' as -> ->.
  - intros [<- <-]. pose proof (getCell_returns_known i j b) as Hk.
    unfold getCell at 2. by rewrite Hk.
Qed.

(** The keys a board knows are those of the calls that were made. *)
Lemma getCell_keys (i j : Z) (b : Board) (k : string) :
  is_Some (known_cells (getCell i j b).2 !! k) →
  is_Some (known_cells b !! k) ∨ k = Array_toString i j.
Proof.
  unfold getCell.
  destruct (known_cells b !! Array_toString i j) eqn:Hk; cbn; [by left|].
  destruct (decide (k = Array_toString i j)) as [->|Hne]; [by right|].
  rewrite lookup_insert_ne by done. by left.
Qed.

Lemma getCells_keys (calls : list (Z * Z)) (b : Board) (k : string) :
  is_Some (known_cells (getCells calls b).2 !! k) →
  is_Some (known_cells b !! k) ∨
  ∃ i j, (i, j) ∈ calls ∧ k = Array_toString i j.
Proof.
  revert b. induction calls as [|[i j] calls IH]; intros b; cbn; [by left|].
  pose proof (getCell_keys i j b k) as H1.
  destruct (getCell i j b) as [c b1]. cbn in H1.
  specialize (IH b1). destruct (getCells calls b1) as [cs b2]. cbn in *.
  intros Hk. destruct (IH Hk) as [Hk1|(i' & j' & Hin & ->)].
  - destruct (H1 Hk1) as [Hk0| ->]; [by left|].
    right. exists i, j. split; [by left | done].
  - right. exists i', j'. split; [by right | done].
Qed.

Lemma getCells_makes_known (calls : list (Z * Z)) (b : Board) (i j : Z) :
  (i, j) ∈ calls → is_Some (known_cells (getCells calls b).2 !! Array_toString i j).
Proof.
  revert b. induction calls as [|[i' j'] calls IH]; intros b Hin; cbn.
  { by apply elem_of_nil in Hin. }
  pose proof (getCell_returns_known i' j' b) as H1.
  destruct (getCell i' j' b) as [c b1] eqn:Hg. cbn in H1.
  apply elem_of_cons in Hin as [[= -> ->]|Hin].
  - pose proof (getCells_known calls b1 _ _ H1) as H2.
    destruct (getCells calls b1) as [cs b2]. cbn in *. by eexists.
  - specialize (IH b1 Hin). by destruct (getCells calls b1) as [cs b2].
Qed.

Lemma getCells_board_ok (calls : list (Z * Z)) : board_ok (getCells calls createBoard).2.
Proof. apply getCells_ok, board_ok_createBoard. Qed.

(** C8: on a board the session has made ([createBoard], then any calls of
    [getCell]), the first call for [(i, j)] makes a new cell object with the
    coordinates [(i, j)] and keeps it under the key of [(i, j)]; a call for
    coordinates that were asked before makes nothing.  The cell returned
    has the coordinates [(i, j)].  Every later call for [(i, j)], whatever
    other cells are asked in between, returns the same object and leaves
    the board as it is; a call for other coordinates never returns that
    object. *)
Theorem getCell_canonical (calls more : list (Z * Z)) (i j : Z) :
  let b := (getCells calls createBoard).2 in
  let c1 := (getCell i j b).1 in
  let b1 := (getCell i j b).2 in
  let b2 := (getCells more b1).2 in
  ((i, j) ∉ calls →
     known_cells b !! Array_toString i j = None ∧
     c1 = length (cell_objs b) ∧
     known_cells b1 = <[Array_toString i j := c1]> (known_cells b) ∧
     cell_objs b1 = cell_objs b ++ [{| Cell.i := i; Cell.j := j |}]) ∧
  ((i, j) ∈ calls → b1 = b) ∧
  cell_objs b1 !! c1 = Some {| Cell.i := i; Cell.j := j |} ∧
  getCell i j b1 = (c1, b1) ∧
  getCell i j b2 = (c1, b2) ∧
  cell_objs b2 !! c1 = Some {| Cell.i := i; Cell.j := j |} ∧
  (∀ i' j', (getCell i' j' b2).1 = c1 ↔ i' = i ∧ j' = j).
Proof.
  intros b c1 b1 b2.
  pose proof (getCells_board_ok calls) as Hok. fold b in Hok.
  destruct (getCell_ok i j b Hok) as (Hok1 & Hc1 & new1 & Hnew1).
  fold b1 c1 in Hok1, Hc1, Hnew1.
  destruct (getCells_ok more b1 Hok1) as (Hok2 & _ & new2 & Hnew2).
  fold b2 in Hok2, Hnew2.
  pose proof (getCell_returns_known i j b) as Hk1. fold b1 c1 in Hk1.
  assert (Hsame1 : getCell i j b1 = (c1, b1)) by (by apply getCell_of_known).
  assert (Hsame2 : getCell i j b2 = (c1, b2)).
  { apply getCell_of_known. by apply getCells_known. }
  assert (Hc2 : cell_objs b2 !! c1 = Some {| Cell.i := i; Cell.j := j |}).
  { rewrite Hnew2. by apply lookup_app_l_Some. }
  split; [|split; [|split; [|split; [|split; [|split]]]]]; try done.
  - intros Hnot.
    assert (Hnone : known_cells b !! Array_toString i j = None).
    { destruct (known_cells b !! Array_toString i j) as [c|] eqn:Hk; [|done].
      destruct (getCells_keys calls createBoard (Array_toString i j))
        as [[? Hempty]|(i' & j' & Hin & Heq)].
      - fold b. by eexists.
      - cbn in Hempty. by rewrite lookup_empty in Hempty.
      - apply Array_toString_inj in Heq as [-> ->]. done. }
    split; [done|]. subst c1 b1. unfold getCell. rewrite Hnone. done.
  - intros Hin. destruct (getCells_makes_known calls createBoard i j Hin) as [c Hc].
    fold b in Hc. subst b1. by rewrite (getCell_of_known i j b c Hc).
  - intros i' j'. split.
    + intros Heq.
      destruct (getCell_ok i' j' b2 Hok2) as (_ & Hc' & new3 & Hnew3).
      rewrite Heq, Hnew3, (lookup_app_l_Some _ _ _ _ Hc2) in Hc'.
      by injection Hc' as -> ->.
    + intros [-> ->]. by rewrite Hsame2.
Qed.

(** ** Showing the caches of the cells *)

Lemma alter_last {A} (f : A → A) (l : list A) (x : A) :
  alter f (length l) (l ++ [x]) = l ++ [f x].
Proof.
  replace (length l) with (length l + 0)%nat by lia. by rewrite alter_app_r.
Qed.

Section ShowCache.
Variable luck : string → number.

(** What [showCache] does, in one equation. *)
Lemma showCache_eq (σ : State) (cell : nat) (c : Cell.t) :
  cell_objs (board σ) !! cell = Some c →
  showCache luck cell σ
  = if lucky luck c
    then cs ← shown_coins luck (momentos σ) c; Some (with_cache c cs σ)
    else Some σ.
Proof.
  intros Hcell. unfold showCache, lucky, shown_coins, cell_key. rewrite Hcell.
  cbn [mbind option_bind]. destruct (ltb _ _); [|done].
  unfold Map_has.
  destruct (Map_get (Array_toString (Cell.i c) (Cell.j c)) (momentos σ))
    as [momento|] eqn:Hget.
  - rewrite bool_decide_eq_true_2 by eauto. cbn [negb mbind option_bind].
    unfold createCache, fromMomento, momento_coins, JSON_parse.
    change (range 0 0) with (@nil Z). cbn [map length seq].
    destruct (JSON.parse momento) as [v|]; [|done]. cbn [mbind option_bind].
    destruct (json_array v) as [vs|]; [|done]. cbn [mbind option_bind].
    destruct (mapM coin_of_json vs) as [cs|]; [|done]. cbn [mbind option_bind].
    cbn [cache_objs set_cache_objs set_coin_objs coin_objs].
    rewrite lookup_app_r, Nat.sub_diag by done. cbn [lookup list_lookup mbind option_bind].
    f_equal. unfold with_cache, addCache, set_coins, set_markers, set_cache_objs,
      set_coin_objs, with_coins, cell_key; cbn.
    rewrite alter_last, !app_nil_r. cbn. by destruct c.
  - rewrite bool_decide_eq_false_2 by (by intros [? ?]).
    cbn [negb mbind option_bind].
    destruct (floor _) as [n|]; [|done]. cbn [mbind option_bind].
    f_equal. unfold with_cache, createCache, addCache, new_coins, cell_key.
    cbn. by destruct c.
Qed.

End ShowCache.

Lemma with_cache_lookup (c : Cell.t) (cs : list Coin.t) (σ : State) :
  cache_objs (with_cache c cs σ) !! length (cache_objs σ)
  = Some {| Cache.cell := c;
            Cache.coins := seq (length (coin_objs σ)) (length cs);
            Cache.toString := cell_key c |} ∧
  coins_of (length (cache_objs σ)) (with_cache c cs σ) = Some cs.
Proof.
  assert (Hl : cache_objs (with_cache c cs σ) !! length (cache_objs σ)
               = Some {| Cache.cell := c;
                         Cache.coins := seq (length (coin_objs σ)) (length cs);
                         Cache.toString := cell_key c |}).
  { cbn. by rewrite lookup_app_r, Nat.sub_diag. }
  split; [exact Hl|]. unfold coins_of. rewrite Hl. cbn.
  apply lookup_new_objects.
Qed.

(** What a sequence of new caches leaves as it was, and what it adds. *)
Lemma with_caches_spec (l : list (Cell.t * list Coin.t)) (σ : State) :
  (∃ new, coin_objs (with_caches l σ) = coin_objs σ ++ new) ∧
  (∃ new, cache_objs (with_caches l σ) = cache_objs σ ++ new ∧
          length new = length l) ∧
  markers (with_caches l σ) = markers σ ++ seq (length (cache_objs σ)) (length l) ∧
  momentos (with_caches l σ) = momentos σ ∧
  board (with_caches l σ) = board σ ∧
  locHistory (with_caches l σ) = locHistory σ ∧
  origin (with_caches l σ) = origin σ ∧
  localStorage (with_caches l σ) = localStorage σ ∧
  ∀ k p, l !! k = Some p →
    ∃ cache,
      cache_objs (with_caches l σ) !! (length (cache_objs σ) + k)%nat = Some cache ∧
      Cache.cell cache = p.1 ∧ Cache.toString cache = cell_key p.1 ∧
      coins_of (length (cache_objs σ) + k) (with_caches l σ) = Some p.2.
Proof.
  revert σ. induction l as [|[c cs] l IH]; intros σ.
  - unfold with_caches. cbn [foldl length seq].
    split; [exists []; by rewrite app_nil_r|].
    split; [exists []; by rewrite app_nil_r|].
    rewrite app_nil_r. repeat split; done.
  - change (with_caches ((c, cs) :: l) σ) with (with_caches l (with_cache c cs σ)).
    destruct (IH (with_cache c cs σ))
      as ([k1 Hk] & (n1 & Hn & Hlen) & Hm & Hmom & Hb & Hh & Ho & Hs & Hnew).
    assert (Hlen1 : length (cache_objs (with_cache c cs σ))
                    = S (length (cache_objs σ))).
    { cbn. rewrite length_app. simpl. lia. }
    split; [exists (cs ++ k1); by rewrite Hk, (assoc_L (++))|].
    split.
    { eexists (_ :: n1). split; [|simpl; by rewrite Hlen].
      rewrite Hn. cbn. by rewrite <- (assoc_L (++)). }
    split.
    { rewrite Hm, Hlen1. cbn. by rewrite <- (assoc_L (++)). }
    split; [by rewrite Hmom|]. split; [by rewrite Hb|]. split; [by rewrite Hh|].
    split; [by rewrite Ho|]. split; [by rewrite Hs|].
    intros [|k] p Hp.
    + injection Hp as <-. rewrite Nat.add_0_r.
      destruct (with_cache_lookup c cs σ) as [Hl Hc].
      eexists. split; [rewrite Hn; by apply lookup_app_l_Some|].
      split; [done|]. split; [done|].
      by apply (coins_of_prefix (with_cache c cs σ) _ _ _ k1 n1).
    + destruct (Hnew k p Hp) as (cache & Hl & Hcell & Hstr & Hcoins).
      rewrite Hlen1 in Hl, Hcoins.
      replace (length (cache_objs σ) + S k)%nat
        with (S (length (cache_objs σ)) + k)%nat by lia.
      by exists cache.
Qed.

Section ShowCaches.
Variable luck : string → number.

(** The loop of [showNearbyCaches]: a new cache for each lucky cell, in the
    order of the cells; it throws when a memento it needs does not read. *)
Lemma forEach_showCache (cells : list nat) (cs : list Cell.t) (σ : State) :
  mapM (λ cell, cell_objs (board σ) !! cell) cells = Some cs →
  forEach (showCache luck) cells σ
  = l ← mapM (λ c, coins ← shown_coins luck (momentos σ) c; Some (c, coins))
           (List.filter (lucky luck) cs);
    Some (with_caches l σ).
Proof.
  revert cs σ. induction cells as [|cell cells IH]; intros cs σ Hcells.
  - injection Hcells as <-. reflexivity.
  - cbn in Hcells.
    destruct (cell_objs (board σ) !! cell) as [c|] eqn:Hcell; [|done].
    cbn in Hcells.
    destruct (mapM (λ cell, cell_objs (board σ) !! cell) cells) as [cs'|] eqn:Hrest;
      [|done].
    injection Hcells as <-.
    cbn [forEach]. rewrite (showCache_eq luck σ cell c Hcell).
    cbn [List.filter]. destruct (lucky luck c).
    + cbn [mapM]. destruct (shown_coins luck (momentos σ) c) as [coins|];
        [|reflexivity].
      cbn [mbind option_bind]. rewrite (IH cs' (with_cache c coins σ) Hrest).
      change (momentos (with_cache c coins σ)) with (momentos σ).
      destruct (mapM _ (List.filter (lucky luck) cs')) as [l|]; reflexivity.
    + cbn [mbind option_bind]. by apply IH.
Qed.

End ShowCaches.

(** ** The trail *)

Section TrailGrows.
Variable calculateDistance : latlng → latlng → number.

Lemma concat_snoc {A} (ls : list (list A)) (l : list A) :
  concat (ls ++ [l]) = concat ls ++ l.
Proof. by rewrite concat_app, concat_cons, app_nil_r. Qed.

Lemma last_Some_snoc {A} (l : list A) (x : A) :
  last l = Some x → ∃ l', l = l' ++ [x].
Proof.
  intros Hl. destruct l as [|y l] using rev_ind; [done|].
  rewrite last_snoc in Hl. injection Hl as ->. by exists l.
Qed.

(** What [updateLocationHistory] does when it returns. *)
Lemma updateLocationHistory_Some (σ σ' : State) :
  updateLocationHistory calculateDistance σ = Some σ' →
  concat (locHistory σ') = concat (locHistory σ) ++ [origin σ] ∧
  (trail_ok (locHistory σ) → trail_ok (locHistory σ')) ∧
  (length (locHistory σ) ≤ length (locHistory σ') ≤ length (locHistory σ) + 1)%nat ∧
  σ' = set_locHistory (locHistory σ') σ.
Proof.
  unfold updateLocationHistory, trail_ok.
  destruct (last (locHistory σ)) as [lastPos|] eqn:Hlast.
  - apply last_Some_snoc in Hlast as [lines Hlines].
    destruct (last lastPos) as [p|]; [|done]. cbn [mbind option_bind].
    assert (Hnew : ∀ σ', Some (set_locHistory (locHistory σ ++ [[origin σ]]) σ) = Some σ' →
      concat (locHistory σ') = concat (locHistory σ) ++ [origin σ] ∧
      (Forall (λ line, line ≠ []) (locHistory σ) →
       Forall (λ line, line ≠ []) (locHistory σ')) ∧
      (length (locHistory σ) ≤ length (locHistory σ') ≤ length (locHistory σ) + 1)%nat ∧
      σ' = set_locHistory (locHistory σ') σ).
    { intros ? [= <-]. cbn. rewrite concat_snoc, length_app. cbn.
      split; [done|]. split; [|split; [lia | done]].
      intros Hok. apply Forall_app. split; [done|]. by apply Forall_singleton. }
    destruct (ltb _ _); [|by apply Hnew].
    intros [= <-]. cbn. rewrite Hlines.
    rewrite length_app. cbn [length].
    replace (pred (length lines + 1)) with (length lines + 0)%nat by lia.
    rewrite insert_app_r. cbn [insert list_insert].
    rewrite !concat_snoc, !length_app, <- (assoc_L (++)). cbn [length].
    split; [done|]. split; [|split; [lia|done]].
    intros [Hok _]%Forall_app. apply Forall_app. split; [done|].
    apply Forall_singleton. by destruct lastPos.
  - intros [= <-]. cbn. rewrite concat_snoc, length_app. cbn.
    split; [done|]. split; [|split; [lia | done]].
    intros Hok. apply Forall_app. split; [done|]. by apply Forall_singleton.
Qed.

(** It returns on a trail with no empty polyline. *)
Lemma updateLocationHistory_returns (σ : State) :
  trail_ok (locHistory σ) → is_Some (updateLocationHistory calculateDistance σ).
Proof.
  unfold updateLocationHistory, trail_ok. intros Hok.
  destruct (last (locHistory σ)) as [lastPos|] eqn:Hlast; [|by eexists].
  apply last_Some_snoc in Hlast as [lines Hlines]. rewrite Hlines in Hok.
  apply Forall_app in Hok as [_ Hlast]. rewrite Forall_singleton in Hlast.
  destruct (last lastPos) as [p|] eqn:Hp; [|exfalso; apply Hlast; by apply last_None].
  cbn [mbind option_bind]. destruct (ltb _ _); by eexists.
Qed.

End TrailGrows.

(** ** Refreshing the map *)

Section Refresh.
Variable luck : string → number.
Variable calculateDistance : latlng → latlng → number.

(** The loop of [showNearbyCaches], when it returns, has added caches. *)
Lemma forEach_showCache_Some (cells : list nat) (σ σ' : State) :
  forEach (showCache luck) cells σ = Some σ' → ∃ l, σ' = with_caches l σ.
Proof.
  revert σ. induction cells as [|cell cells IH]; intros σ.
  - intros [= <-]. by exists [].
  - cbn [forEach].
    destruct (cell_objs (board σ) !! cell) as [c|] eqn:Hcell;
      [|by unfold showCache; rewrite Hcell].
    rewrite (showCache_eq luck σ cell c Hcell).
    destruct (lucky luck c); [|by apply IH].
    destruct (shown_coins luck (momentos σ) c) as [coins|]; [|done].
    cbn [mbind option_bind]. intros [l ->]%IH. by exists ((c, coins) :: l).
Qed.

Lemma showNearbyCaches_eq (coord : latlng) (σ : State) (i0 j0 : Z) :
  board_ok (board σ) →
  floor (div (lat coord) TILE_DEGREES) = Some i0 →
  floor (div (lng coord) TILE_DEGREES) = Some j0 →
  ∃ b',
    board_ok b' ∧
    showNearbyCaches luck coord σ
    = l ← shown_caches luck (momentos σ) (near_cells i0 j0);
      Some (with_caches l (set_board b' σ)).
Proof.
  intros Hok Hi Hj.
  destruct (getCellsNearPoint_ok coord (board σ) i0 j0 Hok Hi Hj)
    as (cells & b' & Hnear & Hok' & Hcells & _).
  exists b'. split; [done|]. unfold showNearbyCaches. rewrite Hnear.
  cbn [mbind option_bind].
  by rewrite (forEach_showCache luck cells _ (set_board b' σ) Hcells).
Qed.

End Refresh.

(** ** What a session keeps *)

Lemma momento_coins_text (real_toString : number → string) (cs : list Coin.t) :
  momento_coins (JSON_stringify real_toString (JArr (map coin_to_json cs))) = Some cs.
Proof.
  unfold momento_coins, JSON_stringify.
  rewrite JSON_parse_stringify by apply coin_to_json_plain. cbn.
  apply mapM_fmap_Some, coin_of_to_json.
Qed.

Lemma toMomento_coins (real_toString : number → string) (a : nat) (σ : State)
    (m : string) :
  toMomento real_toString a σ = Some m →
  ∃ cs, coins_of a σ = Some cs ∧ momento_coins m = Some cs.
Proof.
  unfold toMomento. destruct (coins_of a σ) as [cs|]; [|done].
  intros [= <-]. exists cs. split; [done|]. apply momento_coins_text.
Qed.

Lemma cell_key_inj (c c' : Cell.t) : cell_key c = cell_key c' → c = c'.
Proof.
  destruct c as [i j], c' as [i' j']. unfold cell_key. cbn.
  by intros [-> ->]%Array_toString_inj.
Qed.

Lemma cell_key_not_inventory (c : Cell.t) : cell_key c ≠ "inventory".
Proof.
  unfold cell_key, Array_toString. intros Heq.
  destruct (pretty_Z_head (Cell.i c)) as (ch & r & Hhead & Hnum).
  rewrite Hhead in Heq. cbn in Heq. injection Heq as -> _. done.
Qed.

Lemma table_ok_set (k v : string) (m : list (string * string)) :
  table_ok m → is_Some (momento_coins v) → table_ok (Map_set k v m).
Proof.
  unfold table_ok. intros Hm Hv. induction Hm as [|[k' v'] m Hkv Hm IH]; cbn.
  - by apply Forall_singleton.
  - destruct (decide (k = k')); constructor; done.
Qed.

Lemma table_ok_get (k v : string) (m : list (string * string)) :
  table_ok m → Map_get k m = Some v → is_Some (momento_coins v).
Proof.
  unfold table_ok. induction 1 as [|[k' v'] m Hkv Hm IH]; cbn; [done|].
  destruct (decide (k = k')); [by intros [= <-] | done].
Qed.

Lemma near_cells_NoDup (i0 j0 : Z) : NoDup (near_cells i0 j0).
Proof.
  unfold near_cells.
  apply (NoDup_fmap_2 _ (Inj0 := cell_at_add_inj i0 j0)), offsets_NoDup.
Qed.

Lemma filter_NoDup {A} (f : A → bool) (l : list A) :
  NoDup l → NoDup (List.filter f l).
Proof.
  induction 1 as [|x l Hx Hl IH]; cbn; [constructor|].
  destruct (f x); [|done]. constructor; [|done].
  intros Hin. apply Hx. apply list_elem_of_In in Hin.
  apply list_elem_of_In. by apply filter_In in Hin as [? _].
Qed.

(** Two caches on the map are not on the same cell. *)
Lemma markers_distinct (luck : string → number) (σ : State) (m m' : nat)
    (cache cache' : Cache.t) :
  map_ok luck σ → m ∈ markers σ → m' ∈ markers σ →
  cache_objs σ !! m = Some cache → cache_objs σ !! m' = Some cache' →
  Cache.cell cache = Cache.cell cache' → m = m'.
Proof.
  intros [(i0 & j0 & _ & _ & Hcells) _] Hm Hm' Hc Hc' Heq.
  apply mapM_Some in Hcells.
  apply list_elem_of_lookup_1 in Hm as [p Hp].
  apply list_elem_of_lookup_1 in Hm' as [p' Hp'].
  destruct (Forall2_lookup_l _ _ _ _ _ Hcells Hp) as (c & Hcp & Hcell).
  destruct (Forall2_lookup_l _ _ _ _ _ Hcells Hp') as (c' & Hcp' & Hcell').
  rewrite Hc in Hcell. rewrite Hc' in Hcell'. cbn in Hcell, Hcell'.
  injection Hcell as <-. injection Hcell' as <-. rewrite <- Heq in Hcp'.
  assert (p = p') as <-.
  { eapply NoDup_lookup; [|exact Hcp|exact Hcp'].
    apply filter_NoDup, near_cells_NoDup. }
  rewrite Hp in Hp'. by injection Hp'.
Qed.

Lemma allocated_ext (σ σ' : State) (cs : list nat) :
  coin_objs σ' = coin_objs σ → allocated σ cs → allocated σ' cs.
Proof. unfold allocated. by intros ->. Qed.

(** What a transfer of a coin that is in [a] leaves behind. *)
Lemma transfer_effect (real_toString : number → string) (σ : State)
    (a b coin index : nat) (ca cb : Cache.t) :
  a ≠ b →
  cache_objs σ !! a = Some ca → cache_objs σ !! b = Some cb →
  indexOf coin (Cache.coins ca) = Some index →
  heap_ok σ →
  ∃ σ' csa csb,
    transfer real_toString a b coin σ = Some σ' ∧
    heap_ok σ' ∧
    coins_of a σ' = Some csa ∧ coins_of b σ' = Some csb ∧
    momentos σ'
    = Map_set (Cache.toString cb)
        (JSON_stringify real_toString (JArr (map coin_to_json csb)))
        (Map_set (Cache.toString ca)
           (JSON_stringify real_toString (JArr (map coin_to_json csa)))
           (momentos σ)) ∧
    (∀ x, x ≠ a → x ≠ b → cache_objs σ' !! x = cache_objs σ !! x) ∧
    (∀ x, Cache.cell <$> cache_objs σ' !! x = Cache.cell <$> cache_objs σ !! x) ∧
    (∀ x, Cache.toString <$> cache_objs σ' !! x
          = Cache.toString <$> cache_objs σ !! x) ∧
    coin_objs σ' = coin_objs σ ∧
    locHistory σ' = locHistory σ ∧ origin σ' = origin σ ∧ board σ' = board σ ∧
    markers σ' = markers σ ∧ localStorage σ' = localStorage σ.
Proof.
  intros Hab Ha Hb Hidx Hheap.
  destruct (transfer_present real_toString σ a b coin index ca cb Hab Ha Hb Hidx
              (Hheap a ca Ha) (Hheap b cb Hb))
    as (σ' & ma & mb & Ht & Ha' & Hb' & Hothers & Hcoins & Hma & Hmb & Hmom & Hrest).
  unfold toMomento in Hma, Hmb.
  destruct (coins_of a σ') as [csa|] eqn:Hcsa; [|done].
  destruct (coins_of b σ') as [csb|] eqn:Hcsb; [|done].
  cbn in Hma, Hmb. injection Hma as <-. injection Hmb as <-.
  exists σ', csa, csb. split; [exact Ht|].
  assert (Hcoin : is_Some (coin_objs σ !! coin)).
  { eapply (proj1 (Forall_forall _ _) (Hheap a ca Ha)).
    eapply list_elem_of_lookup_2. by apply indexOf_Some. }
  split.
  { intros x cache Hx. apply (allocated_ext σ); [done|].
    destruct (decide (x = a)) as [->|Hxa].
    - rewrite Ha' in Hx. injection Hx as <-. cbn.
      apply Forall_delete. by apply (Hheap a ca).
    - destruct (decide (x = b)) as [->|Hxb].
      + rewrite Hb' in Hx. injection Hx as <-. cbn.
        apply Forall_app. split; [by apply (Hheap b cb)|].
        by apply Forall_singleton.
      + rewrite Hothers in Hx by done. by apply (Hheap x). }
  split; [done|]. split; [done|]. split; [exact Hmom|]. split; [exact Hothers|].
  split.
  { intros x. destruct (decide (x = a)) as [->|Hxa]; [by rewrite Ha', Ha|].
    destruct (decide (x = b)) as [->|Hxb]; [by rewrite Hb', Hb|].
    by rewrite Hothers. }
  split.
  { intros x. destruct (decide (x = a)) as [->|Hxa]; [by rewrite Ha', Ha|].
    destruct (decide (x = b)) as [->|Hxb]; [by rewrite Hb', Hb|].
    by rewrite Hothers. }
  split; [exact Hcoins|]. exact Hrest.
Qed.

(** The coins of a cache are read from its object and the heap of coins. *)
Lemma coins_of_same (σ σ' : State) (x : nat) :
  cache_objs σ' !! x = cache_objs σ !! x → coin_objs σ' = coin_objs σ →
  coins_of x σ' = coins_of x σ.
Proof. intros Hx Hc. unfold coins_of. by rewrite Hx, Hc. Qed.

Lemma shown_coins_ext (luck : string → number) (m m' : list (string * string))
    (c : Cell.t) :
  Map_get (cell_key c) m' = Map_get (cell_key c) m →
  shown_coins luck m' c = shown_coins luck m c.
Proof. intros H. unfold shown_coins. by rewrite H. Qed.

Section Keeps.
Variable luck : string → number.
Variable calculateDistance : latlng → latlng → number.
Variable real_toString : number → string.

(** A transfer between the inventory and a cache on the map, in either
    direction, returns and keeps the session as it should be. *)
Lemma transfer_keeps (σ : State) (m a b coin : nat) :
  stored_ok σ → map_ok luck σ → m ∈ markers σ →
  (a = m ∧ b = inventory) ∨ (a = inventory ∧ b = m) →
  ∃ σ',
    transfer real_toString a b coin σ = Some σ' ∧
    stored_ok σ' ∧ map_ok luck σ' ∧
    markers σ' = markers σ ∧ origin σ' = origin σ.
Proof.
  intros Hst Hmap Hm Hdir.
  pose proof Hst as (Hboard & Hheap & Htrail & Htable & inv & Hinv & Hinvkey & _ & Hinvsync).
  pose proof Hmap as [(i0 & j0 & Hi0 & Hj0 & Hcells) Hmarkers].
  destruct (Hmarkers m Hm) as (Hmi & cm & Hcm & Hmkey & _ & Hmsync).
  assert (∃ ca cb, cache_objs σ !! a = Some ca ∧ cache_objs σ !! b = Some cb ∧ a ≠ b)
    as (ca & cb & Ha & Hb & Hab).
  { destruct Hdir as [[-> ->]|[-> ->]]; eauto. }
  destruct (indexOf coin (Cache.coins ca)) as [index|] eqn:Hidx; cycle 1.
  { exists σ. split; [by apply transfer_not_found with ca|]. done. }
  destruct (transfer_effect real_toString σ a b coin index ca cb Hab Ha Hb Hidx Hheap)
    as (σ' & csa & csb & Ht & Hheap' & Hcsa & Hcsb & Hmom & Hothers & Hcell & Hstr
        & Hcoins & Hh & Ho & Hb' & Hmk & Hls).
  exists σ'. split; [exact Ht|].
  set (K := cell_key (Cache.cell cm)).
  (* the table after the transfer, at the three kinds of keys *)
  assert (∃ csm csi,
            coins_of m σ' = Some csm ∧ coins_of inventory σ' = Some csi ∧
            Map_get K (momentos σ') = Some (JSON_stringify real_toString
                                              (JArr (map coin_to_json csm))) ∧
            Map_get "inventory" (momentos σ')
            = Some (JSON_stringify real_toString (JArr (map coin_to_json csi))) ∧
            ∀ k, k ≠ K → k ≠ "inventory" →
                 Map_get k (momentos σ') = Map_get k (momentos σ))
    as (csm & csi & Hcm' & Hci' & HgetK & HgetI & HgetO).
  { pose proof (cell_key_not_inventory (Cache.cell cm)) as HK. fold K in HK.
    destruct Hdir as [[-> ->]|[-> ->]].
    - rewrite Hcm in Ha. injection Ha as <-. rewrite Hinv in Hb. injection Hb as <-.
      rewrite Hmkey, Hinvkey in Hmom. fold K in Hmom.
      exists csa, csb. split; [done|]. split; [done|]. rewrite Hmom. split.
      { rewrite Map_get_set_ne by done. apply Map_get_set_eq. }
      split; [apply Map_get_set_eq|].
      intros k Hk1 Hk2. by rewrite !Map_get_set_ne.
    - rewrite Hcm in Hb. injection Hb as <-. rewrite Hinv in Ha. injection Ha as <-.
      rewrite Hmkey, Hinvkey in Hmom. fold K in Hmom.
      exists csb, csa. split; [done|]. split; [done|]. rewrite Hmom. split.
      { apply Map_get_set_eq. }
      split; [rewrite Map_get_set_ne by done; apply Map_get_set_eq|].
      intros k Hk1 Hk2. by rewrite !Map_get_set_ne. }
  assert (Hcache : ∀ x c, cache_objs σ !! x = Some c →
            ∃ c', cache_objs σ' !! x = Some c' ∧ Cache.cell c' = Cache.cell c ∧
                  Cache.toString c' = Cache.toString c).
  { intros x c Hx. pose proof (Hcell x) as H1. pose proof (Hstr x) as H2.
    rewrite Hx in H1, H2. destruct (cache_objs σ' !! x) as [c'|]; [|done].
    cbn in H1, H2. injection H1 as H1. injection H2 as H2. by exists c'. }
  split; [|split; [|done]].
  - (* what is stored *)
    split; [by rewrite Hb'|]. split; [done|]. split; [by rewrite Hh|]. split.
    { rewrite Hmom. apply table_ok_set; [apply table_ok_set; [done|]|];
        rewrite momento_coins_text; by eexists. }
    destruct (Hcache inventory inv Hinv) as (inv' & Hinv' & _ & Hkey').
    exists inv'. split; [done|]. split; [by rewrite Hkey'|].
    rewrite Hci', HgetI, momento_coins_text. split; [by eexists | done].
  - (* what is on the map *)
    split.
    { exists i0, j0. rewrite Ho, Hmk. split; [done|]. split; [done|].
      rewrite <- Hcells. apply mapM_ext. intros x. apply Hcell. }
    rewrite Hmk. intros x Hx.
    destruct (Hmarkers x Hx) as (Hxi & cx & Hcx & Hxkey & Hxsome & Hxsync).
    split; [done|].
    destruct (Hcache x cx Hcx) as (cx' & Hcx' & Hcellx & Hkeyx).
    exists cx'. split; [done|]. split; [by rewrite Hkeyx, Hcellx|].
    rewrite Hcellx.
    destruct (decide (x = m)) as [->|Hxm].
    + rewrite Hcm in Hcx. injection Hcx as <-.
      rewrite Hcm'. split; [by eexists|].
      unfold shown_coins. fold K. by rewrite HgetK, momento_coins_text.
    + assert (Hsame : coins_of x σ' = coins_of x σ).
      { apply coins_of_same; [|done]. apply Hothers.
        - destruct Hdir as [[-> ->]|[-> ->]]; done.
        - destruct Hdir as [[-> ->]|[-> ->]]; done. }
      rewrite Hsame. split; [done|]. rewrite Hxsync.
      symmetry. apply shown_coins_ext. apply HgetO.
      * intros Heq. apply cell_key_inj in Heq.
        apply Hxm. by apply (markers_distinct luck σ x m cx cm).
      * apply cell_key_not_inventory.
Qed.

End Keeps.

Lemma shown_caches_spec (luck : string → number) (m : list (string * string))
    (cells : list Cell.t) (l : list (Cell.t * list Coin.t)) :
  shown_caches luck m cells = Some l →
  l.*1 = List.filter (lucky luck) cells ∧
  Forall (λ p, shown_coins luck m p.1 = Some p.2) l.
Proof.
  unfold shown_caches. generalize (List.filter (lucky luck) cells). clear cells.
  intros cells Hl. apply mapM_Some in Hl.
  induction Hl as [|c p cells l Hp Hl [IH1 IH2]]; [done|].
  destruct (shown_coins luck m c) as [coins|] eqn:Hc; [|done].
  cbn in Hp. injection Hp as <-. cbn. split; [by rewrite IH1|].
  constructor; done.
Qed.

Lemma mapM_seq_lookup {A} (f : nat → option A) (base : nat) (ys : list A) :
  (∀ k y, ys !! k = Some y → f (base + k)%nat = Some y) →
  mapM f (seq base (length ys)) = Some ys.
Proof.
  revert base. induction ys as [|y ys IH]; intros base Hf; [done|].
  cbn. rewrite <- (Nat.add_0_r base) at 1. rewrite (Hf 0%nat y) by done. cbn.
  rewrite IH; [done|]. intros k y' Hk.
  replace (S base + k)%nat with (base + S k)%nat by lia. by apply Hf.
Qed.

Section RefreshKeeps.
Variable luck : string → number.
Variable calculateDistance : latlng → latlng → number.
Hypothesis luck_unit : ∀ key, unit_interval (luck key).

Lemma shown_coins_total (m : list (string * string)) (c : Cell.t) :
  table_ok m → is_Some (shown_coins luck m c).
Proof.
  intros Hm. unfold shown_coins.
  destruct (Map_get (cell_key c) m) as [momento|] eqn:Hget.
  - by apply (table_ok_get (cell_key c) momento m).
  - destruct (mul_30_floor _ (luck_unit (cell_key c))) as (n & -> & _).
    by eexists.
Qed.

Lemma shown_caches_total (m : list (string * string)) (cells : list Cell.t) :
  table_ok m → is_Some (shown_caches luck m cells).
Proof.
  intros Hm. unfold shown_caches. apply mapM_is_Some, Forall_forall.
  intros c _. cbn. destruct (shown_coins_total m c Hm) as [coins ->]. by eexists.
Qed.

(** A refresh at a position of the board returns; what is stored stays as
    it should be, and the map is as it should be. *)
Lemma refreshMap_keeps (σ : State) :
  stored_ok σ → on_board (origin σ) = true →
  ∃ σ',
    refreshMap luck calculateDistance σ = Some σ' ∧
    stored_ok σ' ∧ map_ok luck σ' ∧
    origin σ' = origin σ ∧ momentos σ' = momentos σ ∧
    localStorage σ' = localStorage σ ∧
    coins_of inventory σ' = coins_of inventory σ.
Proof.
  intros (Hboard & Hheap & Htrail & Htable & inv & Hinv & Hinvkey & Hinvsome & Hinvsync)
         [Hfi Hfj]%andb_true_iff.
  destruct (floor_finite _ Hfi) as [i0 Hi0]. destruct (floor_finite _ Hfj) as [j0 Hj0].
  destruct (showNearbyCaches_eq luck (origin σ) (set_markers [] σ) i0 j0 Hboard Hi0 Hj0)
    as (b' & Hboard' & Hshow).
  destruct (shown_caches_total (momentos σ) (near_cells i0 j0) Htable) as [l Hl].
  change (momentos (set_markers [] σ)) with (momentos σ) in Hshow.
  rewrite Hl in Hshow. cbn [mbind option_bind] in Hshow.
  set (σ0 := set_board b' (set_markers [] σ)) in *.
  destruct (with_caches_spec l σ0)
    as ([newk Hk] & (newn & Hn & Hlen) & Hm & Hmom & Hb & Hh & Ho & Hs & Hnew).
  change (coin_objs σ0) with (coin_objs σ) in Hk.
  change (cache_objs σ0) with (cache_objs σ) in Hn, Hm, Hnew.
  change (markers σ0) with (@nil nat) in Hm.
  change (momentos σ0) with (momentos σ) in Hmom.
  change (board σ0) with b' in Hb. change (locHistory σ0) with (locHistory σ) in Hh.
  change (origin σ0) with (origin σ) in Ho.
  change (localStorage σ0) with (localStorage σ) in Hs.
  set (σ1 := with_caches l σ0) in *.
  destruct (updateLocationHistory_returns calculateDistance σ1) as [σ' Hupd];
    [by rewrite Hh|].
  destruct (updateLocationHistory_Some calculateDistance σ1 σ' Hupd)
    as (_ & Htrail' & _ & Hσ').
  exists σ'. split.
  { unfold refreshMap. rewrite Hshow. cbn [mbind option_bind]. exact Hupd. }
  destruct (shown_caches_spec luck (momentos σ) (near_cells i0 j0) l Hl)
    as [Hfst Hcoins].
  assert (Hcoins_of : ∀ x, coins_of x σ' = coins_of x σ1) by (by rewrite Hσ').
  assert (Hcache' : cache_objs σ' = cache_objs σ1) by (by rewrite Hσ').
  assert (Hcoin' : coin_objs σ' = coin_objs σ1) by (by rewrite Hσ').
  assert (Hold : ∀ x cs, coins_of x σ = Some cs → coins_of x σ' = Some cs).
  { intros x cs Hx. rewrite Hcoins_of.
    by apply (coins_of_prefix σ σ1 x cs newk newn). }
  assert (Hmarker : ∀ k p, l !! k = Some p →
            ∃ cache,
              cache_objs σ' !! (length (cache_objs σ) + k)%nat = Some cache ∧
              Cache.cell cache = p.1 ∧ Cache.toString cache = cell_key p.1 ∧
              coins_of (length (cache_objs σ) + k) σ' = Some p.2 ∧
              shown_coins luck (momentos σ) p.1 = Some p.2).
  { intros k p Hp. destruct (Hnew k p Hp) as (cache & H1 & H2 & H3 & H4).
    exists cache. rewrite Hcache', Hcoins_of. repeat split; try done.
    eapply (proj1 (Forall_forall _ _) Hcoins). by eapply list_elem_of_lookup_2. }
  assert (Hmarkers' : markers σ' = seq (length (cache_objs σ)) (length l)).
  { rewrite Hσ'. exact Hm. }
  assert (Hmom' : momentos σ' = momentos σ) by (by rewrite Hσ').
  split; [|split; [|split; [by rewrite Hσ'|split; [done|split]]]].
  - (* what is stored *)
    split; [by rewrite Hσ'; cbn; rewrite Hb|]. split.
    { intros x cache Hx. rewrite Hcache', Hn in Hx.
      unfold allocated. rewrite Hcoin'.
      destruct (decide (x < length (cache_objs σ))%nat) as [Hlt|Hge].
      - rewrite lookup_app_l in Hx by done. rewrite Hk.
        eapply Forall_impl; [by apply (Hheap x cache)|].
        intros r [coin Hr]. exists coin. by apply lookup_app_l_Some.
      - destruct (l !! (x - length (cache_objs σ))%nat) as [p|] eqn:Hp.
        + destruct (Hnew _ p Hp) as (cache' & H1 & _ & _ & H4).
          replace (length (cache_objs σ) + (x - length (cache_objs σ)))%nat
            with x in H1, H4 by lia.
          rewrite Hn in H1. rewrite Hx in H1. injection H1 as <-.
          unfold coins_of in H4. rewrite Hn, Hx in H4. cbn in H4.
          apply mapM_is_Some. by eexists.
        + apply lookup_ge_None in Hp. apply lookup_lt_Some in Hx.
          rewrite length_app in Hx. lia. }
    split; [by apply Htrail'; rewrite Hh|]. split; [by rewrite Hmom'|].
    exists inv. split; [rewrite Hcache', Hn; by apply lookup_app_l_Some|].
    split; [done|]. destruct Hinvsome as [cs Hcs].
    rewrite (Hold inventory cs Hcs), Hmom', <- Hinvsync, Hcs. split; [by eexists|done].
  - (* what is on the map *)
    assert (Ho' : origin σ' = origin σ) by (by rewrite Hσ').
    split.
    { exists i0, j0. rewrite Ho'. split; [done|]. split; [done|].
      rewrite Hmarkers', <- Hfst. rewrite <- (length_fmap fst l).
      apply mapM_seq_lookup. intros k c Hc.
      apply list_lookup_fmap_Some in Hc as (p & -> & Hp).
      destruct (Hmarker k p Hp) as (cache & -> & <- & _). done. }
    intros x Hx. rewrite Hmarkers' in Hx. apply elem_of_seq in Hx as [Hlo Hhi].
    split; [apply lookup_lt_Some in Hinv; unfold inventory; lia|].
    destruct (l !! (x - length (cache_objs σ))%nat) as [p|] eqn:Hp;
      [|apply lookup_ge_None in Hp; lia].
    destruct (Hmarker _ p Hp) as (cache & H1 & H2 & H3 & H4 & H5).
    replace (length (cache_objs σ) + (x - length (cache_objs σ)))%nat
      with x in H1, H4 by lia.
    exists cache. rewrite H2, H4, Hmom', H5. repeat split; done.
  - by rewrite Hσ'.
  - destruct Hinvsome as [cs Hcs]. by rewrite (Hold inventory cs Hcs).
Qed.

End RefreshKeeps.

Lemma stored_ok_initial : stored_ok (initial ∅).
Proof.
  split; [apply board_ok_createBoard|]. split.
  { intros [|a] cache Ha; [|done]. injection Ha as <-. constructor. }
  split; [constructor|]. split; [constructor|].
  eexists. split; [reflexivity|]. split; [reflexivity|].
  split; [by eexists | reflexivity].
Qed.

Lemma on_board_OAKES_CLASSROOM : on_board OAKES_CLASSROOM = true.
Proof. vm_compute. reflexivity. Qed.

Section SessionKeeps.
Variable luck : string → number.
Variable calculateDistance : latlng → latlng → number.
Variable real_toString : number → string.
Hypothesis luck_unit : ∀ key, unit_interval (luck key).

Lemma handle_keeps (e : event) (σ : State) :
  possible e → stored_ok σ → map_ok luck σ →
  ∃ σ',
    handle luck calculateDistance real_toString e σ = Some σ' ∧
    stored_ok σ' ∧ map_ok luck σ'.
Proof.
  intros He Hst Hmap. destruct e as [cache k|cache|p]; cbn [handle].
  - destruct (decide (cache ∈ markers σ)) as [Hin|]; [|by exists σ].
    pose proof Hmap as [_ Hmarkers].
    destruct (Hmarkers cache Hin) as (_ & c & Hc & _). unfold collect. rewrite Hc.
    cbn [mbind option_bind].
    destruct (Cache.coins c !! k) as [coin|]; [|by exists σ].
    destruct (transfer_keeps luck real_toString σ cache cache inventory coin
                Hst Hmap Hin) as (σ' & Ht & Hst' & Hmap' & _); [by left|].
    by exists σ'.
  - destruct (decide (cache ∈ markers σ)) as [Hin|]; [|by exists σ].
    pose proof Hst as (_ & _ & _ & _ & inv & Hinv & _). unfold deposit.
    rewrite Hinv. cbn [mbind option_bind].
    destruct (last (Cache.coins inv)) as [coin|]; [|by exists σ].
    destruct (transfer_keeps luck real_toString σ cache inventory cache coin
                Hst Hmap Hin) as (σ' & Ht & Hst' & Hmap' & _); [by right|].
    by exists σ'.
  - destruct (refreshMap_keeps luck calculateDistance luck_unit (set_origin p σ))
      as (σ' & Hr & Hst' & Hmap' & _); [done | exact He |].
    by exists σ'.
Qed.

Lemma forEach_handle_keeps (events : list event) (σ : State) :
  Forall possible events → stored_ok σ → map_ok luck σ →
  ∃ σ',
    forEach (handle luck calculateDistance real_toString) events σ = Some σ' ∧
    stored_ok σ' ∧ map_ok luck σ'.
Proof.
  intros Hev. revert σ. induction Hev as [|e events He Hev IH]; intros σ Hst Hmap.
  - by exists σ.
  - destruct (handle_keeps e σ He Hst Hmap) as (σ1 & H1 & Hst1 & Hmap1).
    destruct (IH σ1 Hst1 Hmap1) as (σ2 & H2 & Hst2 & Hmap2).
    exists σ2. cbn [forEach]. rewrite H1. cbn [mbind option_bind]. done.
Qed.

Lemma main_fresh_keeps :
  ∃ σ, main luck calculateDistance ∅ = Some σ ∧ stored_ok σ ∧ map_ok luck σ.
Proof.
  destruct (refreshMap_keeps luck calculateDistance luck_unit (initial ∅)
              stored_ok_initial on_board_OAKES_CLASSROOM)
    as (σ & Hr & Hst & Hmap & _).
  exists σ. split; [|by split]. unfold main.
  rewrite loadData_without_data; [exact Hr|].
  unfold getItem_truthy. cbn [localStorage initial]. by rewrite lookup_empty.
Qed.

Lemma session_keeps (events : list event) :
  Forall possible events →
  ∃ σ,
    main luck calculateDistance ∅
      ≫= forEach (handle luck calculateDistance real_toString) events = Some σ ∧
    stored_ok σ ∧ map_ok luck σ.
Proof.
  intros Hev. destruct main_fresh_keeps as (σ0 & -> & Hst & Hmap).
  cbn [mbind option_bind]. by apply forEach_handle_keeps.
Qed.


End SessionKeeps.

(** ** The collections of a session *)

Lemma collections_ok_initial (storage : gmap string string) :
  collections_ok (initial storage).
Proof.
  split.
  { intros [|a] cache Ha; [|done]. injection Ha as <-.
    split; [constructor | apply NoDup_nil_2]. }
  split.
  { intros [|a] [|b] ca cb Hab Ha Hb; try done. }
  split; [by eexists|]. split; [|apply not_elem_of_nil].
  intros [|a] cache Ha Hc; done.
Qed.

(** The collections are read from the two heaps alone. *)
Lemma collections_ok_ext (σ σ' : State) :
  cache_objs σ' = cache_objs σ → coin_objs σ' = coin_objs σ →
  inventory ∉ markers σ' →
  collections_ok σ → collections_ok σ'.
Proof.
  intros Hc Hk Hm (H1 & H2 & H3 & H4 & _). unfold collections_ok, allocated.
  by rewrite Hc, Hk.
Qed.

Lemma allocated_lt (σ : State) (cs : list nat) (r : nat) :
  allocated σ cs → r ∈ cs → (r < length (coin_objs σ))%nat.
Proof.
  intros Hall Hr. apply (proj1 (Forall_forall _ _) Hall) in Hr as [c Hc].
  by apply lookup_lt_Some in Hc.
Qed.

Lemma allocated_seq (heap new : list Coin.t) (σ : State) :
  coin_objs σ = heap ++ new → allocated σ (seq (length heap) (length new)).
Proof.
  intros Hk. apply Forall_forall. intros r [Hlo Hhi]%elem_of_seq.
  apply lookup_lt_is_Some_2. rewrite Hk, length_app. lia.
Qed.

Lemma allocated_app (σ σ' : State) (new : list Coin.t) (cs : list nat) :
  coin_objs σ' = coin_objs σ ++ new → allocated σ cs → allocated σ' cs.
Proof.
  intros Hk Hall. unfold allocated. rewrite Hk.
  eapply Forall_impl; [exact Hall|].
  intros r [c Hc]. exists c. by apply lookup_app_l_Some.
Qed.

(** One cache is given new coin objects, or a new cache comes with new coin
    objects: the collections stay as they should be. *)
Lemma collections_ok_fresh (σ σ' : State) (a : nat) (c : Cache.t) (cs : list Coin.t) :
  collections_ok σ →
  coin_objs σ' = coin_objs σ ++ cs →
  Cache.coins c = seq (length (coin_objs σ)) (length cs) →
  (a = inventory → Cache.toString c = "inventory") →
  (a ≠ inventory → Cache.toString c = cell_key (Cache.cell c)) →
  (a ≤ length (cache_objs σ))%nat →
  cache_objs σ' !! a = Some c →
  (∀ x, x ≠ a → cache_objs σ' !! x = cache_objs σ !! x) →
  inventory ∉ markers σ' →
  collections_ok σ'.
Proof.
  intros (Hall & Hdis & (inv & Hinv & Hinvkey) & Hkeys & _) Hk Hc Hki Hkn Hle Ha Hothers
         Hmark.
  assert (Hold : ∀ x cache r, x ≠ a → cache_objs σ' !! x = Some cache →
            r ∈ Cache.coins cache → (r < length (coin_objs σ))%nat).
  { intros x cache r Hxa Hx Hr. rewrite Hothers in Hx by done.
    eapply allocated_lt; [by apply (Hall x cache)|done]. }
  assert (Hnew : ∀ r, r ∈ Cache.coins c → (length (coin_objs σ) ≤ r)%nat).
  { intros r Hr. rewrite Hc in Hr. apply elem_of_seq in Hr. lia. }
  split.
  { intros x cache Hx. destruct (decide (x = a)) as [->|Hxa].
    - rewrite Ha in Hx. injection Hx as <-. rewrite Hc.
      split; [by apply allocated_seq | apply NoDup_seq].
    - rewrite Hothers in Hx by done. destruct (Hall x cache Hx) as [H1 H2].
      split; [by apply (allocated_app σ σ' cs)|done]. }
  split.
  { intros x y cx cy Hxy Hx Hy r Hrx Hry.
    destruct (decide (x = a)) as [->|Hxa].
    - rewrite Ha in Hx. injection Hx as <-.
      pose proof (Hnew r Hrx). pose proof (Hold y cy r ltac:(done) Hy Hry). lia.
    - destruct (decide (y = a)) as [->|Hya].
      + rewrite Ha in Hy. injection Hy as <-.
        pose proof (Hnew r Hry). pose proof (Hold x cx r Hxa Hx Hrx). lia.
      + rewrite Hothers in Hx, Hy by done. by apply (Hdis x y cx cy Hxy Hx Hy r). }
  split.
  { destruct (decide (inventory = a)) as [<-|Hia].
    - exists c. split; [done|]. by apply Hki.
    - exists inv. split; [by rewrite Hothers|done]. }
  split; [|done].
  intros x cache Hxi Hx. destruct (decide (x = a)) as [->|Hxa].
  - rewrite Ha in Hx. injection Hx as <-. by apply Hkn.
  - rewrite Hothers in Hx by done. by apply (Hkeys x).
Qed.

Lemma with_cache_collections (c : Cell.t) (cs : list Coin.t) (σ : State) :
  collections_ok σ → collections_ok (with_cache c cs σ).
Proof.
  intros Hok. pose proof Hok as (_ & _ & (inv & Hinv & _) & _ & Hmark).
  apply lookup_lt_Some in Hinv.
  eapply (collections_ok_fresh σ _ (length (cache_objs σ))
            {| Cache.cell := c;
               Cache.coins := seq (length (coin_objs σ)) (length cs);
               Cache.toString := cell_key c |} cs Hok).
  - reflexivity.
  - reflexivity.
  - unfold inventory in *. lia.
  - reflexivity.
  - lia.
  - cbn. by rewrite lookup_app_r, Nat.sub_diag.
  - intros x Hx. cbn. destruct (decide (x < length (cache_objs σ))%nat).
    + by rewrite lookup_app_l.
    + rewrite lookup_app_r by lia.
      rewrite (lookup_ge_None_2 (cache_objs σ)) by lia.
      destruct (x - length (cache_objs σ))%nat as [|d] eqn:Hd; [lia|done].
  - cbn. intros [?|Hin%list_elem_of_singleton]%elem_of_app; [done|].
    unfold inventory in *. lia.
Qed.

Lemma with_caches_collections (l : list (Cell.t * list Coin.t)) (σ : State) :
  collections_ok σ → collections_ok (with_caches l σ).
Proof.
  revert σ. induction l as [|[c cs] l IH]; intros σ Hok; [done|].
  apply (IH (with_cache c cs σ)). by apply with_cache_collections.
Qed.

Lemma fromMomento_collections (a : nat) (momento : string) (σ σ' : State) :
  fromMomento a momento σ = Some σ' → collections_ok σ → collections_ok σ'.
Proof.
  unfold fromMomento. intros Hfrom Hok.
  destruct (JSON_parse momento) as [v|]; [|done]. cbn in Hfrom.
  destruct (json_array v) as [vs|]; [|done]. cbn in Hfrom.
  destruct (mapM coin_of_json vs) as [cs|]; [|done]. cbn in Hfrom.
  destruct (cache_objs σ !! a) as [ca|] eqn:Ha; [|done]. cbn in Hfrom.
  injection Hfrom as <-.
  pose proof Hok as (_ & _ & (inv & Hinv & Hinvkey) & Hkeys & Hmark).
  eapply (collections_ok_fresh σ _ a
            (with_coins (seq (length (coin_objs σ)) (length cs)) ca) cs Hok).
  - reflexivity.
  - reflexivity.
  - intros ->. rewrite Hinv in Ha. by injection Ha as <-.
  - intros Hne. cbn. by apply (Hkeys a).
  - apply lookup_lt_Some in Ha. lia.
  - cbn. by rewrite list_lookup_alter_eq, Ha.
  - intros x Hx. cbn. by rewrite list_lookup_alter_ne.
  - done.
Qed.

Section Collections.
Variable luck : string → number.
Variable calculateDistance : latlng → latlng → number.
Variable real_toString : number → string.

Lemma loadData_collections (σ σ' : State) :
  loadData σ = Some σ' → collections_ok σ → collections_ok σ'.
Proof.
  unfold loadData. intros Hload Hok.
  destruct (getItem_truthy "data" σ) as [data_string|]; [|by injection Hload as <-].
  destruct (JSON_parse data_string) as [data|]; [|done]. cbn [mbind option_bind] in Hload.
  destruct (json_array data ≫= mapM entry_of_json) as [data_array|]; [|done].
  cbn [mbind option_bind] in Hload.
  set (σ1 := set_momentos _ σ) in Hload.
  assert (Hok1 : collections_ok σ1).
  { apply (collections_ok_ext σ); try done. by destruct Hok as (_ & _ & _ & _ & ?). }
  clearbody σ1.
  destruct (match Map_get "inventory" (momentos σ1) with
            | Some inv => if truthy inv then fromMomento inventory inv σ1 else Some σ1
            | None => Some σ1
            end) as [σ2|] eqn:H2; [|done].
  cbn [mbind option_bind] in Hload.
  assert (Hok2 : collections_ok σ2).
  { destruct (Map_get "inventory" (momentos σ1)) as [inv|]; [|by injection H2 as <-].
    destruct (truthy inv); [|by injection H2 as <-].
    by apply (fromMomento_collections inventory inv σ1). }
  clear H2 Hok1 σ1.
  destruct (match getItem_truthy "loc" σ2 with
            | Some loc_string =>
                loc ← JSON_parse loc_string;
                match loc with
                | JArr (a :: b :: _) =>
                    x ← number_of_json a; y ← number_of_json b;
                    Some (set_origin {| lat := x; lng := y |} σ2)
                | _ => None
                end
            | None => Some σ2
            end) as [σ3|] eqn:H3; [|done].
  cbn [mbind option_bind] in Hload.
  assert (Hok3 : collections_ok σ3).
  { destruct (getItem_truthy "loc" σ2) as [loc_string|]; [|by injection H3 as <-].
    destruct (JSON_parse loc_string) as [loc|]; [|done]. cbn in H3.
    destruct loc as [| | | | |[|a [|b rest]]|]; try done.
    destruct (number_of_json a) as [x|]; [|done]. cbn in H3.
    destruct (number_of_json b) as [y|]; [|done]. cbn in H3.
    injection H3 as <-. apply (collections_ok_ext σ2); try done.
    by destruct Hok2 as (_ & _ & _ & _ & ?). }
  clear H3 Hok2 σ2.
  destruct (getItem_truthy "hist" σ3) as [hist_string|]; [|by injection Hload as <-].
  destruct (JSON_parse hist_string) as [temp|]; [|done]. cbn [mbind option_bind] in Hload.
  destruct (json_array temp ≫= mapM (λ l, json_array l ≫= mapM latlng_of_json))
    as [lines|]; [|done].
  cbn [mbind option_bind] in Hload. injection Hload as <-.
  apply (collections_ok_ext σ3); try done. by destruct Hok3 as (_ & _ & _ & _ & ?).
Qed.

Lemma refreshMap_collections (σ σ' : State) :
  refreshMap luck calculateDistance σ = Some σ' →
  collections_ok σ → collections_ok σ'.
Proof.
  unfold refreshMap, showNearbyCaches. intros Hr Hok.
  destruct (getCellsNearPoint (origin σ) (board (set_markers [] σ)))
    as [[cells b]|]; [|done].
  cbn [mbind option_bind] in Hr.
  destruct (forEach (showCache luck) cells (set_board b (set_markers [] σ)))
    as [σ1|] eqn:H1; [|done].
  cbn [mbind option_bind] in Hr.
  apply forEach_showCache_Some in H1 as [l ->].
  apply updateLocationHistory_Some in Hr as (_ & _ & _ & ->).
  assert (Hok1 : collections_ok (with_caches l (set_board b (set_markers [] σ)))).
  { apply with_caches_collections.
    apply (collections_ok_ext σ); try done. apply not_elem_of_nil. }
  apply (collections_ok_ext _ _ eq_refl eq_refl); [|done].
  by destruct Hok1 as (_ & _ & _ & _ & ?).
Qed.

(** A transfer between two caches keeps the collections as they should
    be. *)
Lemma transfer_collections (σ σ' : State) (a b coin : nat) :
  a ≠ b → transfer real_toString a b coin σ = Some σ' →
  collections_ok σ → collections_ok σ'.
Proof.
  intros Hab Ht Hok.
  destruct (cache_objs σ !! a) as [ca|] eqn:Ha;
    [|by unfold transfer in Ht; rewrite Ha in Ht].
  destruct (indexOf coin (Cache.coins ca)) as [index|] eqn:Hidx; cycle 1.
  { rewrite (transfer_not_found real_toString σ a b coin ca Ha Hidx) in Ht.
    by injection Ht as <-. }
  destruct (cache_objs σ !! b) as [cb|] eqn:Hb; cycle 1.
  { unfold transfer in Ht. rewrite Ha in Ht. cbn [mbind option_bind] in Ht.
    rewrite Hidx in Ht. cbv zeta in Ht.
    rewrite lookup_set_coins_ne, Hb in Ht by done. done. }
  pose proof Hok as (Hall & Hdis & (inv & Hinv & Hinvkey) & Hkeys & Hmark).
  destruct (Hall a ca Ha) as [Halla Hnda]. destruct (Hall b cb Hb) as [Hallb Hndb].
  destruct (transfer_present real_toString σ a b coin index ca cb Hab Ha Hb Hidx
              Halla Hallb)
    as (σ2 & ma & mb & Ht2 & Ha' & Hb' & Hothers & Hcoins & _ & _ & _ & _ & _ & _
        & Hmk & _).
  rewrite Ht in Ht2. injection Ht2 as <-.
  pose proof (indexOf_Some _ _ _ Hidx) as Hlook.
  assert (Hcoina : coin ∈ Cache.coins ca) by (by eapply list_elem_of_lookup_2).
  assert (Hsub : ∀ r, r ∈ delete index (Cache.coins ca) → r ∈ Cache.coins ca ∧ r ≠ coin).
  { intros r Hr. pose proof (delete_Permutation _ _ _ Hlook) as Hperm.
    rewrite Hperm in Hnda. apply NoDup_cons in Hnda as [Hnot _].
    split; [rewrite Hperm; by right | by intros ->]. }
  (* the coins of each cache after the transfer *)
  assert (Hafter : ∀ x cx', cache_objs σ' !! x = Some cx' →
            ∃ cx, cache_objs σ !! x = Some cx ∧
                  Cache.toString cx' = Cache.toString cx ∧
                  Cache.cell cx' = Cache.cell cx ∧
                  ∀ r, r ∈ Cache.coins cx' →
                       (r ∈ Cache.coins cx ∧ (x = a → r ≠ coin)) ∨ (x = b ∧ r = coin)).
  { intros x cx' Hx. destruct (decide (x = a)) as [->|Hxa].
    - rewrite Ha' in Hx. injection Hx as <-. exists ca. cbn. repeat split; try done.
      intros r Hr. left. destruct (Hsub r Hr). done.
    - destruct (decide (x = b)) as [->|Hxb].
      + rewrite Hb' in Hx. injection Hx as <-. exists cb. cbn. repeat split; try done.
        intros r [Hr|Hr%list_elem_of_singleton]%elem_of_app; [left|right]; done.
      + rewrite Hothers in Hx by done. exists cx'. repeat split; try done.
        intros r Hr. by left. }
  split.
  { intros x cx' Hx. unfold allocated. rewrite Hcoins.
    destruct (decide (x = a)) as [->|Hxa].
    - rewrite Ha' in Hx. injection Hx as <-. cbn.
      split; [by apply Forall_delete|].
      pose proof (delete_Permutation _ _ _ Hlook) as Hperm.
      rewrite Hperm in Hnda. by apply NoDup_cons in Hnda as [_ ?].
    - destruct (decide (x = b)) as [->|Hxb].
      + rewrite Hb' in Hx. injection Hx as <-. cbn. split.
        * apply Forall_app. split; [done|]. apply Forall_singleton.
          by apply (proj1 (Forall_forall _ _) Halla).
        * apply NoDup_app. split; [done|]. split; [|apply NoDup_singleton].
          intros r Hr ->%list_elem_of_singleton.
          by apply (Hdis a b ca cb Hab Ha Hb coin).
      + rewrite Hothers in Hx by done. by apply (Hall x). }
  split.
  { intros x y cx' cy' Hxy Hx Hy r Hrx Hry.
    destruct (Hafter x cx' Hx) as (cx & Hcx & _ & _ & Hx').
    destruct (Hafter y cy' Hy) as (cy & Hcy & _ & _ & Hy').
    destruct (Hx' r Hrx) as [[Hrx1 Hrx2]|[Hxb Hrc]];
      destruct (Hy' r Hry) as [[Hry1 Hry2]|[Hyb Hrc']].
    - by apply (Hdis x y cx cy Hxy Hcx Hcy r).
    - subst y r. destruct (decide (x = a)) as [->|Hxa]; [by apply Hrx2|].
      by apply (Hdis x a cx ca Hxa Hcx Ha coin).
    - subst x r. destruct (decide (y = a)) as [->|Hya]; [by apply Hry2|].
      by apply (Hdis y a cy ca Hya Hcy Ha coin).
    - subst x y. done. }
  split.
  { destruct (cache_objs σ' !! inventory) as [inv'|] eqn:Hinv'.
    - destruct (Hafter inventory inv' Hinv') as (inv0 & Hinv0 & Hkey & _).
      rewrite Hinv in Hinv0. injection Hinv0 as <-.
      exists inv'. split; [done|]. by rewrite Hkey.
    - destruct (decide (inventory = a)) as [Hia|Hia]; [by rewrite Hia, Ha' in Hinv'|].
      destruct (decide (inventory = b)) as [Hib|Hib]; [by rewrite Hib, Hb' in Hinv'|].
      by rewrite Hothers, Hinv in Hinv'. }
  split; [|by rewrite Hmk].
  intros x cx' Hxi Hx.
  destruct (Hafter x cx' Hx) as (cx & Hcx & Hkey & Hcell & _).
  rewrite Hkey, Hcell. by apply (Hkeys x).
Qed.

Lemma handle_collections (e : event) (σ σ' : State) :
  handle luck calculateDistance real_toString e σ = Some σ' →
  collections_ok σ → collections_ok σ'.
Proof.
  intros He Hok. pose proof Hok as (_ & _ & _ & _ & Hmark).
  destruct e as [cache k|cache|p]; cbn [handle] in He.
  - destruct (decide (cache ∈ markers σ)) as [Hin|]; [|by injection He as <-].
    unfold collect in He.
    destruct (cache_objs σ !! cache) as [c|]; [|done]. cbn [mbind option_bind] in He.
    destruct (Cache.coins c !! k) as [coin|]; [|by injection He as <-].
    apply (transfer_collections σ σ' cache inventory coin); [|done|done].
    by intros ->.
  - destruct (decide (cache ∈ markers σ)) as [Hin|]; [|by injection He as <-].
    unfold deposit in He.
    destruct (cache_objs σ !! inventory) as [inv|]; [|done].
    cbn [mbind option_bind] in He.
    destruct (last (Cache.coins inv)) as [coin|]; [|by injection He as <-].
    apply (transfer_collections σ σ' inventory cache coin); [|done|done].
    by intros <-.
  - apply refreshMap_collections in He; [done|].
    by apply (collections_ok_ext σ).
Qed.

(** Every state of a session, over any storage and whatever [luck] and the
    distances are: the collections are as they should be. *)
Lemma session_collections_ok (storage : gmap string string) (events : list event)
    (σ : State) :
  main luck calculateDistance storage
    ≫= forEach (handle luck calculateDistance real_toString) events = Some σ →
  collections_ok σ.
Proof.
  unfold main. intros Hrun.
  destruct (loadData (initial storage)) as [σ0|] eqn:Hload; [|done].
  cbn [mbind option_bind] in Hrun.
  destruct (refreshMap luck calculateDistance σ0) as [σ1|] eqn:Hr; [|done].
  cbn [mbind option_bind] in Hrun.
  assert (Hok : collections_ok σ1).
  { apply (refreshMap_collections σ0 σ1 Hr).
    apply (loadData_collections _ _ Hload), collections_ok_initial. }
  clear Hload Hr. revert σ1 Hok Hrun.
  induction events as [|e events IH]; intros σ1 Hok Hrun.
  - by injection Hrun as <-.
  - cbn [forEach] in Hrun.
    destruct (handle luck calculateDistance real_toString e σ1) as [σ2|] eqn:He;
      [|done].
    cbn [mbind option_bind] in Hrun.
    apply (IH σ2); [|done]. by apply (handle_collections e σ1).
Qed.

End Collections.

Section Moves.
Variable real_toString : number → string.


End Moves.

Lemma sample_shown_collections : collections_ok sample_shown.
Proof.
  split.
  { intros [|[|a]] cache Ha; try done; injection Ha as <-; cbn.
    - split; [constructor | apply NoDup_nil_2].
    - split; [by apply sample_shown_allocated | apply (NoDup_seq 0 2)]. }
  split.
  { intros [|[|a]] [|[|b]] ca cb Hab Ha Hb r Hr; try done.
    - injection Ha as <-. by apply elem_of_nil in Hr.
    - injection Hb as <-. apply not_elem_of_nil. }
  split; [by eexists|]. split.
  - intros [|[|a]] cache Hne Ha; try done. by injection Ha as <-.
  - cbn. intros Hin%list_elem_of_singleton. done.
Qed.


(** ** The cells around a point *)





(** ** Keys of the table *)

(** X2: the keys of the table of mementos do not collide: two cells with
    the same key are the same cell, and no cell has the key of the
    inventory. *)
Theorem momento_keys_distinct (i j i' j' : Z) :
  (Array_toString i j = Array_toString i' j' → i = i' ∧ j = j') ∧
  Array_toString i j ≠ "inventory".
Proof.
  split; [apply Array_toString_inj|].
  apply (cell_key_not_inventory {| Cell.i := i; Cell.j := j |}).
Qed.

(** ** A cell that has a memento *)

Section Restores.
Variable luck : string → number.
Variable real_toString : number → string.

(** X3: for a cell whose key has a memento, the text of the coins [cs],
    [showCache] makes no coins of its own: when the luck of the cell is
    below 0.1 it puts on the map a new cache of the cell that holds coins
    equal to [cs], in the same order, and none when [cs] is empty; when the
    luck is not below 0.1 it shows nothing, memento or not. *)
Theorem showCache_restores (σ : State) (cell : nat) (c : Cell.t) (cs : list Coin.t) :
  let key := Array_toString (Cell.i c) (Cell.j c) in
  cell_objs (board σ) !! cell = Some c →
  Map_get key (momentos σ)
  = Some (JSON_stringify real_toString (JArr (map coin_to_json cs))) →
  (ltb (luck key) CACHE_SPAWN_PROBABILITY = true →
     ∃ σ',
       showCache luck cell σ = Some σ' ∧
       markers σ' = markers σ ++ [length (cache_objs σ)] ∧
       Cache.cell <$> cache_objs σ' !! length (cache_objs σ) = Some c ∧
       coins_of (length (cache_objs σ)) σ' = Some cs ∧
       momentos σ' = momentos σ) ∧
  (ltb (luck key) CACHE_SPAWN_PROBABILITY = false → showCache luck cell σ = Some σ).
Proof.
  intros key Hcell Hget. rewrite (showCache_eq luck σ cell c Hcell).
  unfold lucky, shown_coins, cell_key. fold key. rewrite Hget, momento_coins_text.
  cbn [mbind option_bind]. split; intros ->; [|done].
  exists (with_cache c cs σ). split; [done|]. split; [done|].
  destruct (with_cache_lookup c cs σ) as [Hl Hc]. rewrite Hl. done.
Qed.

End Restores.

Lemma showCache_restores_witness :
  ∃ σ', showCache sample_luck 0%nat sample_kept = Some σ' ∧
        coins_of 1%nat σ' = Some [coin00 1].
Proof.
  destruct (showCache_restores sample_luck sample_real_toString sample_kept 0%nat
              cell00 [coin00 1] eq_refl eq_refl) as [Hlucky _].
  destruct (Hlucky eq_refl) as (σ' & Hshow & _ & _ & Hcoins & _).
  exists σ'. split; [exact Hshow | exact Hcoins].
Defined.

(** ** The trail grows *)

Section Grows.
Variable calculateDistance : latlng → latlng → number.

(** X4: on a trail with no empty polyline, [updateLocationHistory] returns;
    the points of the trail, read polyline after polyline, are then those
    there were followed by the position of the player; no polyline is
    dropped or left empty, at most one is added, and nothing but the trail
    changes. *)
Theorem updateLocationHistory_grows (σ : State) :
  Forall (λ line, line ≠ []) (locHistory σ) →
  ∃ σ',
    updateLocationHistory calculateDistance σ = Some σ' ∧
    concat (locHistory σ') = concat (locHistory σ) ++ [origin σ] ∧
    Forall (λ line, line ≠ []) (locHistory σ') ∧
    (length (locHistory σ) ≤ length (locHistory σ') ≤ length (locHistory σ) + 1)%nat ∧
    σ' = set_locHistory (locHistory σ') σ.
Proof.
  intros Hok.
  destruct (updateLocationHistory_returns calculateDistance σ Hok) as [σ' Hupd].
  destruct (updateLocationHistory_Some calculateDistance σ σ' Hupd)
    as (Hconcat & Hok' & Hlen & Hσ').
  exists σ'. split; [exact Hupd|]. split; [exact Hconcat|].
  split; [by apply Hok'|]. split; [exact Hlen | exact Hσ'].
Qed.

End Grows.

Lemma updateLocationHistory_grows_witness :
  ∃ σ', updateLocationHistory sample_distance_apart sample_walk = Some σ' ∧
        concat (locHistory σ') = [OAKES_CLASSROOM; sample_point].
Proof.
  destruct (updateLocationHistory_grows sample_distance_apart sample_walk)
    as (σ' & Hupd & Hconcat & _).
  - apply Forall_singleton. discriminate.
  - exists σ'. split; [exact Hupd | exact Hconcat].
Defined.

(** ** What a refresh changes *)

Section RefreshShows.
Variable luck : string → number.
Variable calculateDistance : latlng → latlng → number.

(** The state a refresh returns. *)
Lemma refreshMap_Some (σ σ' : State) :
  refreshMap luck calculateDistance σ = Some σ' →
  ∃ l b h,
    σ' = set_locHistory h (with_caches l (set_board b (set_markers [] σ))) ∧
    concat h = concat (locHistory σ) ++ [origin σ].
Proof.
  unfold refreshMap, showNearbyCaches. intros Hr.
  destruct (getCellsNearPoint (origin σ) (board (set_markers [] σ)))
    as [[cells b]|]; [|done].
  cbn [mbind option_bind] in Hr.
  destruct (forEach (showCache luck) cells (set_board b (set_markers [] σ)))
    as [σ1|] eqn:H1; [|done].
  cbn [mbind option_bind] in Hr.
  apply forEach_showCache_Some in H1 as [l ->].
  apply updateLocationHistory_Some in Hr as (Hconcat & _ & _ & Hσ').
  exists l, b, (locHistory σ'). split; [exact Hσ'|].
  rewrite Hconcat.
  destruct (with_caches_spec l (set_board b (set_markers [] σ)))
    as (_ & _ & _ & _ & _ & -> & -> & _). done.
Qed.

(** X5: a refresh of the map leaves the table of mementos, the storage and
    the position of the player as they are; it makes new coin and cache
    objects and touches none there was, so every cache, the inventory too,
    holds the coins it held; and the trail grows by the position of the
    player. *)
Theorem refreshMap_frame (σ σ' : State) :
  refreshMap luck calculateDistance σ = Some σ' →
  momentos σ' = momentos σ ∧ origin σ' = origin σ ∧
  localStorage σ' = localStorage σ ∧
  (∃ new, coin_objs σ' = coin_objs σ ++ new) ∧
  (∃ new, cache_objs σ' = cache_objs σ ++ new) ∧
  (∀ a coins, coins_of a σ = Some coins → coins_of a σ' = Some coins) ∧
  concat (locHistory σ') = concat (locHistory σ) ++ [origin σ].
Proof.
  intros (l & b & h & -> & Hh)%refreshMap_Some.
  destruct (with_caches_spec l (set_board b (set_markers [] σ)))
    as ([newk Hk] & (newn & Hn & _) & _ & Hmom & _ & _ & Ho & Hs & _).
  cbn in Hk, Hn, Hmom, Ho, Hs. cbn [momentos origin localStorage coin_objs
    cache_objs locHistory set_locHistory].
  split; [exact Hmom|]. split; [exact Ho|]. split; [exact Hs|].
  split; [by exists newk|]. split; [by exists newn|]. split; [|exact Hh].
  intros a coins Ha.
  change (coins_of a (set_locHistory h ?s)) with (coins_of a s).
  by apply (coins_of_prefix σ _ a coins newk newn).
Qed.


End RefreshShows.

Lemma sample_luck_unit (key : string) : unit_interval (sample_luck key).
Proof. repeat split. Qed.

Lemma refreshMap_frame_witness :
  ∃ σ', refreshMap sample_luck sample_distance_20 (initial ∅) = Some σ' ∧
        momentos σ' = [] ∧ origin σ' = OAKES_CLASSROOM ∧
        coins_of inventory σ' = Some [].
Proof.
  destruct (refreshMap_keeps sample_luck sample_distance_20 sample_luck_unit
              (initial ∅) stored_ok_initial on_board_OAKES_CLASSROOM)
    as (σ' & Hr & _).
  destruct (refreshMap_frame sample_luck sample_distance_20 (initial ∅) σ' Hr)
    as (Hm & Ho & _ & _ & _ & Hc & _).
  exists σ'. split; [exact Hr|]. split; [exact Hm|]. split; [exact Ho|].
  apply Hc. reflexivity.
Defined.


(** ** A whole session, whatever the player does *)

Section SessionExtras.
Variable luck : string → number.
Variable calculateDistance : latlng → latlng → number.
Variable real_toString : number → string.
Hypothesis luck_unit : ∀ key, unit_interval (luck key).

(** X7: with nothing stored, the page loads and then handles every
    sequence of clicks on [collect] and [deposit] in the popups of the
    caches on the map and of moves of the player to positions of the board:
    no step throws. *)
Theorem session_never_throws (events : list event) :
  Forall possible events →
  is_Some (main luck calculateDistance ∅
             ≫= forEach (handle luck calculateDistance real_toString) events).
Proof.
  intros Hev. destruct (session_keeps luck calculateDistance real_toString
                          luck_unit events Hev) as (σ & -> & _).
  by eexists.
Qed.



End SessionExtras.

Lemma sample_events_possible : Forall possible sample_events.
Proof. repeat constructor. Qed.

Lemma session_never_throws_witness :
  is_Some (main sample_luck sample_distance_20 ∅
             ≫= forEach (handle sample_luck sample_distance_20 sample_real_toString)
                  sample_events).
Proof.
  apply (session_never_throws sample_luck sample_distance_20 sample_real_toString
           sample_luck_unit sample_events sample_events_possible).
Defined.



(** ** Collecting a coin and putting it back *)

Section CollectDeposit.
Variable real_toString : number → string.

Lemma indexOf_NoDup (coin : nat) (l : list nat) (k : nat) :
  NoDup l → l !! k = Some coin → indexOf coin l = Some k.
Proof.
  intros Hnd Hk.
  destruct (indexOf_elem_of coin l) as [k' Hk']; [by eapply list_elem_of_lookup_2|].
  rewrite Hk'. f_equal. apply indexOf_Some in Hk'.
  by apply (NoDup_lookup l k' k coin).
Qed.

Lemma indexOf_snoc (coin : nat) (l : list nat) :
  coin ∉ l → indexOf coin (l ++ [coin]) = Some (length l).
Proof.
  intros Hnot.
  destruct (indexOf_elem_of coin (l ++ [coin])) as [k Hk]; [set_solver|].
  rewrite Hk. f_equal. apply indexOf_Some in Hk.
  destruct (decide (k < length l)%nat) as [Hlt|Hge].
  - rewrite lookup_app_l in Hk by done. by apply list_elem_of_lookup_2 in Hk.
  - rewrite lookup_app_r in Hk by lia.
    destruct (k - length l)%nat as [|d] eqn:Hd; [lia|done].
Qed.

Lemma delete_snoc {A} (l : list A) (x : A) : delete (length l) (l ++ [x]) = l.
Proof. induction l as [|y l IH]; [done|]. cbn. f_equal. exact IH. Qed.

(** X10: in a state whose collections are as the program builds them, the
    button [collect] of the coin number [k] of a cache followed by the button
    [deposit] of the same cache gives the coin back: the inventory holds
    what it held, the cache holds its other coins in their order followed
    by the coin, and no coin object was made or changed. *)
Theorem collect_then_deposit (σ : State) (m k coin : nat) (cm inv : Cache.t) :
  collections_ok σ → m ≠ inventory →
  cache_objs σ !! m = Some cm → cache_objs σ !! inventory = Some inv →
  Cache.coins cm !! k = Some coin →
  ∃ σ1 σ2,
    collect real_toString m k σ = Some σ1 ∧
    deposit real_toString m σ1 = Some σ2 ∧
    Cache.coins <$> cache_objs σ1 !! m = Some (delete k (Cache.coins cm)) ∧
    Cache.coins <$> cache_objs σ1 !! inventory = Some (Cache.coins inv ++ [coin]) ∧
    Cache.coins <$> cache_objs σ2 !! m = Some (delete k (Cache.coins cm) ++ [coin]) ∧
    Cache.coins <$> cache_objs σ2 !! inventory = Some (Cache.coins inv) ∧
    coin_objs σ2 = coin_objs σ.
Proof.
  intros Hok Hmi Hm Hinv Hk.
  pose proof Hok as (Hall & Hdis & _).
  destruct (Hall m cm Hm) as [Hallm Hndm].
  destruct (Hall inventory inv Hinv) as [Halli Hndi].
  assert (Hin : coin ∈ Cache.coins cm) by (by eapply list_elem_of_lookup_2).
  assert (Hnot : coin ∉ Cache.coins inv) by (by apply (Hdis m inventory cm inv)).
  destruct (transfer_present real_toString σ m inventory coin k cm inv Hmi Hm Hinv
              (indexOf_NoDup coin _ k Hndm Hk) Hallm Halli)
    as (σ1 & ma & mb & Ht1 & Hm1 & Hi1 & _ & Hcoins1 & _).
  assert (Hallm1 : allocated σ1 (delete k (Cache.coins cm))).
  { apply (allocated_ext σ); [done|]. by apply Forall_delete. }
  assert (Halli1 : allocated σ1 (Cache.coins inv ++ [coin])).
  { apply (allocated_ext σ); [done|]. apply Forall_app. split; [done|].
    apply Forall_singleton. by apply (proj1 (Forall_forall _ _) Hallm). }
  destruct (transfer_present real_toString σ1 inventory m coin
              (length (Cache.coins inv))
              (with_coins (Cache.coins inv ++ [coin]) inv)
              (with_coins (delete k (Cache.coins cm)) cm)
              (not_eq_sym Hmi) Hi1 Hm1 (indexOf_snoc coin _ Hnot) Halli1 Hallm1)
    as (σ2 & ma' & mb' & Ht2 & Hi2 & Hm2 & _ & Hcoins2 & _).
  exists σ1, σ2. split.
  { unfold collect. rewrite Hm. cbn [mbind option_bind]. by rewrite Hk. }
  split.
  { unfold deposit. rewrite Hi1. cbn [mbind option_bind with_coins Cache.coins].
    by rewrite last_snoc. }
  rewrite Hm1, Hi1, Hm2, Hi2. cbn [fmap option_fmap option_map with_coins Cache.coins].
  rewrite delete_snoc. repeat split; try done. congruence.
Qed.

End CollectDeposit.

Lemma collect_then_deposit_witness :
  ∃ σ1 σ2,
    collect sample_real_toString 1 0 sample_shown = Some σ1 ∧
    deposit sample_real_toString 1 σ1 = Some σ2 ∧
    Cache.coins <$> cache_objs σ2 !! 1%nat = Some [1%nat; 0%nat] ∧
    Cache.coins <$> cache_objs σ2 !! inventory = Some [].
Proof.
  destruct (collect_then_deposit sample_real_toString sample_shown 1 0 0
              {| Cache.cell := {| Cell.i := 0; Cell.j := 0 |};
                 Cache.coins := [0%nat; 1%nat];
                 Cache.toString := "0,0" |}
              {| Cache.cell := {| Cell.i := 0; Cell.j := 0 |};
                 Cache.coins := [];
                 Cache.toString := "inventory" |}
              sample_shown_collections)
    as (σ1 & σ2 & H1 & H2 & _ & _ & Hm & Hi & _).
  - discriminate.
  - reflexivity.
  - reflexivity.
  - reflexivity.
  - exists σ1, σ2. split; [exact H1|]. split; [exact H2|].
    split; [exact Hm | exact Hi].
Defined.

(** ** JSON: a number in the middle of a text *)

Lemma read_digits_app (acc : N) (cnt : nat) (s rest : string) :
  ends_value rest = true →
  JSON.read_digits acc cnt (s +:+ rest)
  = let '(a, c, r) := JSON.read_digits acc cnt s in (a, c, r +:+ rest).
Proof.
  intros Hrest. revert acc cnt. induction s as [|ch s IH]; intros acc cnt.
  - cbn. by apply read_digits_stop.
  - cbn. destruct (JSON.digit_of ch); [apply IH | done].
Qed.

Lemma starts_with_digit_app (s rest : string) :
  ends_value rest = true →
  JSON.starts_with_digit (s +:+ rest) = JSON.starts_with_digit s.
Proof.
  intros Hrest. destruct s; [|done]. cbn. by apply starts_with_digit_stop.
Qed.

Lemma leading_zero_app (s rest : string) :
  ends_value rest = true → JSON.leading_zero (s +:+ rest) = JSON.leading_zero s.
Proof.
  intros Hrest. destruct s as [|c s]; cbn.
  - ends_value_cases Hrest; reflexivity.
  - by rewrite starts_with_digit_app.
Qed.

Lemma read_frac_app (s rest : string) :
  ends_value rest = true →
  JSON.read_frac (s +:+ rest)
  = '(fr, r) ← JSON.read_frac s; Some (fr, r +:+ rest).
Proof.
  intros Hrest. destruct s as [|c s]; cbn.
  - by apply read_frac_stop.
  - destruct (Ascii.eqb c "."); [|done].
    rewrite starts_with_digit_app by done.
    destruct (JSON.starts_with_digit s); [|done].
    rewrite read_digits_app by done.
    by destruct (JSON.read_digits 0 0 s) as [[f k] r].
Qed.

Lemma read_exp_digits_app (neg : bool) (s rest : string) :
  ends_value rest = true →
  JSON.read_exp_digits neg (s +:+ rest)
  = '(ex, r) ← JSON.read_exp_digits neg s; Some (ex, r +:+ rest).
Proof.
  intros Hrest. unfold JSON.read_exp_digits.
  rewrite starts_with_digit_app by done.
  destruct (JSON.starts_with_digit s); [|done].
  rewrite read_digits_app by done.
  by destruct (JSON.read_digits 0 0 s) as [[e k] r].
Qed.

Lemma read_exp_app (s rest : string) :
  ends_value rest = true →
  JSON.read_exp (s +:+ rest)
  = '(ex, r) ← JSON.read_exp s; Some (ex, r +:+ rest).
Proof.
  intros Hrest. destruct s as [|c s].
  - cbn [String.append]. rewrite read_exp_stop by done. done.
  - change (String c s +:+ rest) with (String c (s +:+ rest)).
    unfold JSON.read_exp. destruct (Ascii.eqb c "e" || Ascii.eqb c "E"); [|done].
    destruct s as [|c2 s2].
    + cbn [String.append].
      assert (Hnone : JSON.read_exp_digits false rest = None).
      { unfold JSON.read_exp_digits. by rewrite starts_with_digit_stop. }
      ends_value_cases Hrest; cbn; try done.
    + change (String c2 s2 +:+ rest) with (String c2 (s2 +:+ rest)).
      destruct (Ascii.eqb_spec c2 "+") as [->|Hp]; [by apply read_exp_digits_app|].
      destruct (Ascii.eqb_spec c2 "-") as [->|Hm]; [by apply read_exp_digits_app|].
      transitivity (JSON.read_exp_digits false (String c2 (s2 +:+ rest))).
      { destruct c2 as [[] [] [] [] [] [] [] []]; done. }
      transitivity ('(ex, r) ← JSON.read_exp_digits false (String c2 s2);
                    Some (ex, r +:+ rest)).
      { by apply (read_exp_digits_app false (String c2 s2)). }
      destruct c2 as [[] [] [] [] [] [] [] []]; done.
Qed.

Lemma parse_unsigned_app (neg : bool) (s rest : string) :
  ends_value rest = true →
  JSON.parse_unsigned neg (s +:+ rest)
  = '(v, r) ← JSON.parse_unsigned neg s; Some (v, r +:+ rest).
Proof.
  intros Hrest. unfold JSON.parse_unsigned.
  rewrite starts_with_digit_app, leading_zero_app by done.
  destruct (negb (JSON.starts_with_digit s) || JSON.leading_zero s); [done|].
  rewrite read_digits_app by done.
  destruct (JSON.read_digits 0 0 s) as [[n k] r1].
  rewrite read_frac_app by done.
  destruct (JSON.read_frac r1) as [[fr r2]|]; [|done]. cbn [mbind option_bind].
  rewrite read_exp_app by done.
  destruct (JSON.read_exp r2) as [[ex r3]|]; [|done]. cbn [mbind option_bind].
  destruct fr as [[f kf]|], ex as [e|]; done.
Qed.

Lemma parse_number_app (s rest : string) :
  ends_value rest = true →
  JSON.parse_number (s +:+ rest)
  = '(v, r) ← JSON.parse_number s; Some (v, r +:+ rest).
Proof.
  intros Hrest. destruct s as [|c s].
  - cbn [String.append]. ends_value_cases Hrest; reflexivity.
  - change (String c s +:+ rest) with (String c (s +:+ rest)).
    unfold JSON.parse_number. destruct (Ascii.eqb c "-").
    + by apply parse_unsigned_app.
    + by apply (parse_unsigned_app false (String c s)).
Qed.

(** ** JSON: values with numbers that are no integers *)

Section ReadsAs.
Variable real_toString : number → string.

Lemma reads_as_plain (v : json) : JSON.plain v = true → reads_as real_toString v v.
Proof. intros Hplain fuel rest Hfuel Hrest. by apply parse_value_stringify. Qed.

Lemma depth_pos (v : json) : (1 ≤ JSON.depth v)%nat.
Proof. destruct v; cbn; lia. Qed.

(** The text of a value that reads is not empty and does not start with a
    closing bracket. *)
Lemma reads_as_head (v v' : json) :
  reads_as real_toString v v' →
  ∃ c r, JSON.stringify real_toString v = String c r ∧
         Ascii.eqb c "]" = false ∧ Ascii.eqb c "}" = false.
Proof.
  intros Hread. specialize (Hread (JSON.depth v) EmptyString (le_n _) eq_refl).
  rewrite append_nil_r in Hread. pose proof (depth_pos v) as Hpos.
  destruct (JSON.depth v) as [|f]; [lia|].
  destruct (JSON.stringify real_toString v) as [|c r]; [done|].
  exists c, r. split; [done|].
  split.
  - destruct (Ascii.eqb_spec c "]") as [->|]; [done|done].
  - destruct (Ascii.eqb_spec c "}") as [->|]; [done|done].
Qed.

Lemma parse_elements_reads (f : nat) (vs vs' : list json) (rest : string) (n : nat) :
  vs ≠ [] →
  Forall2 (λ v v', ∀ rest', ends_value rest' = true →
             JSON.parse_value f (JSON.stringify real_toString v +:+ rest')
             = Some (v', rest')) vs vs' →
  (length vs ≤ n)%nat →
  JSON.parse_elements (JSON.parse_value f) n
    (String.concat "," (map (JSON.stringify real_toString) vs) +:+ String "]" rest)
  = Some (vs', rest).
Proof.
  intros Hne Hall. revert n. induction Hall as [|v v' vs vs' Hv Hvs IH]; [done|].
  intros [|n] Hn; [cbn in Hn; lia|].
  destruct vs as [|v2 vs].
  - apply Forall2_nil_inv_l in Hvs as ->. cbn. rewrite Hv by done. reflexivity.
  - change (String.concat "," (map (JSON.stringify real_toString) (v :: v2 :: vs)))
      with (JSON.stringify real_toString v +:+ ","
            +:+ String.concat "," (map (JSON.stringify real_toString) (v2 :: vs))).
    rewrite !append_assoc. cbn. rewrite Hv by done. cbn.
    rewrite IH; [done | done | cbn in *; lia].
Qed.

Lemma parse_members_reads (f : nat) (kvs kvs' : list (string * json)) (rest : string)
    (n : nat) :
  kvs ≠ [] →
  Forall2 (λ kv kv', kv.1 = kv'.1 ∧
             ∀ rest', ends_value rest' = true →
               JSON.parse_value f (JSON.stringify real_toString kv.2 +:+ rest')
               = Some (kv'.2, rest')) kvs kvs' →
  (length kvs ≤ n)%nat →
  JSON.parse_members (JSON.parse_value f) n
    (String.concat "," (map (member_text real_toString) kvs) +:+ String "}" rest)
  = Some (kvs', rest).
Proof.
  intros Hne Hall. revert n.
  induction Hall as [|[k v] [k' v'] kvs kvs' [Hk Hv] Hkvs IH]; [done|].
  cbn in Hk, Hv. subst k'.
  intros [|n] Hn; [cbn in Hn; lia|].
  destruct kvs as [|kv2 kvs].
  - apply Forall2_nil_inv_l in Hkvs as ->.
    cbn [map String.concat]. rewrite member_text_app.
    cbn. rewrite parse_string_escape. cbn. rewrite Hv by done. reflexivity.
  - change (String.concat "," (map (member_text real_toString) ((k, v) :: kv2 :: kvs)))
      with (member_text real_toString (k, v) +:+ ","
            +:+ String.concat "," (map (member_text real_toString) (kv2 :: kvs))).
    rewrite append_assoc, member_text_app. cbn.
    rewrite parse_string_escape. cbn. rewrite append_assoc. cbn.
    rewrite Hv by done. cbn.
    rewrite IH; [done | done | cbn in *; lia].
Qed.

Lemma reads_as_array (vs vs' : list json) :
  Forall2 (reads_as real_toString) vs vs' →
  reads_as real_toString (JArr vs) (JArr vs').
Proof.
  intros Hall [|f] rest Hfuel Hrest; [cbn in Hfuel; lia|].
  rewrite stringify_array.
  destruct vs as [|v vs].
  { apply Forall2_nil_inv_l in Hall as ->. reflexivity. }
  assert (Hall' : Forall2 (λ v v', ∀ rest', ends_value rest' = true →
             JSON.parse_value f (JSON.stringify real_toString v +:+ rest')
             = Some (v', rest')) (v :: vs) vs').
  { apply Forall2_same_length_lookup. split; [by eapply Forall2_length|].
    intros i w w' Hi Hi' rest' Hrest'.
    pose proof (Forall2_lookup_lr _ _ _ _ _ _ Hall Hi Hi') as Hw.
    apply Hw; [|done].
    pose proof (depth_element w (v :: vs) (list_elem_of_lookup_2 _ _ _ Hi)).
    change (JSON.depth (JArr (v :: vs)))
      with (S (foldr (λ v d, max (JSON.depth v) d) 0%nat (v :: vs))) in Hfuel. lia. }
  set (text := String.concat "," (map (JSON.stringify real_toString) (v :: vs))
               +:+ String "]" rest).
  assert (Hhead : JSON.starts_with "]" text = false).
  { apply Forall2_cons_inv_l in Hall as (w' & ws' & Hw & _ & _).
    destruct (reads_as_head v w' Hw) as (c & r & Heq & Hc & _).
    unfold text. destruct vs; cbn [map String.concat]; rewrite Heq; cbn; done. }
  assert (Hlen : (length (v :: vs) ≤ String.length text)%nat).
  { unfold text. rewrite length_append. etrans; [|apply Nat.le_add_r].
    rewrite <- (length_map (JSON.stringify real_toString)). apply length_concat.
    apply Forall_map, Forall_forall. intros w Hw.
    apply list_elem_of_lookup_1 in Hw as [i Hi].
    destruct (Forall2_lookup_l _ _ _ _ _ Hall Hi) as (w' & _ & Hread).
    destruct (reads_as_head w w' Hread) as (c & r & -> & _). cbn. lia. }
  change (JSON.parse_value (S f) (String "[" text))
    with (if JSON.starts_with "]" text then Some (JArr [], JSON.tail text)
          else '(vs, rest) ← JSON.parse_elements (JSON.parse_value f)
                                (String.length text) text;
               Some (JArr vs, rest)).
  rewrite Hhead. unfold text at 2.
  rewrite (parse_elements_reads f (v :: vs) vs'); done.
Qed.

Lemma reads_as_object (kvs kvs' : list (string * json)) :
  Forall2 (λ kv kv', kv.1 = kv'.1 ∧ reads_as real_toString kv.2 kv'.2) kvs kvs' →
  reads_as real_toString (JObj kvs) (JObj kvs').
Proof.
  intros Hall [|f] rest Hfuel Hrest; [cbn in Hfuel; lia|].
  rewrite stringify_object.
  destruct kvs as [|[k v] kvs].
  { apply Forall2_nil_inv_l in Hall as ->. reflexivity. }
  assert (Hall' : Forall2 (λ kv kv', kv.1 = kv'.1 ∧
             ∀ rest', ends_value rest' = true →
               JSON.parse_value f (JSON.stringify real_toString kv.2 +:+ rest')
               = Some (kv'.2, rest')) ((k, v) :: kvs) kvs').
  { apply Forall2_same_length_lookup. split; [by eapply Forall2_length|].
    intros i w w' Hi Hi'.
    destruct (Forall2_lookup_lr _ _ _ _ _ _ Hall Hi Hi') as [Hk Hw].
    split; [done|]. intros rest' Hrest'.
    apply Hw; [|done].
    pose proof (depth_member w ((k, v) :: kvs) (list_elem_of_lookup_2 _ _ _ Hi)).
    change (JSON.depth (JObj ((k, v) :: kvs)))
      with (S (foldr (λ kv d, max (JSON.depth (snd kv)) d) 0%nat ((k, v) :: kvs)))
      in Hfuel. lia. }
  set (text := String.concat "," (map (member_text real_toString) ((k, v) :: kvs))
               +:+ String "}" rest).
  assert (Hhead : JSON.starts_with "}" text = false).
  { unfold text. destruct kvs; reflexivity. }
  assert (Hlen : (length ((k, v) :: kvs) ≤ String.length text)%nat).
  { unfold text. rewrite length_append. etrans; [|apply Nat.le_add_r].
    rewrite <- (length_map (member_text real_toString)). apply length_concat.
    apply Forall_map, Forall_forall. intros [k1 v1] _.
    unfold member_text, JSON.quote. cbn. lia. }
  change (JSON.parse_value (S f) (String "{" text))
    with (if JSON.starts_with "}" text then Some (JObj [], JSON.tail text)
          else '(kvs, rest) ← JSON.parse_members (JSON.parse_value f)
                                 (String.length text) text;
               Some (JObj kvs, rest)).
  rewrite Hhead. unfold text at 2.
  rewrite (parse_members_reads f ((k, v) :: kvs) kvs'); done.
Qed.

(** A number that survives on its own reads wherever it stands. *)
Lemma reads_as_number (x : number) :
  number_survives real_toString x →
  ∃ v', reads_as real_toString (number_to_json x) v' ∧ number_of_json v' = Some x.
Proof.
  unfold number_survives, number_to_json.
  destruct (to_Z x) as [n|] eqn:Hz.
  - rewrite JSON_parse_stringify by done. cbn. intros Hx.
    exists (JNum n). split; [by apply reads_as_plain | done].
  - cbn [JSON.stringify]. destruct (is_finite x) eqn:Hfin; [|done].
    unfold JSON.parse.
    destruct (JSON.parse_value (S (String.length (real_toString x))) (real_toString x))
      as [[v' r]|] eqn:Hparse; [|done].
    destruct r; [|done]. cbn [mbind option_bind]. intros Hnum.
    exists v'. split; [|done].
    intros [|f] rest Hfuel Hrest; [cbn in Hfuel; lia|].
    change (JSON.stringify real_toString (JReal x))
      with (if is_finite x then real_toString x else "null").
    rewrite Hfin.
    destruct (real_toString x) as [|c s] eqn:Htext; [done|].
    change (String c s +:+ rest) with (String c (s +:+ rest)).
    cbn [JSON.parse_value] in Hparse |- *.
    destruct (JSON.is_num_start c) eqn:Hc.
    + change (String c (s +:+ rest)) with (String c s +:+ rest).
      rewrite parse_number_app, Hparse by done. done.
    + (* a text that does not start as a number reads as no number *)
      exfalso. clear -Hparse Hnum.
      destruct (Ascii.eqb c JSON.dquote).
      { destruct (JSON.parse_string s) as [[str r']|]; [|done].
        injection Hparse as <- _. done. }
      destruct (Ascii.eqb c "[").
      { destruct (JSON.starts_with "]" s); [by injection Hparse as <- _|].
        destruct (JSON.parse_elements _ _ s) as [[vs r']|]; [|done].
        injection Hparse as <- _. done. }
      destruct (Ascii.eqb c "{").
      { destruct (JSON.starts_with "}" s); [by injection Hparse as <- _|].
        destruct (JSON.parse_members _ _ s) as [[kvs r']|]; [|done].
        injection Hparse as <- _. done. }
      destruct (Ascii.eqb c "n").
      { destruct (JSON.strip_prefix "ull" s); [|done]. by injection Hparse as <- _. }
      destruct (Ascii.eqb c "t").
      { destruct (JSON.strip_prefix "rue" s); [|done]. by injection Hparse as <- _. }
      destruct (Ascii.eqb c "f"); [|done].
      destruct (JSON.strip_prefix "alse" s); [|done]. by injection Hparse as <- _.
Qed.

End ReadsAs.

(** ** Saving and loading *)

Lemma Forall_exists_Forall2 {A B} (R : A → B → Prop) (l : list A) :
  Forall (λ x, ∃ y, R x y) l → ∃ k, Forall2 R l k.
Proof.
  induction 1 as [|x l [y Hy] _ [k Hk]]; [by exists []|].
  exists (y :: k). by constructor.
Qed.

Lemma Map_set_fresh (k v : string) (m : list (string * string)) :
  k ∉ m.*1 → Map_set k v m = m ++ [(k, v)].
Proof.
  induction m as [|[k' v'] m IH]; cbn; [done|].
  intros [Hne Hnot]%not_elem_of_cons. rewrite decide_False by done.
  by rewrite IH.
Qed.

Lemma foldl_Map_set (acc m : list (string * string)) :
  NoDup (acc ++ m).*1 →
  foldl (λ a kv, Map_set kv.1 kv.2 a) acc m = acc ++ m.
Proof.
  revert acc. induction m as [|[k v] m IH]; intros acc Hnd; cbn.
  - by rewrite app_nil_r.
  - rewrite Map_set_fresh.
    + rewrite IH; rewrite <- (assoc_L (++)); done.
    + rewrite fmap_app in Hnd. apply NoDup_app in Hnd as (_ & Hdis & _).
      intros Hin. apply (Hdis k Hin). cbn. by left.
Qed.

Lemma fromMomento_eq (a : nat) (momento : string) (σ : State) :
  fromMomento a momento σ
  = cs ← momento_coins momento;
    _ ← cache_objs σ !! a;
    Some (set_coins a (seq (length (coin_objs σ)) (length cs))
            (set_coin_objs (coin_objs σ ++ cs) σ)).
Proof.
  unfold fromMomento, momento_coins, JSON_parse.
  destruct (JSON.parse momento) as [v|]; [|done]. cbn.
  destruct (json_array v) as [vs|]; [|done]. cbn.
  by destruct (mapM coin_of_json vs).
Qed.

Lemma entries_plain (m : list (string * string)) :
  JSON.plain (JArr (map (λ kv, JArr [JStr kv.1; JStr kv.2]) m)) = true.
Proof. induction m as [|kv m IH]; [done|]. cbn in *. exact IH. Qed.

Lemma length_concat_head (sep s : string) (l : list string) :
  (String.length s ≤ String.length (String.concat sep (s :: l)))%nat.
Proof.
  destruct l as [|s2 l]; [cbn; lia|].
  change (String.concat sep (s :: s2 :: l))
    with (s +:+ sep +:+ String.concat sep (s2 :: l)).
  rewrite !length_append. lia.
Qed.

Section SaveLoad.
Variable real_toString : number → string.

Lemma stringify_array_length (vs : list json) :
  (2 ≤ String.length (JSON.stringify real_toString (JArr vs)))%nat.
Proof.
  pose proof (stringify_array real_toString vs EmptyString) as Htext.
  rewrite append_nil_r in Htext. rewrite Htext. cbn. rewrite length_append. cbn. lia.
Qed.

Lemma stringify_array_truthy (vs : list json) :
  truthy (JSON.stringify real_toString (JArr vs)) = true.
Proof.
  pose proof (stringify_array real_toString vs EmptyString) as Htext.
  rewrite append_nil_r in Htext. by rewrite Htext.
Qed.

Lemma parse_reads (v v' : json) :
  reads_as real_toString v v' →
  (JSON.depth v ≤ S (String.length (JSON.stringify real_toString v)))%nat →
  JSON.parse (JSON.stringify real_toString v) = Some v'.
Proof.
  intros Hread Hdepth. unfold JSON.parse.
  specialize (Hread _ EmptyString Hdepth eq_refl).
  rewrite append_nil_r in Hread. by rewrite Hread.
Qed.

Lemma depth_array (vs : list json) (d : nat) :
  Forall (λ v, (JSON.depth v ≤ d)%nat) vs → (JSON.depth (JArr vs) ≤ S d)%nat.
Proof.
  intros Hall. cbn. apply le_n_S.
  induction Hall as [|v vs Hv _ IH]; cbn; lia.
Qed.

Lemma depth_number (x : number) : JSON.depth (number_to_json x) = 1%nat.
Proof. unfold number_to_json. by destruct (to_Z x). Qed.

Lemma reads_latlng (p : latlng) :
  latlng_survives real_toString p →
  ∃ v', reads_as real_toString (latlng_to_json p) v' ∧ latlng_of_json v' = Some p.
Proof.
  intros [Hlat Hlng].
  destruct (reads_as_number real_toString _ Hlat) as (v1 & H1 & Hn1).
  destruct (reads_as_number real_toString _ Hlng) as (v2 & H2 & Hn2).
  exists (JObj [("lat", v1); ("lng", v2)]). split.
  - apply reads_as_object. repeat constructor; done.
  - cbn. rewrite Hn1, Hn2. cbn. by destruct p.
Qed.

Lemma reads_line (line : list latlng) :
  Forall (latlng_survives real_toString) line →
  ∃ w, reads_as real_toString (JArr (map latlng_to_json line)) w ∧
       json_array w ≫= mapM latlng_of_json = Some line.
Proof.
  intros Hall.
  destruct (Forall_exists_Forall2
              (λ p v', reads_as real_toString (latlng_to_json p) v' ∧
                       latlng_of_json v' = Some p) line) as [vs Hvs].
  { eapply Forall_impl; [exact Hall|]. apply reads_latlng. }
  exists (JArr vs). split.
  - apply reads_as_array. apply Forall2_fmap_l.
    eapply Forall2_impl; [exact Hvs|]. by intros p v' [? _].
  - cbn. apply mapM_Some. apply Forall2_flip.
    eapply Forall2_impl; [exact Hvs|]. by intros p v' [_ ?].
Qed.

Lemma reads_trail (trail : list (list latlng)) :
  Forall (Forall (latlng_survives real_toString)) trail →
  ∃ w, reads_as real_toString
         (JArr (map (λ line, JArr (map latlng_to_json line)) trail)) w ∧
       json_array w ≫= mapM (λ l, json_array l ≫= mapM latlng_of_json) = Some trail.
Proof.
  intros Hall.
  destruct (Forall_exists_Forall2
              (λ line w, reads_as real_toString (JArr (map latlng_to_json line)) w ∧
                         json_array w ≫= mapM latlng_of_json = Some line) trail)
    as [ws Hws].
  { eapply Forall_impl; [exact Hall|]. apply reads_line. }
  exists (JArr ws). split.
  - apply reads_as_array. apply Forall2_fmap_l.
    eapply Forall2_impl; [exact Hws|]. by intros p v' [? _].
  - cbn. apply mapM_Some. apply Forall2_flip.
    eapply Forall2_impl; [exact Hws|]. by intros p v' [_ ?].
Qed.

Lemma depth_latlng (p : latlng) : JSON.depth (latlng_to_json p) = 2%nat.
Proof. cbn. by rewrite !depth_number. Qed.

Lemma depth_trail (trail : list (list latlng)) :
  (JSON.depth (JArr (map (λ line, JArr (map latlng_to_json line)) trail))
   ≤ S (String.length
          (JSON.stringify real_toString
             (JArr (map (λ line, JArr (map latlng_to_json line)) trail)))))%nat.
Proof.
  destruct trail as [|line trail]; [cbn; lia|].
  etrans.
  { apply (depth_array _ 3). apply Forall_map, Forall_forall. intros l _.
    apply (depth_array _ 2). apply Forall_map, Forall_forall. intros p _.
    by rewrite depth_latlng. }
  pose proof (stringify_array real_toString
                (map (λ line, JArr (map latlng_to_json line)) (line :: trail))
                EmptyString) as Htext.
  rewrite append_nil_r in Htext. rewrite Htext. cbn [String.length].
  rewrite length_append. cbn [String.length].
  pose proof (stringify_array_length (map latlng_to_json line)) as Hline.
  cbn [map].
  pose proof (length_concat_head ","
                (JSON.stringify real_toString (JArr (map latlng_to_json line)))
                (map (JSON.stringify real_toString)
                   (map (λ line, JArr (map latlng_to_json line)) trail))).
  lia.
Qed.

(** What [saveData] writes, [loadData] reads back into the state of a new
    page. *)
Lemma saveData_loadData_page (σ : State) :
  NoDup (momentos σ).*1 →
  (∀ momento, Map_get "inventory" (momentos σ) = Some momento →
              is_Some (momento_coins momento)) →
  Forall (latlng_survives real_toString) (origin σ :: concat (locHistory σ)) →
  ∃ σ',
    loadData (initial (localStorage (saveData real_toString σ))) = Some σ' ∧
    momentos σ' = momentos σ ∧ origin σ' = origin σ ∧
    locHistory σ' = locHistory σ ∧
    coins_of inventory σ'
    = match Map_get "inventory" (momentos σ) with
      | Some momento => momento_coins momento
      | None => Some []
      end ∧
    board σ' = createBoard ∧ markers σ' = [].
Proof.
  intros Hnd Hinv Hnum. apply Forall_cons in Hnum as [[Hlat Hlng] Htrail].
  destruct (reads_as_number real_toString _ Hlat) as (v1 & H1 & Hn1).
  destruct (reads_as_number real_toString _ Hlng) as (v2 & H2 & Hn2).
  destruct (reads_trail (locHistory σ)) as (w & Hw & Hlines).
  { apply Forall_concat. exact Htrail. }
  set (data := JSON_stringify real_toString
                 (JArr (map (λ kv, JArr [JStr kv.1; JStr kv.2]) (momentos σ)))).
  set (loc := JSON_stringify real_toString
                (JArr [number_to_json (lat (origin σ)); number_to_json (lng (origin σ))])).
  set (hist := JSON_stringify real_toString
                 (JArr (map (λ line, JArr (map latlng_to_json line)) (locHistory σ)))).
  assert (Hstore : localStorage (saveData real_toString σ)
                   = <["hist" := hist]> (<["loc" := loc]>
                       (<["data" := data]> (localStorage σ)))) by done.
  set (σ0 := initial (localStorage (saveData real_toString σ))).
  assert (Hd : getItem_truthy "data" σ0 = Some data).
  { unfold getItem_truthy, σ0. cbn [localStorage initial]. rewrite Hstore.
    rewrite lookup_insert_ne, lookup_insert_ne, lookup_insert_eq by done.
    unfold data, JSON_stringify. by rewrite stringify_array_truthy. }
  assert (Hl : ∀ s, localStorage s = localStorage σ0 → getItem_truthy "loc" s = Some loc).
  { intros s Hs. unfold getItem_truthy. rewrite Hs. unfold σ0.
    cbn [localStorage initial]. rewrite Hstore.
    rewrite lookup_insert_ne, lookup_insert_eq by done.
    unfold loc, JSON_stringify. by rewrite stringify_array_truthy. }
  assert (Hh : ∀ s, localStorage s = localStorage σ0 → getItem_truthy "hist" s = Some hist).
  { intros s Hs. unfold getItem_truthy. rewrite Hs. unfold σ0.
    cbn [localStorage initial]. rewrite Hstore.
    rewrite lookup_insert_eq.
    unfold hist, JSON_stringify. by rewrite stringify_array_truthy. }
  assert (Hpd : JSON_parse data
                = Some (JArr (map (λ kv, JArr [JStr kv.1; JStr kv.2]) (momentos σ)))).
  { unfold JSON_parse, data, JSON_stringify.
    apply JSON_parse_stringify, entries_plain. }
  assert (Hpl : JSON_parse loc = Some (JArr [v1; v2])).
  { unfold JSON_parse, loc, JSON_stringify. apply parse_reads.
    - apply reads_as_array. repeat constructor; done.
    - pose proof (stringify_array_length
                    [number_to_json (lat (origin σ)); number_to_json (lng (origin σ))]).
      cbn [JSON.depth foldr]. rewrite !depth_number. lia. }
  assert (Hph : JSON_parse hist = Some w).
  { unfold JSON_parse, hist, JSON_stringify. apply parse_reads; [done|].
    apply depth_trail. }
  assert (Hentries : json_array (JArr (map (λ kv, JArr [JStr kv.1; JStr kv.2]) (momentos σ)))
                       ≫= mapM entry_of_json = Some (momentos σ)).
  { cbn. change (map ?f ?l) with (f <$> l). apply mapM_fmap_Some. by intros [k v]. }
  unfold loadData. rewrite Hd, Hpd. cbn [mbind option_bind]. rewrite Hentries.
  cbn [mbind option_bind].
  change (momentos σ0) with (@nil (string * string)).
  rewrite (foldl_Map_set [] (momentos σ)) by done. cbn [app].
  set (σ1 := set_momentos (momentos σ) σ0).
  change (momentos σ1) with (momentos σ).
  assert (∃ σ2,
            match Map_get "inventory" (momentos σ) with
            | Some inv => if truthy inv then fromMomento inventory inv σ1 else Some σ1
            | None => Some σ1
            end = Some σ2 ∧
            momentos σ2 = momentos σ ∧ origin σ2 = OAKES_CLASSROOM ∧
            locHistory σ2 = [] ∧ localStorage σ2 = localStorage σ0 ∧
            coins_of inventory σ2
            = match Map_get "inventory" (momentos σ) with
              | Some momento => momento_coins momento
              | None => Some []
              end ∧
            board σ2 = createBoard ∧ markers σ2 = [])
    as (σ2 & -> & Hm2 & Ho2 & Hh2 & Hs2 & Hc2 & Hb2 & Hk2).
  { destruct (Map_get "inventory" (momentos σ)) as [inv|] eqn:Hget; [|by exists σ1].
    destruct (Hinv inv eq_refl) as [cs Hcs].
    destruct (truthy inv) eqn:Htr; [|by destruct inv].
    rewrite fromMomento_eq, Hcs. cbn. eexists. split; [reflexivity|].
    repeat split; try done. unfold coins_of. cbn.
    apply (lookup_new_objects [] cs). }
  cbn [mbind option_bind]. rewrite (Hl σ2 Hs2), Hpl. cbn [mbind option_bind].
  rewrite Hn1, Hn2. cbn [mbind option_bind].
  set (σ3 := set_origin _ σ2).
  rewrite (Hh σ3) by done. rewrite Hph. cbn [mbind option_bind].
  rewrite Hlines. cbn [mbind option_bind].
  eexists. split; [reflexivity|]. cbn. rewrite Hm2, Hh2. split; [done|].
  split; [by destruct (origin σ)|]. split; [done|]. split; [exact Hc2|]. done.
Qed.

(** X11: what [saveData] writes, [loadData] reads back: over the storage a
    session leaves, a new page has the same table of mementos, the same
    position and the same trail, and its inventory holds the coins of the
    memento of the inventory, none without one.  The keys of the table are
    those of a [Map], each once; the memento of the inventory, when there
    is one, reads as coins; and each coordinate of the position and of the
    trail is a number that [JSON.parse] reads back from its own text. *)
Theorem saveData_loadData (σ : State) :
  NoDup (momentos σ).*1 →
  (∀ momento, Map_get "inventory" (momentos σ) = Some momento →
              is_Some (momento_coins momento)) →
  Forall (latlng_survives real_toString) (origin σ :: concat (locHistory σ)) →
  ∃ σ',
    loadData (initial (localStorage (saveData real_toString σ))) = Some σ' ∧
    momentos σ' = momentos σ ∧ origin σ' = origin σ ∧
    locHistory σ' = locHistory σ ∧
    coins_of inventory σ'
    = match Map_get "inventory" (momentos σ) with
      | Some momento => momento_coins momento
      | None => Some []
      end.
Proof.
  intros Hnd Hinv Hnum.
  destruct (saveData_loadData_page σ Hnd Hinv Hnum)
    as (σ' & Hload & Hm & Ho & Hh & Hc & _).
  by exists σ'.
Qed.

End SaveLoad.

Lemma saveData_loadData_witness :
  ∃ σ',
    loadData (initial (localStorage (saveData sample_number_text sample_trail)))
    = Some σ' ∧
    origin σ' = OAKES_CLASSROOM ∧ locHistory σ' = [[OAKES_CLASSROOM]].
Proof.
  destruct (saveData_loadData sample_number_text sample_trail)
    as (σ' & Hload & _ & Ho & Hh & _).
  - constructor.
  - intros momento Hget. discriminate.
  - repeat constructor; vm_compute; reflexivity.
  - exists σ'. split; [exact Hload|]. split; [exact Ho | exact Hh].
Defined.

(** ** The keys of the table, each once *)





Section Keys.
Variable luck : string → number.
Variable calculateDistance : latlng → latlng → number.
Variable real_toString : number → string.






End Keys.

(** ** Leaving the page and coming back *)


Section Reload.
Variable luck : string → number.
Variable calculateDistance : latlng → latlng → number.
Variable real_toString : number → string.





Hypothesis luck_unit : ∀ key, unit_interval (luck key).


End Reload.


